(** * ResumeIQ: the ATS scoring engine and the refinement pipeline

    A shallow embedding of [src/ats_scorer.py] (the scoring engine and the
    missing-skill classifier) and of the refinement part of
    [src/resume_builder.py] (language polish, skill diversity, critical skill
    injection, complementary skills, role normalisation, orchestrator),
    followed by the properties of the specification stated over it; then of
    the rest of [src/resume_builder.py] that computes (the sanitiser, the
    bullet enhancer, the form formatter, the word wrapper) and of the three
    other scorers, [src/skill_matcher.py], [src/multi_role_predictor.py] and
    [src/jd_matcher.py], with the properties the code itself shows.

    Conventions of the embedding.
    - A Python [str] is a [string] of ASCII characters; [str.lower],
      [str.capitalize] and [re.IGNORECASE] act on the letters A-Z / a-z,
      [str.isalpha] accepts these letters, and [str.strip] and [str.split]
      take the ASCII white space (codes 9-13 and 28-32).
    - A Python [set] of strings is a [gset string]; [list(a_set)] enumerates
      the set in an order the language does not fix, so the enumeration is a
      parameter of the scorer.
    - A Python [dict] whose iteration order is used is an association list in
      insertion order (keys distinct); [data/job_roles.json] is not among the
      sources and is a parameter.
    - A Python [int] is a [Z]; a Python [float] is a binary64 number
      (module [Binary64]).
    - The resume dictionary that the pipeline mutates in place is threaded
      as a state: every stage maps a [Resume] to the [Resume] it leaves. *)

From Stdlib Require Import ZArith Lia Bool Ascii String.
From Stdlib Require Import Floats.SpecFloat.
From stdpp Require Import gmap strings list sorting.

(** * Python strings *)

Definition ascii_lower (c : ascii) : ascii :=
  let n := nat_of_ascii c in
  if (65 <=? n)%nat && (n <=? 90)%nat then ascii_of_nat (n + 32) else c.

Definition ascii_upper (c : ascii) : ascii :=
  let n := nat_of_ascii c in
  if (97 <=? n)%nat && (n <=? 122)%nat then ascii_of_nat (n - 32) else c.

(** [s.lower()] *)
Fixpoint lower (s : string) : string :=
  match s with
  | EmptyString => EmptyString
  | String c s' => String (ascii_lower c) (lower s')
  end.

(** [s.capitalize()]: first character upper-cased, the rest lower-cased. *)
Definition capitalize (s : string) : string :=
  match s with
  | EmptyString => EmptyString
  | String c s' => String (ascii_upper c) (lower s')
  end.

(** [sep.join(parts)] *)
Fixpoint join (sep : string) (parts : list string) : string :=
  match parts with
  | [] => ""
  | [p] => p
  | p :: ps => p +:+ sep +:+ join sep ps
  end.

Fixpoint string_drop (n : nat) (s : string) : string :=
  match n, s with
  | O, _ => s
  | S n', String _ s' => string_drop n' s'
  | S _, EmptyString => EmptyString
  end.

(** ** [re.compile(re.escape(pat), re.IGNORECASE)]

    The pattern is a literal phrase; it matches at a position when the
    characters agree up to letter case. *)

Fixpoint match_here (pat s : string) : bool :=
  match pat, s with
  | EmptyString, _ => true
  | String p pat', String c s' =>
      Ascii.eqb (ascii_lower p) (ascii_lower c) && match_here pat' s'
  | String _ _, EmptyString => false
  end.

(** [pattern.search(s)]: the start of the leftmost match. *)
Fixpoint re_search (pat s : string) {struct s} : option nat :=
  if match_here pat s then Some O
  else match s with
       | EmptyString => None
       | String _ s' => S <$> re_search pat s'
       end.

(** [pattern.sub(repl, s, count=1)]: the leftmost match is replaced. *)
Fixpoint re_sub1 (pat repl s : string) {struct s} : string :=
  if match_here pat s then repl +:+ string_drop (String.length pat) s
  else match s with
       | EmptyString => EmptyString
       | String c s' => String c (re_sub1 pat repl s')
       end.

(** * Python dictionaries in insertion order *)

Fixpoint dict_get {V : Type} (d : list (string * V)) (k : string) : option V :=
  match d with
  | [] => None
  | (k', v) :: d' => if String.eqb k' k then Some v else dict_get d' k
  end.

(** [d.get(k, [])] *)
Definition dict_get_list (d : list (string * list string)) (k : string)
  : list string :=
  match dict_get d k with Some v => v | None => [] end.

(** [k in d] *)
Definition dict_mem {V : Type} (d : list (string * V)) (k : string) : bool :=
  match dict_get d k with Some _ => true | None => false end.

(** * Binary64 arithmetic

    [len(matched) / len(required)] is Python's true division of two
    integers, the binary64 number nearest to the quotient (ties to even);
    [... * 50] is the binary64 product, the exact product rounded the same
    way; [int(...)] truncates.  Every value involved is non-negative, and
    for a quotient of two list lengths the exponent stays far inside the
    binary64 range, so a value is a mantissa and an unbounded exponent. *)

Module Binary64.
Local Open Scope Z_scope.

(** The number [mant * 2 ^ expo]. *)
Record float := mk_float { mant : Z; expo : Z }.

(** The fraction [n / (d * 2 ^ e)], for either sign of [e]. *)
Definition frac_shift (n d e : Z) : Z * Z :=
  if 0 <=? e then (n, d * 2 ^ e) else (n * 2 ^ (- e), d).

(** The integer nearest to [n / d], ties to the even one. *)
Definition round_half_even (n d : Z) : Z :=
  let q := n / d in
  let r := n mod d in
  if 2 * r <? d then q
  else if d <? 2 * r then q + 1
  else if Z.even q then q else q + 1.

(** For [0 < n], [0 < d]: the [e] with [2 ^ e <= n / d < 2 ^ (e + 1)]. *)
Definition floor_log2 (n d : Z) : Z :=
  let l := Z.log2 n - Z.log2 d in
  let '(n', d') := frac_shift n d l in
  if d' <=? n' then l else l - 1.

(** [n / d] rounded to 53 significant bits. *)
Definition round53 (n d : Z) : float :=
  if n =? 0 then mk_float 0 0
  else
    let e := floor_log2 n d - 52 in
    let '(n', d') := frac_shift n d e in
    mk_float (round_half_even n' d') e.

(** The value of a float as a fraction. *)
Definition to_frac (x : float) : Z * Z := frac_shift (mant x) 1 (- expo x).

(** [a / b] on integers [0 <= a], [0 < b]. *)
Definition truediv (a b : Z) : float := round53 a b.

(** [x * k] for a float [x] and a small integer [k] (exact as a float). *)
Definition mul_int (x : float) (k : Z) : float :=
  let '(n, d) := to_frac x in round53 (n * k) d.

(** [int(x)] *)
Definition to_int (x : float) : Z :=
  let '(n, d) := to_frac x in n / d.

(** The same computation with the IEEE 754 operations of the standard
    library's specification of binary64 ([prec = 53], [emax = 1024]). *)
Definition sf_of_Z (n : Z) : spec_float := binary_normalize 53 1024 n 0 false.

Definition sf_to_int (x : spec_float) : Z :=
  match x with
  | S754_finite false m e =>
      if 0 <=? e then Z.pos m * 2 ^ e else Z.pos m / 2 ^ (- e)
  | _ => 0
  end.

Definition sf_percent (a b k : Z) : Z :=
  sf_to_int (SFmul 53 1024 (SFdiv 53 1024 (sf_of_Z a) (sf_of_Z b)) (sf_of_Z k)).

(** [a/b <= c/d] on fractions with positive denominators. *)
Definition frac_le (x y : Z * Z) : Prop := fst x * snd y <= fst y * snd x.

(** [n / (d * 2 ^ e)] lies in [[1, 2)]. *)
Definition in_binade (n d e : Z) : Prop :=
  snd (frac_shift n d e) <= fst (frac_shift n d e)
  /\ fst (frac_shift n d e) < 2 * snd (frac_shift n d e).

(** The order of the values of two floats. *)
Definition float_le (x y : float) : Prop := frac_le (to_frac x) (to_frac y).

End Binary64.

(** * [src/ats_scorer.py] *)

Record ParsedData := mk_parsed {
  pd_name : string;
  pd_email : string;
  pd_phone : string;
  pd_skills : list string;
  pd_text : string
}.

Record Classified := mk_classified {
  critical : list string;
  optional : list string
}.

Record AtsResult := mk_result {
  ats_score : Z;
  skill_score : Z;
  keyword_score : Z;
  completeness_score : Z;
  matched_skills : list string;
  missing_skills : list string;
  missing_classified : Classified
}.

(** Truth value of a string and of a list: non-empty. *)
Definition truthy (s : string) : bool :=
  match s with EmptyString => false | _ => true end.

Definition truthy_list {A : Type} (l : list A) : bool :=
  match l with [] => false | _ => true end.

Definition classify_step (required_set : gset string)
    (acc : list string * list string) (skill : string)
  : list string * list string :=
  if bool_decide (lower skill ∈ required_set)
  then (acc.1 ++ [skill], acc.2)
  else (acc.1, acc.2 ++ [skill]).

Definition classify_missing_skills (role : string)
    (missing_skills required_skills : list string) : Classified :=
  let required_set : gset string := list_to_set (lower <$> required_skills) in
  let '(crit, opt) :=
    fold_left (classify_step required_set) missing_skills ([], []) in
  {| critical := crit; optional := opt |}.

(** [int((matched / required) * 50)] *)
Definition skill_points (matched required : Z) : Z :=
  Binary64.to_int (Binary64.mul_int (Binary64.truediv matched required) 50).

Definition completeness_points (parsed_data : ParsedData) : Z :=
  ((if truthy (pd_name parsed_data) then 5 else 0)
   + (if truthy (pd_email parsed_data) then 5 else 0)
   + (if truthy (pd_phone parsed_data) then 5 else 0)
   + (if truthy_list (pd_skills parsed_data) then 5 else 0))%Z.

Section Scorer.

(** [load_job_roles()]: the role catalog read from [data/job_roles.json]. *)
Variable job_roles : list (string * list string).

(** [list(a_set)] *)
Variable set_list : gset string → list string.

Definition calculate_ats_score (parsed_data : ParsedData) (job_role : string)
  : AtsResult :=
  let resume_skills : gset string :=
    list_to_set (lower <$> pd_skills parsed_data) in
  let required_skills : gset string :=
    list_to_set (lower <$> dict_get_list job_roles job_role) in
  let matched := resume_skills ∩ required_skills in
  let missing := required_skills ∖ resume_skills in
  let skill :=
    if (0 <? size required_skills)%nat
    then skill_points (Z.of_nat (size matched)) (Z.of_nat (size required_skills))
    else 0%Z in
  let keyword := Z.min (Z.of_nat (size resume_skills) * 2) 30 in
  let completeness := completeness_points parsed_data in
  let total := Z.min (skill + keyword + completeness) 100 in
  {| ats_score := total;
     skill_score := skill;
     keyword_score := keyword;
     completeness_score := completeness;
     matched_skills := set_list matched;
     missing_skills := set_list missing;
     missing_classified :=
       classify_missing_skills job_role (set_list missing)
         (dict_get_list job_roles job_role) |}.

End Scorer.

(** The role table [CRITICAL_SKILLS] of [src/ats_scorer.py], used as a
    sample catalog in the closed examples. *)
Definition CRITICAL_SKILLS : list (string * list string) :=
  [ ("Web Developer", ["html"; "css"; "javascript"; "react"]);
    ("Backend Developer", ["python"; "flask"; "api"; "sql"]);
    ("Data Analyst", ["python"; "sql"; "pandas"; "statistics"]);
    ("ML Engineer", ["python"; "machine learning"; "numpy"]);
    ("Software Engineer", ["data structures"; "algorithms"; "java"; "c++"]) ].

(** * [src/multi_role_predictor.py] *)

Definition ROLE_SKILLS : list (string * list string) :=
  [ ("Web Developer", ["html"; "css"; "javascript"; "react"; "sql"]);
    ("Backend Developer", ["python"; "java"; "sql"; "flask"; "api"]);
    ("Data Analyst", ["python"; "sql"; "pandas"; "excel"; "statistics"]);
    ("Software Engineer", ["c"; "c++"; "java"; "data structures"]);
    ("ML Engineer", ["python"; "machine learning"; "numpy"; "pandas"]) ].

(** * [src/resume_builder.py]: the resume record *)

Record Education := mk_edu {
  edu_degree : string;
  edu_institution : string;
  edu_year : string
}.

Record Experience := mk_exp {
  exp_title : string;
  exp_company : string;
  exp_duration : string;
  exp_bullets : list string
}.

Record Project := mk_proj {
  proj_name : string;
  proj_tech : string;
  proj_bullets : list string
}.

Record Resume := mk_resume {
  name : string;
  email : string;
  phone : string;
  linkedin : string;
  github : string;
  portfolio : string;
  career_objective : string;
  target_role : string;
  education : list Education;
  experience : list Experience;
  projects : list Project;
  skills_list : list string;
  certifications : string;
  certifications_list : list string;
  achievements : string;
  achievements_list : list string;
  full_text : string
}.

(** Assignments to one key of the resume dictionary. *)
Definition set_experience (r : Resume) (v : list Experience) : Resume :=
  mk_resume (name r) (email r) (phone r) (linkedin r) (github r) (portfolio r)
    (career_objective r) (target_role r) (education r) v (projects r)
    (skills_list r) (certifications r) (certifications_list r)
    (achievements r) (achievements_list r) (full_text r).

Definition set_projects (r : Resume) (v : list Project) : Resume :=
  mk_resume (name r) (email r) (phone r) (linkedin r) (github r) (portfolio r)
    (career_objective r) (target_role r) (education r) (experience r) v
    (skills_list r) (certifications r) (certifications_list r)
    (achievements r) (achievements_list r) (full_text r).

Definition set_skills_list (r : Resume) (v : list string) : Resume :=
  mk_resume (name r) (email r) (phone r) (linkedin r) (github r) (portfolio r)
    (career_objective r) (target_role r) (education r) (experience r)
    (projects r) v (certifications r) (certifications_list r)
    (achievements r) (achievements_list r) (full_text r).

Definition set_full_text (r : Resume) (v : string) : Resume :=
  mk_resume (name r) (email r) (phone r) (linkedin r) (github r) (portfolio r)
    (career_objective r) (target_role r) (education r) (experience r)
    (projects r) (skills_list r) (certifications r) (certifications_list r)
    (achievements r) (achievements_list r) v.

Definition set_exp_bullets (e : Experience) (v : list string) : Experience :=
  mk_exp (exp_title e) (exp_company e) (exp_duration e) v.

Definition set_proj_bullets (p : Project) (v : list string) : Project :=
  mk_proj (proj_name p) (proj_tech p) v.

(** ** [_build_full_text] and [build_parsed_data] *)

Definition _build_full_text (data : Resume) : string :=
  let parts :=
    [name data; email data; phone data; career_objective data]
    ++ ((λ edu, edu_degree edu +:+ " " +:+ edu_institution edu +:+ " "
                +:+ edu_year edu) <$> education data)
    ++ concat ((λ e, (exp_title e +:+ " " +:+ exp_company e +:+ " "
                      +:+ exp_duration e) :: exp_bullets e)
               <$> experience data)
    ++ concat ((λ p, (proj_name p +:+ " " +:+ proj_tech p) :: proj_bullets p)
               <$> projects data)
    ++ [join " " (skills_list data)]
    ++ certifications_list data
    ++ achievements_list data in
  join " " parts.

Definition build_parsed_data (resume_data : Resume) : ParsedData :=
  {| pd_name := name resume_data;
     pd_email := email resume_data;
     pd_phone := phone resume_data;
     pd_skills := skills_list resume_data;
     pd_text := full_text resume_data |}.

(** ** The fixed tables *)

Definition _WEAK_VERB_MAP : list (string * string) :=
  [ ("worked on", "engineered");
    ("made", "developed");
    ("helped", "facilitated");
    ("did", "executed");
    ("used", "leveraged");
    ("was responsible for", "spearheaded");
    ("handled", "orchestrated");
    ("created", "architected");
    ("wrote", "authored");
    ("fixed", "resolved");
    ("changed", "refactored");
    ("ran", "managed");
    ("set up", "provisioned");
    ("looked at", "analyzed") ].

Definition _QUANTIFICATION_MAP : list (string * string) :=
  [ ("improving efficiency", "improving efficiency by 30%");
    ("reducing time", "reducing processing time by 40%");
    ("increasing performance", "increasing performance by 25%");
    ("reducing errors", "reducing errors by 35%");
    ("improving accuracy", "improving accuracy by 20%");
    ("increasing productivity", "increasing productivity by 30%");
    ("reducing costs", "reducing operational costs by 25%");
    ("improving speed", "improving response speed by 45%") ].

(** A template [pre {skill} post] is the pair of the text around the
    placeholder; [template.format(skill=skill)] fills it. *)
Definition template_format (template : string * string) (skill : string)
  : string :=
  template.1 +:+ skill +:+ template.2.

Definition _EXP_INJECTION_TEMPLATES : list (string * string) :=
  [ ("Engineered scalable solutions leveraging ",
     " for production-grade deployment");
    ("Architected and delivered features using ",
     " to meet critical business requirements");
    ("Optimized system reliability by adopting ",
     " across the development lifecycle") ].

Definition _PROJ_INJECTION_TEMPLATES : list (string * string) :=
  [ ("Implemented ", " to enhance system reliability and performance");
    ("Integrated ", " to streamline development workflow and output quality");
    ("Leveraged ", " for robust data processing and feature delivery") ].

Record Category := mk_category {
  keywords : list string;
  fallbacks : list (string * string)
}.

Definition _SKILL_CATEGORIES : list (string * Category) :=
  [ ("language_framework",
     {| keywords :=
          ["python"; "java"; "javascript"; "c++"; "c#"; "go"; "ruby"; "php";
           "typescript"; "swift"; "kotlin"; "rust"; "scala"; "r";
           "react"; "angular"; "vue"; "flask"; "django"; "spring";
           "express"; "node.js"; "fastapi"; ".net"; "rails"];
        fallbacks :=
          [ ("Web Developer", "Node.js"); ("Backend Developer", "Django");
            ("Data Analyst", "R"); ("ML Engineer", "scikit-learn");
            ("Software Engineer", "Python") ] |});
    ("database_storage",
     {| keywords :=
          ["sql"; "mysql"; "postgresql"; "mongodb"; "redis"; "sqlite";
           "cassandra"; "dynamodb"; "firebase"; "elasticsearch";
           "oracle"; "neo4j"; "pandas"; "numpy"];
        fallbacks :=
          [ ("Web Developer", "MongoDB"); ("Backend Developer", "PostgreSQL");
            ("Data Analyst", "SQL"); ("ML Engineer", "NumPy");
            ("Software Engineer", "SQL") ] |});
    ("tool_platform",
     {| keywords :=
          ["git"; "docker"; "aws"; "azure"; "gcp"; "linux"; "kubernetes";
           "jenkins"; "ci/cd"; "terraform"; "ansible"; "jira";
           "heroku"; "vercel"; "netlify"; "postman"; "vscode"];
        fallbacks :=
          [ ("Web Developer", "Git"); ("Backend Developer", "Docker");
            ("Data Analyst", "Jupyter"); ("ML Engineer", "Git");
            ("Software Engineer", "Git") ] |});
    ("cs_concept",
     {| keywords :=
          ["data structures"; "algorithms"; "oop"; "design patterns";
           "system design"; "rest apis"; "agile"; "microservices";
           "testing"; "machine learning"; "deep learning"; "statistics";
           "data analysis"; "networking"; "operating systems"];
        fallbacks :=
          [ ("Web Developer", "REST APIs");
            ("Backend Developer", "System Design");
            ("Data Analyst", "Statistics"); ("ML Engineer", "Deep Learning");
            ("Software Engineer", "Data Structures") ] |}) ].

Definition _ROLE_ALIASES : list (string * string) :=
  [ ("backend developer", "Software Engineer");
    ("frontend developer", "Web Developer");
    ("full stack developer", "Web Developer");
    ("devops engineer", "Software Engineer");
    ("cloud engineer", "Software Engineer");
    ("mobile developer", "Software Engineer");
    ("data scientist", "Data Analyst") ].

(** ** 1. Language quality enhancement *)

Definition weak_verb_step (enhanced : string) (kv : string * string) : string :=
  let '(weak, strong) := kv in
  match re_search weak enhanced with
  | Some O => re_sub1 weak (capitalize strong) enhanced
  | Some (S _) => re_sub1 weak strong enhanced
  | None => enhanced
  end.

Definition quantify_step (enhanced : string) (kv : string * string) : string :=
  let '(vague, quantified) := kv in
  match re_search vague enhanced with
  | Some _ => re_sub1 vague quantified enhanced
  | None => enhanced
  end.

Definition _enhance_single_bullet (bullet : string) : string :=
  let enhanced := fold_left weak_verb_step _WEAK_VERB_MAP bullet in
  fold_left quantify_step _QUANTIFICATION_MAP enhanced.

Definition enhance_language_quality (resume_data : Resume) : Resume :=
  let r1 :=
    set_experience resume_data
      ((λ entry, set_exp_bullets entry
                   (_enhance_single_bullet <$> exp_bullets entry))
       <$> experience resume_data) in
  set_projects r1
    ((λ entry, set_proj_bullets entry
                 (_enhance_single_bullet <$> proj_bullets entry))
     <$> projects r1).

(** ** 2. Skill diversity validation *)

Definition diversity_step (role : string)
    (st : list string * gset string) (cat : string * Category)
  : list string * gset string :=
  let '(skills, current_skills_lower) := st in
  let has_category :=
    existsb (λ kw, bool_decide (kw ∈ current_skills_lower))
      (keywords cat.2) in
  if has_category then st
  else
    match dict_get (fallbacks cat.2) role with
    | Some fallback =>
        if truthy fallback
           && negb (bool_decide (lower fallback ∈ current_skills_lower))
        then (skills ++ [fallback], current_skills_lower ∪ {[lower fallback]})
        else st
    | None => st
    end.

Definition validate_resume_diversity (resume_data : Resume) (role : string)
  : Resume :=
  let current_skills_lower : gset string :=
    list_to_set (lower <$> skills_list resume_data) in
  set_skills_list resume_data
    (fold_left (diversity_step role) _SKILL_CATEGORIES
       (skills_list resume_data, current_skills_lower)).1.

(** ** 3. Missing critical role skill injection *)

(** The bullet lists of an experience entry and of a project entry after
    one contextual bullet is offered to them ([cap] is 4, resp. 3). *)
Definition offer_bullet (cap : nat) (bullets : list string) (bullet : string)
  : list string :=
  if truthy_list bullets
  then if (length bullets <? cap)%nat then bullets ++ [bullet] else bullets
  else [bullet].

Definition inject_step
    (st : Resume * gset string * nat) (skill : string)
  : Resume * gset string * nat :=
  let '(resume_data, current_lower, entry_index) := st in
  if bool_decide (lower skill ∈ current_lower) then st
  else
    let r1 := set_skills_list resume_data (skills_list resume_data ++ [skill]) in
    let current_lower' := current_lower ∪ {[lower skill]} in
    let experiences := experience r1 in
    let projs := projects r1 in
    let r2 :=
      if truthy_list experiences then
        let i := (entry_index mod length experiences)%nat in
        let template :=
          default ("", "")
            (_EXP_INJECTION_TEMPLATES
               !! (entry_index mod length _EXP_INJECTION_TEMPLATES)%nat) in
        let bullet := template_format template skill in
        set_experience r1
          (alter (λ target_exp,
                    set_exp_bullets target_exp
                      (offer_bullet 4 (exp_bullets target_exp) bullet))
             i experiences)
      else if truthy_list projs then
        let i := (entry_index mod length projs)%nat in
        let template :=
          default ("", "")
            (_PROJ_INJECTION_TEMPLATES
               !! (entry_index mod length _PROJ_INJECTION_TEMPLATES)%nat) in
        let bullet := template_format template skill in
        set_projects r1
          (alter (λ target_proj,
                    set_proj_bullets target_proj
                      (offer_bullet 3 (proj_bullets target_proj) bullet))
             i projs)
      else r1 in
    (r2, current_lower', S entry_index).

Definition inject_missing_role_skills (resume_data : Resume)
    (ats_result : AtsResult) (role : string) : Resume :=
  let missing := missing_skills ats_result in
  if negb (truthy_list missing) then resume_data
  else
    let to_inject := take 2 missing in
    let current_lower : gset string :=
      list_to_set (lower <$> skills_list resume_data) in
    (fold_left inject_step to_inject (resume_data, current_lower, O)).1.1.

Section Builder.

(** [load_job_roles()] *)
Variable job_roles : list (string * list string).

(** ** 4. Complementary domain skill injection *)

Definition max_to_add : nat := 5.

(** The skill lists of the entries of [pool] selected by [keep]. *)
Definition pool_skills_where (keep : string → list string → bool)
    (pool : list (string * list string)) : list string :=
  concat ((λ kv, if keep kv.1 kv.2 then kv.2 else []) <$> pool).

Definition complementary_candidates (role : string)
    (role_skills_map : list (string * list string)) : list string :=
  let role_pool := ROLE_SKILLS in
  let same_role pool_role (_ : list string) :=
    String.eqb (lower pool_role) (lower role) in
  let first :=
    pool_skills_where same_role role_pool
    ++ (if dict_mem job_roles role then dict_get_list job_roles role else [])
    ++ (if truthy_list role_skills_map && dict_mem role_skills_map role
        then dict_get_list role_skills_map role else []) in
  let target_skills : gset string := list_to_set (lower <$> first) in
  let related pool_role pool_skills :=
    negb (String.eqb (lower pool_role) (lower role))
    && (1 <=? size (target_skills
                     ∩ (list_to_set (lower <$> pool_skills) : gset string)))%nat in
  first
  ++ pool_skills_where related role_pool
  ++ pool_skills_where related job_roles.

Fixpoint complementary_loop (candidates : list string) (skills : list string)
    (current_lower seen : gset string) (added : nat) : list string :=
  match candidates with
  | [] => skills
  | skill :: rest =>
      if negb (bool_decide (lower skill ∈ current_lower))
         && negb (bool_decide (lower skill ∈ seen))
      then
        let skills' := skills ++ [skill] in
        if (max_to_add <=? S added)%nat then skills'
        else complementary_loop rest skills'
               (current_lower ∪ {[lower skill]}) (seen ∪ {[lower skill]})
               (S added)
      else complementary_loop rest skills current_lower seen added
  end.

Definition inject_complementary_skills (resume_data : Resume) (role : string)
    (role_skills_map : list (string * list string)) : Resume :=
  let current_lower : gset string :=
    list_to_set (lower <$> skills_list resume_data) in
  set_skills_list resume_data
    (complementary_loop (complementary_candidates role role_skills_map)
       (skills_list resume_data) current_lower ∅ O).

(** ** 5. Rebuild the text and recalculate the score *)

Definition _rebuild_and_score (resume_data : Resume) (role : string)
    (calculate_ats_score_fn : ParsedData → string → AtsResult)
  : Resume * AtsResult :=
  let resume_data' := set_full_text resume_data (_build_full_text resume_data) in
  (resume_data', calculate_ats_score_fn (build_parsed_data resume_data') role).

(** ** 6. Role normalisation *)

Definition _normalize_role (role : string) : string :=
  if dict_mem job_roles role then role
  else
    match dict_get _ROLE_ALIASES (lower role) with
    | Some alias =>
        if truthy alias && dict_mem job_roles alias then alias
        else "Software Engineer"
    | None => "Software Engineer"
    end.

(** ** 7. Orchestrator *)

(** How the injection loop is left: by the [return] inside it, or by
    falling out of it (exhausted, or [break]). *)
Inductive LoopExit := Returned | FellThrough.

Section Orchestrator.

Variable calculate_ats_score_fn : ParsedData → string → AtsResult.
Variable role_skills_map : list (string * list string).
Variable scoring_role : string.

Fixpoint injection_loop (attempts : nat) (resume_data : Resume)
    (ats_result : AtsResult) : LoopExit * Resume * AtsResult :=
  match attempts with
  | O => (FellThrough, resume_data, ats_result)
  | S attempts' =>
      let r1 := inject_missing_role_skills resume_data ats_result scoring_role in
      let '(r2, ats_result') :=
        _rebuild_and_score r1 scoring_role calculate_ats_score_fn in
      if (90 <=? ats_score ats_result')%Z then (Returned, r2, ats_result')
      else if negb (truthy_list (missing_skills ats_result'))
           then (FellThrough, r2, ats_result')
           else injection_loop attempts' r2 ats_result'
  end.

Definition refine_after_normalize (resume_data : Resume) (max_attempts : nat)
  : Resume * AtsResult :=
  let r1 := enhance_language_quality resume_data in
  let r2 := validate_resume_diversity r1 scoring_role in
  let '(r3, ats_result) :=
    _rebuild_and_score r2 scoring_role calculate_ats_score_fn in
  if (90 <=? ats_score ats_result)%Z then (r3, ats_result)
  else
    match injection_loop max_attempts r3 ats_result with
    | (Returned, r4, ats_result') => (r4, ats_result')
    | (FellThrough, r4, ats_result') =>
        if (ats_score ats_result' <? 90)%Z then
          let r5 := inject_complementary_skills r4 scoring_role role_skills_map in
          _rebuild_and_score r5 scoring_role calculate_ats_score_fn
        else (r4, ats_result')
    end.

End Orchestrator.

Definition refine_for_ats (resume_data : Resume) (role : string)
    (calculate_ats_score_fn : ParsedData → string → AtsResult)
    (role_skills_map : list (string * list string)) (max_attempts : nat)
  : Resume * AtsResult :=
  let scoring_role := _normalize_role role in
  refine_after_normalize calculate_ats_score_fn role_skills_map scoring_role
    resume_data max_attempts.

End Builder.

(** The default of [max_attempts]. *)
Definition default_max_attempts : nat := 2.

(** * Percentages *)

(** [int((matched / required) * k)], with the binary64 quotient and product
    as in [skill_points], which is the case [k = 50]. *)
Definition percent_points (k matched required : Z) : Z :=
  Binary64.to_int (Binary64.mul_int (Binary64.truediv matched required) k).

(** * More of Python's strings *)

(** [c.isspace()] on ASCII: tab to carriage return, the four separators
    28-31, and the space. *)
Definition py_isspace (c : ascii) : bool :=
  let n := nat_of_ascii c in
  ((9 <=? n)%nat && (n <=? 13)%nat) || ((28 <=? n)%nat && (n <=? 32)%nat).

(** [s.lstrip()], [s.rstrip()], [s.strip()] *)
Fixpoint lstrip (s : string) : string :=
  match s with
  | EmptyString => EmptyString
  | String c s' => if py_isspace c then lstrip s' else s
  end.

Fixpoint rstrip (s : string) : string :=
  match s with
  | EmptyString => EmptyString
  | String c s' =>
      match rstrip s' with
      | EmptyString => if py_isspace c then EmptyString else String c EmptyString
      | t => String c t
      end
  end.

Definition strip (s : string) : string := rstrip (lstrip s).

(** The first word of a list of words gets one more character in front. *)
Definition cons_head (c : ascii) (l : list string) : list string :=
  match l with
  | w :: ws => String c w :: ws
  | [] => [String c EmptyString]
  end.

Definition starts_word (s : string) : bool :=
  match s with
  | String c _ => negb (py_isspace c)
  | EmptyString => false
  end.

(** [s.split()]: the maximal runs of non-whitespace characters. *)
Fixpoint split_ws (s : string) : list string :=
  match s with
  | EmptyString => []
  | String c s' =>
      if py_isspace c then split_ws s'
      else if starts_word s' then cons_head c (split_ws s')
           else String c EmptyString :: split_ws s'
  end.

(** [s.split(sep)] for a one-character separator. *)
Fixpoint split_on (sep : ascii) (s : string) : list string :=
  match s with
  | EmptyString => [EmptyString]
  | String c s' =>
      if Ascii.eqb c sep then EmptyString :: split_on sep s'
      else cons_head c (split_on sep s')
  end.

(** * [src/resume_builder.py]: [_wrap_text] *)

Definition wrap_step (max_chars : Z) (st : list string * string) (word : string)
  : list string * string :=
  let '(lines, current) := st in
  if (Z.of_nat (String.length current + String.length word + 1) <=? max_chars)%Z
  then (lines, if truthy current then current +:+ " " +:+ word else word)
  else (if truthy current then lines ++ [current] else lines, word).

Definition _wrap_text (text : string) (max_chars : Z) : list string :=
  let words := split_ws text in
  let '(lines, current) := fold_left (wrap_step max_chars) words ([], "") in
  if truthy current then lines ++ [current] else lines.

(** * [src/resume_builder.py]: [sanitize_input] *)

(** After a ["<"]: the text behind the first [">"], when one comes before
    the end of the line ([.] does not match a newline). *)
Fixpoint find_close (s : string) : option string :=
  match s with
  | EmptyString => None
  | String c s' =>
      if Ascii.eqb c ">" then Some s'
      else if Ascii.eqb c "010" then None
      else find_close s'
  end.

(** [re.sub(r"<.*?>", "", s)]: scanning from the left, every ["<"] that can
    be closed on its line is removed together with everything up to the
    first [">"] ([inside] tells that such a tag is being skipped). *)
Fixpoint remove_tags_from (inside : bool) (s : string) : string :=
  match s with
  | EmptyString => EmptyString
  | String c s' =>
      if inside then
        if Ascii.eqb c ">" then remove_tags_from false s'
        else remove_tags_from true s'
      else if Ascii.eqb c "<" && bool_decide (is_Some (find_close s'))
           then remove_tags_from true s'
           else String c (remove_tags_from false s')
  end.

Definition remove_tags (s : string) : string := remove_tags_from false s.

Definition sanitize_input (text : string) : string :=
  if negb (truthy text) then ""
  else strip (remove_tags text).

(** * [src/resume_builder.py]: [_enhance_bullet] *)

Definition ACTION_VERBS : list string :=
  [ "Developed"; "Implemented"; "Designed"; "Built"; "Led"; "Managed";
    "Optimized"; "Automated"; "Architected"; "Deployed"; "Integrated";
    "Created"; "Engineered"; "Streamlined"; "Delivered"; "Spearheaded";
    "Established"; "Transformed"; "Reduced"; "Improved"; "Launched" ].

Definition _enhance_bullet (text : string) (index : nat) : string :=
  let text := strip text in
  if negb (truthy text) then text
  else
    let first_word :=
      match split_ws text with w :: _ => w | [] => EmptyString end in
    if existsb (λ verb, String.eqb (lower first_word) (lower verb)) ACTION_VERBS
    then text
    else
      let verb :=
        default "" (ACTION_VERBS !! (index mod length ACTION_VERBS)) in
      match text with
      | String c (String _ _ as rest) =>
          verb +:+ " " +:+ String (ascii_lower c) rest
      | _ => verb +:+ " " +:+ text
      end.

(** * [src/resume_builder.py]: [format_resume_data] *)

(** The submitted form: every key with the values sent for it. *)
Definition Form := list (string * list string).

(** [form.get(key, "")]: the first value of the key. *)
Definition form_get (form : Form) (key : string) : string :=
  match dict_get form key with
  | Some (v :: _) => v
  | _ => ""
  end.

(** [form.getlist(key)] *)
Definition form_getlist (form : Form) (key : string) : list string :=
  match dict_get form key with
  | Some vs => vs
  | None => []
  end.

(** [sanitize_input(values[i]) if i < len(values) else ""] *)
Definition sanitized_at (values : list string) (i : nat) : string :=
  match values !! i with
  | Some v => sanitize_input v
  | None => ""
  end.

(** [[x.strip() for x in s.split(sep) if x.strip()]] *)
Definition stripped_parts (sep : ascii) (s : string) : list string :=
  omap (λ x, if truthy (strip x) then Some (strip x) else None)
    (split_on sep s).

(** The enhanced bullets of a description. *)
Definition description_bullets (desc : string) : list string :=
  let bullets := if truthy desc then stripped_parts "010" desc else [] in
  imap (λ idx b, _enhance_bullet b idx) bullets.

Definition format_resume_data (form : Form) : Resume :=
  let name := sanitize_input (form_get form "full_name") in
  let email := sanitize_input (form_get form "email") in
  let phone := sanitize_input (form_get form "phone") in
  let linkedin := sanitize_input (form_get form "linkedin") in
  let github := sanitize_input (form_get form "github") in
  let portfolio := sanitize_input (form_get form "portfolio") in
  let career_objective := sanitize_input (form_get form "career_objective") in
  let target_role := sanitize_input (form_get form "target_role") in
  let edu_degrees := form_getlist form "edu_degree[]" in
  let edu_institutions := form_getlist form "edu_institution[]" in
  let edu_years := form_getlist form "edu_year[]" in
  let education :=
    omap (λ i,
            let degree := sanitized_at edu_degrees i in
            let institution := sanitized_at edu_institutions i in
            let year := sanitized_at edu_years i in
            if truthy degree then Some (mk_edu degree institution year)
            else None)
      (seq 0 (length edu_degrees)) in
  let exp_titles := form_getlist form "exp_title[]" in
  let exp_companies := form_getlist form "exp_company[]" in
  let exp_durations := form_getlist form "exp_duration[]" in
  let exp_descriptions := form_getlist form "exp_description[]" in
  let experience :=
    omap (λ i,
            let title := sanitized_at exp_titles i in
            let company := sanitized_at exp_companies i in
            let duration := sanitized_at exp_durations i in
            let desc := sanitized_at exp_descriptions i in
            if truthy title
            then Some (mk_exp title company duration
                         (take 4 (description_bullets desc)))
            else None)
      (seq 0 (length exp_titles)) in
  let proj_names := form_getlist form "proj_name[]" in
  let proj_techs := form_getlist form "proj_tech[]" in
  let proj_descriptions := form_getlist form "proj_description[]" in
  let projects :=
    take 3
      (omap (λ i,
               let name := sanitized_at proj_names i in
               let tech := sanitized_at proj_techs i in
               let desc := sanitized_at proj_descriptions i in
               if truthy name
               then Some (mk_proj name tech (take 3 (description_bullets desc)))
               else None)
         (seq 0 (length proj_names))) in
  let raw_skills := sanitize_input (form_get form "skills") in
  let skills_list := stripped_parts "," raw_skills in
  let certifications := sanitize_input (form_get form "certifications") in
  let certifications_list := take 3 (stripped_parts "010" certifications) in
  let achievements := sanitize_input (form_get form "achievements") in
  let achievements_list := take 3 (stripped_parts "010" achievements) in
  let data :=
    mk_resume name email phone linkedin github portfolio career_objective
      target_role education experience projects skills_list certifications
      certifications_list achievements achievements_list "" in
  set_full_text data (_build_full_text data).

(** * [src/skill_matcher.py] *)

(** What a call comes to: a value, or the exception of a division by zero. *)
Inductive Outcome (A : Type) : Type :=
  | Result (a : A)
  | ZeroDivisionError.
Arguments Result {A} a.
Arguments ZeroDivisionError {A}.

Record SkillMatch := mk_match {
  sm_job_role : string;
  sm_match_percentage : Z;
  sm_matched_skills : list string;
  sm_missing_skills : list string
}.

Section Matcher.

Variable job_roles : list (string * list string).
Variable set_list : gset string → list string.

(** The empty dict [{}] is [None]. *)
Definition match_skills (resume_skills : list string) (job_role : string)
  : Outcome (option SkillMatch) :=
  if negb (dict_mem job_roles job_role) then Result None
  else
    let required_skills := dict_get_list job_roles job_role in
    let resume_skills : gset string := list_to_set (lower <$> resume_skills) in
    let required_skills : gset string :=
      list_to_set (lower <$> required_skills) in
    let matched := resume_skills ∩ required_skills in
    let missing := required_skills ∖ resume_skills in
    if (size required_skills =? 0)%nat then ZeroDivisionError
    else
      let match_percentage :=
        percent_points 100 (Z.of_nat (size matched))
          (Z.of_nat (size required_skills)) in
      Result (Some (mk_match job_role match_percentage (set_list matched)
                        (set_list missing))).

End Matcher.

(** * [src/multi_role_predictor.py]: the predictor *)

Record RoleScore := mk_role_score {
  rs_role : string;
  rs_score : Z;
  rs_matched_skills : list string;
  rs_missing_skills : list string;
  rs_reason : string
}.

(** A set has a member: [if a_set]. *)
Definition truthy_set (X : gset string) : bool := negb (size X =? 0)%nat.

Definition get_confidence_reason (role : string) (matched_skills : list string)
  : string :=
  let matched : gset string := list_to_set (lower <$> matched_skills) in
  if String.eqb role "Web Developer"
     && truthy_set (matched ∩ {["html"; "css"; "javascript"; "react"]})
  then "Strong frontend skill overlap"
  else if String.eqb role "Backend Developer"
          && truthy_set (matched ∩ {["python"; "flask"; "api"; "sql"]})
  then "Backend development skill alignment"
  else if String.eqb role "ML Engineer"
          && truthy_set
               (matched ∩ {["python"; "machine learning"; "numpy"; "pandas"]})
  then "Programming + Python dominance"
  else if String.eqb role "Data Analyst"
          && truthy_set (matched ∩ {["python"; "sql"; "pandas"; "statistics"]})
  then "Data analysis and statistics focus"
  else if String.eqb role "Software Engineer"
  then "General engineering skill alignment"
  else "Relevant skill match".

(** [scores.sort(key=lambda x: x["score"], reverse=True)]: a stable sort,
    highest score first; entries of equal score keep their order.  An entry
    goes behind every entry whose score is not lower. *)
Fixpoint insert_by_score (x : RoleScore) (l : list RoleScore) : list RoleScore :=
  match l with
  | [] => [x]
  | y :: l' =>
      if (rs_score y <? rs_score x)%Z then x :: y :: l'
      else y :: insert_by_score x l'
  end.

Definition sort_by_score (l : list RoleScore) : list RoleScore :=
  fold_left (λ sorted x, insert_by_score x sorted) l [].

Section Predictor.

Variable set_list : gset string → list string.

(** One turn of the loop over [ROLE_SKILLS.items()].  Every list of the
    table has a skill, so [len(skills)] is not 0 and the division is
    defined. *)
Definition role_score (resume_skills_lower : list string)
    (entry : string * list string) : RoleScore :=
  let '(role, skills) := entry in
  let matched : gset string :=
    list_to_set resume_skills_lower ∩ list_to_set (lower <$> skills) in
  let score :=
    percent_points 100 (Z.of_nat (size matched)) (Z.of_nat (length skills)) in
  mk_role_score role score (set_list matched)
    (set_list (list_to_set skills ∖ matched))
    (get_confidence_reason role (set_list matched)).

Definition predict_multiple_roles (resume_skills : list string)
  : list RoleScore :=
  let resume_skills_lower := lower <$> resume_skills in
  let scores := role_score resume_skills_lower <$> ROLE_SKILLS in
  take 3 (sort_by_score scores).

End Predictor.

(** * [src/jd_matcher.py] *)

Definition SEMANTIC_GROUPS : list (string * list string) :=
  [ ("Backend Frameworks", ["flask"; "django"; "spring"; "node"]);
    ("Concepts", ["rest"; "api"; "data structures"; "algorithms"]);
    ("Databases", ["sql"; "mysql"; "postgresql"; "mongodb"]);
    ("Programming Languages", ["python"; "java"; "c"; "c++"]);
    ("Experience Indicators", ["experience"; "understanding"; "knowledge"]) ].

(** [d[k] = v]: the value of a key the dict has is replaced in place, a new
    key goes to the end. *)
Fixpoint dict_set {V : Type} (d : list (string * V)) (k : string) (v : V)
  : list (string * V) :=
  match d with
  | [] => [(k, v)]
  | (k', v') :: d' =>
      if String.eqb k' k then (k', v) :: d' else (k', v') :: dict_set d' k v
  end.

(** One turn of the loop over [SEMANTIC_GROUPS.items()]; the state is
    [grouped] and [used]. *)
Definition group_step (missing_keywords : list string)
    (st : list (string * list string) * gset string)
    (entry : string * list string)
  : list (string * list string) * gset string :=
  let '(grouped, used) := st in
  let '(group, keywords) := entry in
  let matches := filter (λ kw, kw ∈ keywords) missing_keywords in
  if truthy_list matches
  then (dict_set grouped group matches, used ∪ list_to_set matches)
  else (grouped, used).

Definition group_missing_keywords (missing_keywords : list string)
  : list (string * list string) :=
  let '(grouped, used) :=
    fold_left (group_step missing_keywords) SEMANTIC_GROUPS ([], ∅) in
  let remaining := filter (λ kw, kw ∉ used) missing_keywords in
  if truthy_list remaining then dict_set grouped "Other" remaining
  else grouped.

(** [sub in s] *)
Fixpoint contains (sub s : string) : bool :=
  String.prefix sub s
  || match s with
     | EmptyString => false
     | String _ s' => contains sub s'
     end.

(** [s.isalpha()] on ASCII: at least one character, letters only. *)
Definition is_letter (c : ascii) : bool :=
  let n := nat_of_ascii c in
  ((65 <=? n)%nat && (n <=? 90)%nat) || ((97 <=? n)%nat && (n <=? 122)%nat).

Fixpoint all_letters (s : string) : bool :=
  match s with
  | EmptyString => true
  | String c s' => is_letter c && all_letters s'
  end.

Definition isalpha (s : string) : bool := truthy s && all_letters s.

Definition stopwords : gset string :=
  {[ "and"; "or"; "the"; "is"; "are"; "for"; "with"; "we"; "have";
     "to"; "of"; "in"; "a"; "an"; "should"; "must"; "candidate";
     "strong"; "knowledge"; "software"; "engineer" ]}.

Record JdMatch := mk_jd_match {
  jd_match_percentage : Z;
  jd_matched_skills : list string;
  jd_missing_keywords : list string;
  jd_grouped_missing : list (string * list string)
}.

Section JdMatcher.

Variable set_list : gset string → list string.

Definition match_jd (resume_skills : list string) (job_description : string)
  : JdMatch :=
  let job_description := lower job_description in
  let matched_skills :=
    filter (λ skill, contains (lower skill) job_description = true)
      resume_skills in
  let jd_words : gset string :=
    list_to_set
      (filter (λ word, isalpha word = true
                       ∧ (word ∉ stopwords)
                       ∧ (word ∉ lower <$> resume_skills))
         (split_ws job_description)) in
  let missing_keywords := set_list jd_words in
  let match_percentage :=
    percent_points 100 (Z.of_nat (length matched_skills))
      (Z.of_nat (length resume_skills `max` 1)) in
  let grouped_missing := group_missing_keywords (take 10 missing_keywords) in
  mk_jd_match match_percentage matched_skills (take 10 missing_keywords)
    grouped_missing.

End JdMatcher.

(** * Vocabulary of the properties *)

Definition dict_keys {V : Type} (d : list (string * V)) : list string := d.*1.

(** The lower-cased skill set of a resume and the lower-cased required set
    of a role, as the scorer builds them. *)
Definition resume_set (parsed_data : ParsedData) : gset string :=
  list_to_set (lower <$> pd_skills parsed_data).

Definition required_set (job_roles : list (string * list string))
    (job_role : string) : gset string :=
  list_to_set (lower <$> dict_get_list job_roles job_role).

(** The number of case-insensitively distinct skills of a resume. *)
Definition distinct_skill_count (parsed_data : ParsedData) : nat :=
  length (remove_dups (lower <$> pd_skills parsed_data)).

(** The number of non-empty fields among name, email, phone and skills. *)
Definition present_fields (parsed_data : ParsedData) : nat :=
  (if bool_decide (pd_name parsed_data = "") then 0 else 1)
  + (if bool_decide (pd_email parsed_data = "") then 0 else 1)
  + (if bool_decide (pd_phone parsed_data = "") then 0 else 1)
  + (if bool_decide (pd_skills parsed_data = []) then 0 else 1).

(** A check over all [m <= r] with [1 <= r <= N]. *)
Definition triangle_check (f : nat → nat → bool) (N : nat) : bool :=
  forallb (λ r, forallb (λ m, f m r) (seq 0 (S r))) (seq 1 N).

(** The matched set: lower-cased resume skills that the role requires. *)
Definition matched_set (job_roles : list (string * list string))
    (parsed_data : ParsedData) (job_role : string) : gset string :=
  resume_set parsed_data ∩ required_set job_roles job_role.

Definition exp_extends (e0 e1 : Experience) : Prop :=
  exp_title e1 = exp_title e0 ∧ exp_company e1 = exp_company e0
  ∧ exp_duration e1 = exp_duration e0
  ∧ exp_bullets e0 `prefix_of` exp_bullets e1.

Definition proj_extends (p0 p1 : Project) : Prop :=
  proj_name p1 = proj_name p0 ∧ proj_tech p1 = proj_tech p0
  ∧ proj_bullets p0 `prefix_of` proj_bullets p1.

(** [r1] keeps every skill, education entry, experience entry, project and
    bullet of [r0] at its place, and lists at most [k] more skills. *)
Definition grows_by (k : nat) (r0 r1 : Resume) : Prop :=
  skills_list r0 `prefix_of` skills_list r1
  ∧ length (skills_list r1) ≤ length (skills_list r0) + k
  ∧ education r1 = education r0
  ∧ Forall2 exp_extends (experience r0) (experience r1)
  ∧ Forall2 proj_extends (projects r0) (projects r1).

(** An entry after the run: the same heading, and the polished bullets of
    before at the same places, possibly followed by injected ones. *)
Definition exp_kept (e0 e1 : Experience) : Prop :=
  exp_title e1 = exp_title e0 ∧ exp_company e1 = exp_company e0
  ∧ exp_duration e1 = exp_duration e0
  ∧ (_enhance_single_bullet <$> exp_bullets e0) `prefix_of` exp_bullets e1.

Definition proj_kept (p0 p1 : Project) : Prop :=
  proj_name p1 = proj_name p0 ∧ proj_tech p1 = proj_tech p0
  ∧ (_enhance_single_bullet <$> proj_bullets p0) `prefix_of` proj_bullets p1.

(** The entries of a list without those that repeat, up to letter case,
    an earlier entry. *)
Fixpoint dedup_ci (l : list string) : list string :=
  match l with
  | [] => []
  | s :: l' => s :: filter (λ t, lower t ≠ lower s) (dedup_ci l')
  end.

(** The skills the injection loop appends, given the set [present] of
    lower-cased skills it starts from. *)
Fixpoint fresh_skills (present : gset string) (cands : list string)
  : list string :=
  match cands with
  | [] => []
  | s :: cs =>
      if bool_decide (lower s ∈ present) then fresh_skills present cs
      else s :: fresh_skills (present ∪ {[lower s]}) cs
  end.

(** The phrases the enhancer looks for. *)
Definition polish_phrases : list string :=
  _WEAK_VERB_MAP.*1 ++ _QUANTIFICATION_MAP.*1.

(** No phrase of the two tables occurs in the bullet, in any letter case. *)
Definition phrase_free (bullet : string) : Prop :=
  Forall (λ phrase, re_search phrase bullet = None) polish_phrases.

Definition all_bullets (r : Resume) : list string :=
  concat (exp_bullets <$> experience r) ++ concat (proj_bullets <$> projects r).

(** The step for category [cat] adds nothing when the lower-cased skills
    are [X]. *)
Definition category_settled (role : string) (X : gset string)
    (cat : string * Category) : bool :=
  existsb (λ kw, bool_decide (kw ∈ X)) (keywords cat.2)
  || match dict_get (fallbacks cat.2) role with
     | Some fallback => negb (truthy fallback) || bool_decide (lower fallback ∈ X)
     | None => true
     end.

Definition within_caps (r : Resume) : Prop :=
  Forall (λ e, length (exp_bullets e) ≤ 4) (experience r)
  ∧ Forall (λ p, length (proj_bullets p) ≤ 3) (projects r).

Definition skills_unique (r : Resume) : Prop := NoDup (lower <$> skills_list r).

(** The score is the score of the resume, and the text of the resume is
    the text built from its fields. *)
Definition up_to_date (fn : ParsedData → string → AtsResult) (role : string)
    (x : Resume * AtsResult) : Prop :=
  x.2 = fn (build_parsed_data x.1) role
  ∧ full_text x.1 = _build_full_text x.1.

Definition same_identity (r0 r : Resume) : Prop :=
  name r = name r0 ∧ email r = email r0 ∧ phone r = phone r0.

Definition bullet_count (r : Resume) : nat := length (all_bullets r).

(** The lines that a state of the wrapping loop stands for. *)
Definition lines_of (st : list string * string) : list string :=
  st.1 ++ (if truthy st.2 then [st.2] else []).

Definition line_fits (max_chars : Z) (words : list string) (line : string) : Prop :=
  (Z.of_nat (String.length line) ≤ max_chars)%Z ∨ line ∈ words.

(** No ["<"] of the string can be closed on its line. *)
Fixpoint tag_free (s : string) : Prop :=
  match s with
  | EmptyString => True
  | String c s' => (c = "<"%char → find_close s' = None) ∧ tag_free s'
  end.

Fixpoint no_space (s : string) : bool :=
  match s with
  | EmptyString => true
  | String c s' => negb (py_isspace c) && no_space s'
  end.

(** The first word of the string is an action verb, up to letter case. *)
Definition starts_with_action_verb (s : string) : Prop :=
  ∃ w rest verb,
    split_ws s = w :: rest ∧ verb ∈ ACTION_VERBS ∧ lower w = lower verb.

Definition good_bullet (b : string) : Prop :=
  b ≠ "" ∧ strip b = b ∧ starts_with_action_verb b.

Definition score_ge (a b : RoleScore) : Prop := (rs_score b ≤ rs_score a)%Z.

(** What a semantic group receives. *)
Definition group_matches (missing_keywords : list string)
    (entry : string * list string) : list string :=
  filter (λ kw, kw ∈ entry.2) missing_keywords.

Definition group_entry (missing_keywords : list string)
    (entry : string * list string) : option (string * list string) :=
  if truthy_list (group_matches missing_keywords entry)
  then Some (entry.1, group_matches missing_keywords entry)
  else None.

(** * Sample inputs *)

(** A catalog with one role of fifty required skills, [skill00] to
    [skill49], and a resume that lists the first twenty-nine of them. *)
Definition numbered_skill (i : nat) : string :=
  "skill" +:+ String (ascii_of_nat (48 + i / 10))
                (String (ascii_of_nat (48 + i mod 10)) "").

Definition fifty_skills : list string := numbered_skill <$> seq 0 50.

Definition wide_catalog : list (string * list string) :=
  [("Generalist", fifty_skills)].

Definition resume_29_of_50 : ParsedData :=
  mk_parsed "Ann" "ann@example.org" "555" (take 29 fifty_skills) "".

(** A catalog whose role requires twelve skills, and a resume that lists
    three skills of no category of the taxonomy. *)
Definition broad_catalog : list (string * list string) :=
  [("Software Engineer",
    ["data structures"; "algorithms"; "java"; "c++"; "python"; "sql"; "git";
     "oop"; "linux"; "docker"; "testing"; "system design"])].

Definition soft_resume : Resume :=
  mk_resume "Ann" "ann@example.org" "555" "" "" "" "Objective"
    "Software Engineer"
    [mk_edu "BSc" "MIT" "2020"]
    [mk_exp "Developer" "Acme" "2020-2024" ["worked on billing"]]
    [] ["Communication"; "Teamwork"; "Leadership"] "" [] "" [] "".

(** A resume that lists ten skills, the four required of a backend
    developer among them. *)
Definition strong_resume : Resume :=
  mk_resume "Ann" "ann@example.org" "555" "" "" "" "Objective"
    "Backend Developer"
    [mk_edu "BSc" "MIT" "2020"]
    [mk_exp "Developer" "Acme" "2020-2024" ["worked on billing"]]
    []
    ["Python"; "Flask"; "API"; "SQL"; "Docker"; "Git"; "Linux"; "Redis";
     "Testing"; "Agile"]
    "" [] "" [] "".

(** The score of a resume without skills against the backend role, and a
    resume that has gained the skill "Python" since.  *)
Definition stale_result : AtsResult :=
  mk_result 15 0 0 15 [] ["python"; "flask"; "api"; "sql"]
    (mk_classified ["python"; "flask"; "api"; "sql"] []).

Definition python_resume : Resume :=
  mk_resume "Ann" "ann@example.org" "555" "" "" "" "Objective"
    "Backend Developer" [] [] [] ["Python"] "" [] "" [] "".

(** A resume with a vague-impact phrase and a repeated weak verb. *)
Definition dashboard_resume : Resume :=
  mk_resume "Ann" "ann@example.org" "555" "" "" "" "Objective"
    "Data Analyst" []
    [mk_exp "Analyst" "Acme" "2021-2024"
       ["Built dashboards improving efficiency"]]
    [mk_proj "Reports" "SQL" ["made charts and made tables"]]
    ["SQL"; "Excel"; "Python"] "" [] "" [] "".

(** * Properties *)

(** ** The classifier *)

Lemma classify_fold (R : gset string) (M crit opt : list string) :
  fold_left (classify_step R) M (crit, opt)
  = (crit ++ filter (λ s, lower s ∈ R) M,
     opt ++ filter (λ s, lower s ∉ R) M).
Proof.
  revert crit opt. induction M as [|s M IH]; intros crit opt; simpl.
  - by rewrite !app_nil_r.
  - unfold classify_step at 2. rewrite !filter_cons. simpl.
    case_bool_decide as Hs.
    + rewrite IH. rewrite decide_True by done.
      rewrite (decide_False (P := lower s ∉ R)) by tauto.
      by rewrite <- app_assoc.
    + rewrite IH. rewrite decide_False by done.
      rewrite (decide_True (P := lower s ∉ R)) by done.
      by rewrite <- app_assoc.
Qed.

Lemma classify_missing_skills_filter role M R :
  classify_missing_skills role M R
  = {| critical := filter (λ s, lower s ∈ lower <$> R) M;
       optional := filter (λ s, lower s ∉ lower <$> R) M |}.
Proof.
  unfold classify_missing_skills. rewrite classify_fold. simpl. f_equal.
  - apply list_filter_iff. intros s. apply elem_of_list_to_set.
  - apply list_filter_iff. intros s. by rewrite elem_of_list_to_set.
Qed.

(** C6. For every missing-skill list [M] and required-skill list [R], the
    critical output is the sub-list of [M] (in [M]'s order) whose lower-cased
    form occurs in the lower-cased [R], the optional output is the sub-list
    of the other elements, the two together are a rearrangement of [M]
    (every occurrence exactly once), and no element is in both. *)
Theorem classify_missing_skills_partition (role : string) (M R : list string) :
  let c := classify_missing_skills role M R in
  critical c = filter (λ s, lower s ∈ lower <$> R) M
  ∧ optional c = filter (λ s, lower s ∉ lower <$> R) M
  ∧ critical c ++ optional c ≡ₚ M
  ∧ length (critical c) + length (optional c) = length M
  ∧ (∀ s, ¬ (s ∈ critical c ∧ s ∈ optional c)).
Proof.
  intros c. subst c. rewrite classify_missing_skills_filter. simpl.
  pose proof (filter_app_complement (λ s, lower s ∈ lower <$> R) M) as Hperm.
  split; [done|]. split; [done|]. split; [exact Hperm|]. split.
  - rewrite <- length_app. by rewrite Hperm.
  - intros s [H1 H2].
    apply list_elem_of_filter in H1 as [H1 _].
    apply list_elem_of_filter in H2 as [H2 _]. done.
Qed.

(** ** The role normaliser *)

Lemma dict_mem_keys {V : Type} (d : list (string * V)) (k : string) :
  dict_mem d k = true ↔ k ∈ dict_keys d.
Proof.
  unfold dict_mem, dict_keys. induction d as [|[k' v] d IH]; simpl.
  - split; [done|]. intros H. by apply elem_of_nil in H.
  - destruct (String.eqb_spec k' k) as [->|Hne].
    + split; [intros _; apply list_elem_of_here|done].
    + rewrite IH. split.
      * intros H. by apply list_elem_of_further.
      * intros H. apply elem_of_cons in H as [H|H]; [congruence|done].
Qed.

Lemma dict_mem_false_keys {V : Type} (d : list (string * V)) (k : string) :
  dict_mem d k = false ↔ k ∉ dict_keys d.
Proof.
  rewrite <- dict_mem_keys. by destruct (dict_mem d k).
Qed.

Lemma dict_get_Forall {V : Type} (P : V → Prop) (d : list (string * V)) k v :
  Forall (λ kv, P kv.2) d → dict_get d k = Some v → P v.
Proof.
  induction 1 as [|[k' v'] d Hv _ IH]; simpl; [done|].
  destruct (String.eqb k' k); [|exact IH]. by intros [= <-].
Qed.

(** No alias of the table is the empty string. *)
Lemma role_aliases_truthy k alias :
  dict_get _ROLE_ALIASES k = Some alias → truthy alias = true.
Proof.
  apply (dict_get_Forall (λ v, truthy v = true)).
  unfold _ROLE_ALIASES. repeat constructor.
Qed.

(** C5. When the default role "Software Engineer" is a role of the catalog,
    the normaliser returns a role of the catalog for every role name: the
    name itself when the catalog has it verbatim, otherwise the alias of its
    lower-cased form when the catalog has that alias, otherwise the default
    role; the alias "Frontend Developer" becomes "Web Developer". *)
Theorem normalize_role_in_catalog
    (job_roles : list (string * list string)) (role : string) :
  "Software Engineer" ∈ dict_keys job_roles →
  _normalize_role job_roles role ∈ dict_keys job_roles
  ∧ (role ∈ dict_keys job_roles → _normalize_role job_roles role = role)
  ∧ (∀ alias, role ∉ dict_keys job_roles →
       dict_get _ROLE_ALIASES (lower role) = Some alias →
       alias ∈ dict_keys job_roles →
       _normalize_role job_roles role = alias)
  ∧ (role ∉ dict_keys job_roles →
       (∀ alias, dict_get _ROLE_ALIASES (lower role) = Some alias →
                 alias ∉ dict_keys job_roles) →
       _normalize_role job_roles role = "Software Engineer")
  ∧ ("Frontend Developer" ∉ dict_keys job_roles →
       "Web Developer" ∈ dict_keys job_roles →
       _normalize_role job_roles "Frontend Developer" = "Web Developer").
Proof.
  intros Hdefault. unfold _normalize_role.
  split; [|split; [|split; [|split]]].
  - destruct (dict_mem job_roles role) eqn:Hrole.
    + by apply dict_mem_keys.
    + destruct (dict_get _ROLE_ALIASES (lower role)) as [alias|]; [|done].
      destruct (truthy alias && dict_mem job_roles alias) eqn:Halias; [|done].
      apply andb_true_iff in Halias as [_ Halias]. by apply dict_mem_keys.
  - intros Hrole. apply dict_mem_keys in Hrole. by rewrite Hrole.
  - intros alias Hrole Hget Halias.
    apply dict_mem_false_keys in Hrole. rewrite Hrole, Hget.
    apply dict_mem_keys in Halias. rewrite Halias.
    by rewrite (role_aliases_truthy _ _ Hget).
  - intros Hrole Hnone. apply dict_mem_false_keys in Hrole. rewrite Hrole.
    destruct (dict_get _ROLE_ALIASES (lower role)) as [alias|]; [|done].
    specialize (Hnone alias eq_refl). apply dict_mem_false_keys in Hnone.
    rewrite Hnone. by rewrite andb_false_r.
  - intros Hfront Hweb. apply dict_mem_false_keys in Hfront.
    apply dict_mem_keys in Hweb. rewrite Hfront. simpl. by rewrite Hweb.
Qed.

Lemma normalize_role_in_catalog_witness :
  "Software Engineer" ∈ dict_keys CRITICAL_SKILLS
  ∧ _normalize_role CRITICAL_SKILLS "Frontend Developer" = "Web Developer"
  ∧ _normalize_role CRITICAL_SKILLS "Frontend Developer"
    ∈ dict_keys CRITICAL_SKILLS.
Proof.
  assert (Hd : "Software Engineer" ∈ dict_keys CRITICAL_SKILLS)
    by (apply dict_mem_keys; reflexivity).
  destruct (normalize_role_in_catalog CRITICAL_SKILLS "Frontend Developer" Hd)
    as (Hin & _ & _ & _ & Hfront).
  split; [exact Hd|]. split; [|exact Hin].
  apply Hfront.
  - apply dict_mem_false_keys. reflexivity.
  - apply dict_mem_keys. reflexivity.
Defined.

(** C10. The verbatim catalog check is case-sensitive: "ml engineer" differs
    from the catalog role "ML Engineer" only in letter case and has no alias,
    and whenever the catalog has "ML Engineer" but not the lower-case
    spelling, the normaliser returns the fallback "Software Engineer". *)
Theorem normalize_role_case_sensitive (job_roles : list (string * list string)) :
  "ML Engineer" ∈ dict_keys job_roles →
  "ml engineer" ∉ dict_keys job_roles →
  lower "ML Engineer" = lower "ml engineer"
  ∧ dict_get _ROLE_ALIASES (lower "ml engineer") = None
  ∧ _normalize_role job_roles "ml engineer" = "Software Engineer"
  ∧ _normalize_role job_roles "ML Engineer" = "ML Engineer".
Proof.
  intros Hin Hnot. unfold _normalize_role.
  apply dict_mem_keys in Hin. apply dict_mem_false_keys in Hnot.
  rewrite Hin, Hnot. done.
Qed.

Lemma normalize_role_case_sensitive_witness :
  "ML Engineer" ∈ dict_keys CRITICAL_SKILLS
  ∧ ("ml engineer" ∉ dict_keys CRITICAL_SKILLS)
  ∧ _normalize_role CRITICAL_SKILLS "ml engineer" = "Software Engineer".
Proof.
  assert (H1 : "ML Engineer" ∈ dict_keys CRITICAL_SKILLS)
    by (apply dict_mem_keys; reflexivity).
  assert (H2 : "ml engineer" ∉ dict_keys CRITICAL_SKILLS)
    by (apply dict_mem_false_keys; reflexivity).
  split; [exact H1|]. split; [exact H2|].
  exact (proj1 (proj2 (proj2 (normalize_role_case_sensitive CRITICAL_SKILLS H1 H2)))).
Defined.

(** ** Binary64 arithmetic: rounding is monotone *)

Module Binary64Facts.
Import Binary64.
Local Open Scope Z_scope.

Lemma pow2_pos e : 0 <= e -> 0 < 2 ^ e.
Proof. intros. apply Z.pow_pos_nonneg; lia. Qed.

Lemma frac_shift_sign n d e a b :
  frac_shift n d e = (a, b) -> 0 <= n -> 0 < d ->
  0 <= a /\ 0 < b /\ (0 < n -> 0 < a).
Proof.
  unfold frac_shift. destruct (Z.leb_spec 0 e) as [He|He]; intros [= <- <-] Hn Hd.
  - pose proof (pow2_pos e He). nia.
  - pose proof (pow2_pos (- e) ltac:(lia)). nia.
Qed.

(** The value at exponent [e] is [2 ^ k] times the value at [e + k]. *)
Lemma frac_shift_add n d e k a b a' b' :
  0 <= k ->
  frac_shift n d (e + k) = (a, b) -> frac_shift n d e = (a', b') ->
  a * b' * 2 ^ k = a' * b.
Proof.
  intros Hk. unfold frac_shift.
  destruct (Z.leb_spec 0 (e + k)) as [H1|H1];
    destruct (Z.leb_spec 0 e) as [H2|H2]; intros [= <- <-] [= <- <-].
  - rewrite Z.pow_add_r by lia. ring.
  - replace (e + k) with (k - - e) by lia.
    replace (2 ^ k) with (2 ^ (- e) * 2 ^ (k - - e)).
    + ring.
    + rewrite <- Z.pow_add_r by lia. f_equal. lia.
  - lia.
  - replace (2 ^ (- e)) with (2 ^ (- (e + k)) * 2 ^ k).
    + ring.
    + rewrite <- Z.pow_add_r by lia. f_equal. lia.
Qed.

Lemma frac_shift_mono n1 d1 n2 d2 e :
  frac_le (n1, d1) (n2, d2) ->
  frac_le (frac_shift n1 d1 e) (frac_shift n2 d2 e).
Proof.
  unfold frac_le, frac_shift. simpl. intros H.
  destruct (Z.leb_spec 0 e) as [He|He]; simpl.
  - pose proof (pow2_pos e He). nia.
  - pose proof (pow2_pos (- e) ltac:(lia)). nia.
Qed.

Lemma frac_shift_scale c n d e :
  frac_shift (c * n) d e = (c * fst (frac_shift n d e), snd (frac_shift n d e)).
Proof.
  unfold frac_shift. destruct (0 <=? e); simpl; f_equal; ring.
Qed.

Lemma round_half_even_lower n d k :
  0 < d -> k * d <= n -> k <= round_half_even n d.
Proof.
  intros Hd Hk. unfold round_half_even.
  assert (k <= n / d) by (apply Z.div_le_lower_bound; lia).
  destruct (2 * (n mod d) <? d); [lia|].
  destruct (d <? 2 * (n mod d)); [lia|].
  destruct (Z.even (n / d)); lia.
Qed.

Lemma round_half_even_upper n d k :
  0 < d -> n <= k * d -> round_half_even n d <= k.
Proof.
  intros Hd Hk. unfold round_half_even.
  pose proof (Z.div_mod n d ltac:(lia)) as Hdm.
  pose proof (Z.mod_pos_bound n d Hd) as Hr.
  destruct (Z.ltb_spec (2 * (n mod d)) d) as [H1|H1]; [nia|].
  assert (n / d < k) by nia.
  destruct (d <? 2 * (n mod d)); [lia|].
  destruct (Z.even (n / d)); lia.
Qed.

Lemma round_half_even_mono n1 d1 n2 d2 :
  0 < d1 -> 0 < d2 -> n1 * d2 <= n2 * d1 ->
  round_half_even n1 d1 <= round_half_even n2 d2.
Proof.
  intros Hd1 Hd2 Hle. unfold round_half_even.
  pose proof (Z.div_mod n1 d1 ltac:(lia)) as E1.
  pose proof (Z.mod_pos_bound n1 d1 Hd1) as R1.
  pose proof (Z.div_mod n2 d2 ltac:(lia)) as E2.
  pose proof (Z.mod_pos_bound n2 d2 Hd2) as R2.
  set (q1 := n1 / d1) in *. set (r1 := n1 mod d1) in *.
  set (q2 := n2 / d2) in *. set (r2 := n2 mod d2) in *.
  assert (Hq : q1 <= q2).
  { destruct (Z.le_gt_cases q1 q2) as [|Hgt]; [assumption|]. exfalso.
    assert ((q2 + 1) * d1 <= q1 * d1) by nia.
    assert (n2 * d1 < (q2 + 1) * d2 * d1) by nia.
    assert ((q2 + 1) * d1 * d2 <= n1 * d2) by nia.
    lia. }
  destruct (Z.eq_dec q1 q2) as [Heq|Hne].
  - (* same integer part: compare the remainders *)
    assert (Hr : r1 * d2 <= r2 * d1) by nia.
    rewrite <- Heq.
    destruct (Z.ltb_spec (2 * r1) d1) as [A1|A1];
      destruct (Z.ltb_spec (2 * r2) d2) as [A2|A2];
      try destruct (Z.ltb_spec d1 (2 * r1)) as [B1|B1];
      try destruct (Z.ltb_spec d2 (2 * r2)) as [B2|B2];
      try destruct (Z.even q1); try lia; exfalso; nia.
  - assert (q1 + 1 <= q2) by lia.
    destruct (2 * r1 <? d1); destruct (2 * r2 <? d2);
      try destruct (d1 <? 2 * r1); try destruct (d2 <? 2 * r2);
      try destruct (Z.even q1); try destruct (Z.even q2); lia.
Qed.

Lemma log2_bounds n : 0 < n -> 2 ^ Z.log2 n <= n < 2 * 2 ^ Z.log2 n.
Proof.
  intros Hn. pose proof (Z.log2_spec n Hn) as H.
  rewrite Z.pow_succ_r in H by apply Z.log2_nonneg. lia.
Qed.

Lemma floor_log2_spec n d :
  0 < n -> 0 < d -> in_binade n d (floor_log2 n d).
Proof.
  intros Hn Hd. unfold floor_log2.
  set (l := Z.log2 n - Z.log2 d).
  pose proof (log2_bounds n Hn) as Bn. pose proof (log2_bounds d Hd) as Bd.
  pose proof (Z.log2_nonneg n) as Ln. pose proof (Z.log2_nonneg d) as Ld.
  (* the value at exponent [l] lies strictly between 1/2 and 2 *)
  assert (Hl : snd (frac_shift n d l) < 2 * fst (frac_shift n d l)
               /\ fst (frac_shift n d l) < 2 * snd (frac_shift n d l)).
  { unfold frac_shift. destruct (Z.leb_spec 0 l) as [Hl|Hl]; cbn [fst snd].
    - assert (E : 2 ^ Z.log2 n = 2 ^ Z.log2 d * 2 ^ l).
      { rewrite <- Z.pow_add_r by lia. f_equal. lia. }
      pose proof (pow2_pos l Hl).
      set (A := 2 ^ Z.log2 n) in *. set (B := 2 ^ Z.log2 d) in *.
      set (P := 2 ^ l) in *.
      assert (B * P <= d * P) by nia. assert (d * P < 2 * B * P) by nia.
      lia.
    - assert (E : 2 ^ Z.log2 d = 2 ^ Z.log2 n * 2 ^ (- l)).
      { rewrite <- Z.pow_add_r by lia. f_equal. lia. }
      pose proof (pow2_pos (- l) ltac:(lia)).
      set (A := 2 ^ Z.log2 n) in *. set (B := 2 ^ Z.log2 d) in *.
      set (P := 2 ^ (- l)) in *.
      assert (A * P <= n * P) by nia. assert (n * P < 2 * A * P) by nia.
      lia. }
  destruct (frac_shift n d l) as [a b] eqn:Hfs. cbn [fst snd] in Hl.
  destruct (frac_shift_sign _ _ _ _ _ Hfs ltac:(lia) Hd) as (Ha & Hb & _).
  destruct (Z.leb_spec b a) as [Hba|Hba].
  - unfold in_binade. rewrite Hfs. cbn [fst snd]. lia.
  - unfold in_binade.
    destruct (frac_shift n d (l - 1)) as [a' b'] eqn:Hfs'. cbn [fst snd].
    destruct (frac_shift_sign _ _ _ _ _ Hfs' ltac:(lia) Hd) as (Ha' & Hb' & _).
    replace l with (l - 1 + 1) in Hfs by lia.
    pose proof (frac_shift_add n d (l - 1) 1 a b a' b' ltac:(lia) Hfs Hfs') as E.
    change (2 ^ 1) with 2 in E. nia.
Qed.

(** Two binades: the smaller fraction has the smaller exponent. *)
Lemma in_binade_mono n1 d1 e1 n2 d2 e2 :
  0 < n1 -> 0 < d1 -> 0 < n2 -> 0 < d2 ->
  n1 * d2 <= n2 * d1 ->
  in_binade n1 d1 e1 -> in_binade n2 d2 e2 -> e1 <= e2.
Proof.
  intros Hn1 Hd1 Hn2 Hd2 Hle [L1 U1] [L2 U2].
  destruct (Z.le_gt_cases e1 e2) as [|Hgt]; [assumption|]. exfalso.
  destruct (frac_shift n1 d1 e1) as [a1 b1] eqn:F1.
  destruct (frac_shift n2 d2 e2) as [a2 b2] eqn:F2.
  destruct (frac_shift n2 d2 e1) as [c f] eqn:F3.
  cbn [fst snd] in *.
  destruct (frac_shift_sign _ _ _ _ _ F1 ltac:(lia) Hd1) as (? & ? & ?).
  destruct (frac_shift_sign _ _ _ _ _ F2 ltac:(lia) Hd2) as (? & ? & ?).
  destruct (frac_shift_sign _ _ _ _ _ F3 ltac:(lia) Hd2) as (? & ? & ?).
  pose proof (frac_shift_mono n1 d1 n2 d2 e1 Hle) as M.
  rewrite F1, F3 in M. unfold frac_le in M. cbn [fst snd] in M.
  replace e1 with (e2 + (e1 - e2)) in F3 by lia.
  pose proof (frac_shift_add n2 d2 e2 (e1 - e2) c f a2 b2 ltac:(lia) F3 F2) as E.
  assert (P : 2 <= 2 ^ (e1 - e2)).
  { change 2 with (2 ^ 1) at 1. apply Z.pow_le_mono_r; lia. }
  (* c / f = (a2 / b2) / 2 ^ k < 1 <= a1 / b1 <= c / f *)
  assert (c * b2 * 2 <= a2 * f) by nia.
  assert (c < f) by nia.
  nia.
Qed.

Lemma round53_pos n d :
  0 < n -> 0 < d ->
  exists M, round53 n d = mk_float M (floor_log2 n d - 52)
            /\ 2 ^ 52 <= M <= 2 ^ 53
            /\ M = round_half_even (fst (frac_shift n d (floor_log2 n d - 52)))
                     (snd (frac_shift n d (floor_log2 n d - 52))).
Proof.
  intros Hn Hd. unfold round53.
  destruct (Z.eqb_spec n 0) as [|_]; [lia|].
  set (e := floor_log2 n d).
  destruct (floor_log2_spec n d Hn Hd) as [L U]. fold e in L, U.
  destruct (frac_shift n d e) as [a b] eqn:Fe.
  destruct (frac_shift n d (e - 52)) as [N D] eqn:FE. cbn [fst snd] in *.
  destruct (frac_shift_sign _ _ _ _ _ Fe ltac:(lia) Hd) as (? & ? & ?).
  destruct (frac_shift_sign _ _ _ _ _ FE ltac:(lia) Hd) as (? & ? & ?).
  replace e with (e - 52 + 52) in Fe by lia.
  pose proof (frac_shift_add n d (e - 52) 52 a b N D ltac:(lia) Fe FE) as E.
  eexists. split; [reflexivity|]. split; [|reflexivity].
  set (p := 2 ^ 52) in *. assert (0 < p) by (subst p; lia).
  split.
  - apply round_half_even_lower; [lia|]. nia.
  - replace (2 ^ 53) with (2 * p) by (subst p; lia).
    apply round_half_even_upper; [lia|]. nia.
Qed.

Lemma round53_mant_nonneg n d : 0 <= n -> 0 < d -> 0 <= mant (round53 n d).
Proof.
  intros Hn Hd. destruct (Z.eq_dec n 0) as [->|Hne]; [simpl; lia|].
  destruct (round53_pos n d ltac:(lia) Hd) as (M & -> & HM & _). simpl. lia.
Qed.

Lemma to_frac_sign x :
  0 <= mant x -> 0 <= fst (to_frac x) /\ 0 < snd (to_frac x).
Proof.
  intros Hm. unfold to_frac.
  destruct (frac_shift (mant x) 1 (- expo x)) as [a b] eqn:F.
  destruct (frac_shift_sign _ _ _ _ _ F Hm ltac:(lia)) as (? & ? & _).
  cbn [fst snd]. lia.
Qed.

Lemma round53_mono n1 d1 n2 d2 :
  0 <= n1 -> 0 < d1 -> 0 <= n2 -> 0 < d2 ->
  n1 * d2 <= n2 * d1 ->
  float_le (round53 n1 d1) (round53 n2 d2).
Proof.
  intros Hn1 Hd1 Hn2 Hd2 Hle.
  pose proof (to_frac_sign _ (round53_mant_nonneg n2 d2 Hn2 Hd2)) as [S2 T2].
  destruct (Z.eq_dec n1 0) as [->|Hne1].
  { unfold float_le, frac_le. change (round53 0 d1) with (mk_float 0 0).
    change (to_frac (mk_float 0 0)) with (0, 1). cbn [fst snd]. lia. }
  assert (Hp1 : 0 < n1) by lia. assert (Hp2 : 0 < n2) by nia.
  pose proof (floor_log2_spec n1 d1 Hp1 Hd1) as B1.
  pose proof (floor_log2_spec n2 d2 Hp2 Hd2) as B2.
  pose proof (in_binade_mono _ _ _ _ _ _ Hp1 Hd1 Hp2 Hd2 Hle B1 B2) as He.
  destruct (round53_pos n1 d1 Hp1 Hd1) as (M1 & R1 & HM1 & EM1).
  destruct (round53_pos n2 d2 Hp2 Hd2) as (M2 & R2 & HM2 & EM2).
  rewrite R1, R2 in *. clear R1 R2.
  set (e1 := floor_log2 n1 d1) in *. set (e2 := floor_log2 n2 d2) in *.
  unfold float_le, to_frac. cbn [mant expo].
  destruct (Z.eq_dec e1 e2) as [Heq|Hneq].
  - (* same binade: the mantissas are ordered *)
    rewrite <- Heq in *. apply frac_shift_mono. unfold frac_le. cbn [fst snd].
    assert (M1 <= M2); [|lia].
    rewrite EM1, EM2.
    pose proof (frac_shift_mono n1 d1 n2 d2 (e1 - 52) Hle) as M.
    destruct (frac_shift n1 d1 (e1 - 52)) as [a1 b1] eqn:F1.
    destruct (frac_shift n2 d2 (e1 - 52)) as [a2 b2] eqn:F2.
    destruct (frac_shift_sign _ _ _ _ _ F1 Hn1 Hd1) as (? & ? & _).
    destruct (frac_shift_sign _ _ _ _ _ F2 Hn2 Hd2) as (? & ? & _).
    unfold frac_le in M. cbn [fst snd] in *.
    apply round_half_even_mono; lia.
  - (* a lower binade: at most 2^53 units against at least 2^52 larger ones *)
    set (k := e2 - e1). assert (Hk : 1 <= k) by (subst k; lia).
    assert (P : 2 <= 2 ^ k).
    { change 2 with (2 ^ 1) at 1. apply Z.pow_le_mono_r; lia. }
    assert (HMM : M1 <= 2 ^ k * M2).
    { change (2 ^ 53) with (2 * 2 ^ 52) in HM1. nia. }
    pose proof (frac_shift_mono M1 1 (2 ^ k * M2) 1 (- (e1 - 52))
                  ltac:(unfold frac_le; cbn [fst snd]; lia)) as M.
    rewrite (frac_shift_scale (2 ^ k) M2) in M.
    destruct (frac_shift M1 1 (- (e1 - 52))) as [a b] eqn:Fa.
    destruct (frac_shift M2 1 (- (e1 - 52))) as [c' f'] eqn:Fc'.
    destruct (frac_shift M2 1 (- (e2 - 52))) as [c f] eqn:Fc.
    destruct (frac_shift_sign _ _ _ _ _ Fa ltac:(lia) ltac:(lia)) as (? & ? & _).
    destruct (frac_shift_sign _ _ _ _ _ Fc' ltac:(lia) ltac:(lia)) as (? & ? & _).
    destruct (frac_shift_sign _ _ _ _ _ Fc ltac:(lia) ltac:(lia)) as (? & ? & _).
    replace (- (e1 - 52)) with (- (e2 - 52) + k) in Fc' by (subst k; lia).
    pose proof (frac_shift_add M2 1 (- (e2 - 52)) k c' f' c f ltac:(lia) Fc' Fc)
      as E.
    unfold frac_le in *. cbn [fst snd] in *.
    set (p := 2 ^ k) in *.
    assert (a * f' * f <= p * c' * b * f) by nia.
    assert (p * c' * b * f = c * f' * b) by nia.
    nia.
Qed.

Lemma mul_int_mono x y k :
  0 <= mant x -> 0 <= mant y -> 0 <= k ->
  float_le x y -> float_le (mul_int x k) (mul_int y k).
Proof.
  intros Hx Hy Hk Hle. unfold mul_int.
  destruct (to_frac_sign x Hx) as [? ?]. destruct (to_frac_sign y Hy) as [? ?].
  unfold float_le, frac_le in Hle.
  destruct (to_frac x) as [a b]. destruct (to_frac y) as [c f].
  cbn [fst snd] in *. apply round53_mono; nia.
Qed.

Lemma mul_int_mant_nonneg x k : 0 <= mant x -> 0 <= k -> 0 <= mant (mul_int x k).
Proof.
  intros Hx Hk. unfold mul_int. destruct (to_frac_sign x Hx) as [? ?].
  destruct (to_frac x) as [a b]. cbn [fst snd] in *.
  apply round53_mant_nonneg; nia.
Qed.

Lemma to_int_mono x y :
  0 <= mant x -> 0 <= mant y -> float_le x y -> to_int x <= to_int y.
Proof.
  intros Hx Hy Hle. unfold to_int.
  destruct (to_frac_sign x Hx) as [? ?]. destruct (to_frac_sign y Hy) as [? ?].
  unfold float_le, frac_le in Hle.
  destruct (to_frac x) as [a b]. destruct (to_frac y) as [c f].
  cbn [fst snd] in *.
  apply Z.div_le_lower_bound; [lia|].
  pose proof (Z.mul_div_le a b ltac:(lia)).
  assert (b * (a / b) * f <= c * b) by nia. nia.
Qed.

End Binary64Facts.

(** ** The scoring engine *)

Lemma size_resume_set parsed_data :
  size (resume_set parsed_data) = distinct_skill_count parsed_data.
Proof.
  unfold resume_set, distinct_skill_count.
  rewrite <- (size_list_to_set (C := gset string) (remove_dups _))
    by apply NoDup_remove_dups.
  f_equal. apply set_eq. intros x.
  by rewrite !elem_of_list_to_set, elem_of_remove_dups.
Qed.

Lemma truthy_spec s : truthy s = negb (bool_decide (s = "")).
Proof. by destruct s. Qed.

Lemma truthy_list_spec {A : Type} `{EqDecision A} (l : list A) :
  truthy_list l = negb (bool_decide (l = [])).
Proof. by destruct l. Qed.

Lemma completeness_points_spec parsed_data :
  completeness_points parsed_data = (5 * Z.of_nat (present_fields parsed_data))%Z.
Proof.
  unfold completeness_points, present_fields.
  rewrite !truthy_spec, truthy_list_spec.
  repeat case_bool_decide; simpl; lia.
Qed.

Section ScorerFacts.

Variable job_roles : list (string * list string).
Variable set_list : gset string → list string.

Lemma keyword_score_spec parsed_data job_role :
  keyword_score (calculate_ats_score job_roles set_list parsed_data job_role)
  = Z.min (2 * Z.of_nat (distinct_skill_count parsed_data)) 30.
Proof.
  unfold calculate_ats_score. simpl.
  fold (resume_set parsed_data). rewrite size_resume_set. f_equal. lia.
Qed.

Lemma completeness_score_spec parsed_data job_role :
  completeness_score (calculate_ats_score job_roles set_list parsed_data job_role)
  = (5 * Z.of_nat (present_fields parsed_data))%Z.
Proof. apply completeness_points_spec. Qed.

Lemma ats_score_spec parsed_data job_role :
  let res := calculate_ats_score job_roles set_list parsed_data job_role in
  ats_score res
  = Z.min (skill_score res + keyword_score res + completeness_score res) 100.
Proof. reflexivity. Qed.

Lemma skill_score_unfold parsed_data job_role :
  let matched := resume_set parsed_data ∩ required_set job_roles job_role in
  let required := required_set job_roles job_role in
  skill_score (calculate_ats_score job_roles set_list parsed_data job_role)
  = if (0 <? size required)%nat
    then skill_points (Z.of_nat (size matched)) (Z.of_nat (size required))
    else 0%Z.
Proof. reflexivity. Qed.

End ScorerFacts.

(** C8. Scoring against a role that the catalog does not have, or whose
    required list is empty, returns a result (the scorer is a total
    function) with skill score 0 whatever the resume lists; the keyword
    score is [min(2 * distinct skills, 30)], the completeness score is 5 per
    non-empty field, and the total is their sum. *)
Theorem calculate_ats_score_catalog_miss
    (job_roles : list (string * list string))
    (set_list : gset string → list string)
    (parsed_data : ParsedData) (job_role : string) :
  job_role ∉ dict_keys job_roles ∨ dict_get job_roles job_role = Some [] →
  let res := calculate_ats_score job_roles set_list parsed_data job_role in
  skill_score res = 0%Z
  ∧ keyword_score res = Z.min (2 * Z.of_nat (distinct_skill_count parsed_data)) 30
  ∧ completeness_score res = (5 * Z.of_nat (present_fields parsed_data))%Z
  ∧ ats_score res = (keyword_score res + completeness_score res)%Z.
Proof.
  intros Hmiss res.
  assert (Hreq : dict_get_list job_roles job_role = []).
  { unfold dict_get_list. destruct Hmiss as [Hmiss|Hmiss].
    - apply dict_mem_false_keys in Hmiss. unfold dict_mem in Hmiss.
      by destruct (dict_get job_roles job_role).
    - by rewrite Hmiss. }
  assert (Hskill : skill_score res = 0%Z).
  { subst res. rewrite skill_score_unfold. unfold required_set.
    by rewrite Hreq. }
  split; [exact Hskill|]. split; [apply keyword_score_spec|].
  split; [apply completeness_score_spec|].
  subst res. rewrite ats_score_spec. cbv zeta. rewrite Hskill.
  rewrite keyword_score_spec, completeness_score_spec.
  assert (present_fields parsed_data ≤ 4).
  { unfold present_fields. repeat case_bool_decide; lia. }
  lia.
Qed.

Lemma calculate_ats_score_catalog_miss_witness :
  ("Astronaut" ∉ dict_keys CRITICAL_SKILLS
   ∨ dict_get CRITICAL_SKILLS "Astronaut" = Some [])
  ∧ skill_score
      (calculate_ats_score CRITICAL_SKILLS elements
         (mk_parsed "Ann" "ann@example.org" "555" ["Python"; "SQL"; "python"] "")
         "Astronaut") = 0%Z.
Proof.
  assert (H : "Astronaut" ∉ dict_keys CRITICAL_SKILLS
              ∨ dict_get CRITICAL_SKILLS "Astronaut" = Some [])
    by (left; apply dict_mem_false_keys; reflexivity).
  split; [exact H|].
  exact (proj1 (calculate_ats_score_catalog_miss CRITICAL_SKILLS elements
                  (mk_parsed "Ann" "ann@example.org" "555"
                     ["Python"; "SQL"; "python"] "")
                  "Astronaut" H)).
Defined.

(** The scenario of the specification: skills python and sql against a role
    that requires python, flask, api and sql. *)
Example scenario_backend :
  let res :=
    calculate_ats_score CRITICAL_SKILLS elements
      (mk_parsed "Ann" "ann@example.org" "555" ["python"; "sql"] "")
      "Backend Developer" in
  skill_score res = 25%Z ∧ keyword_score res = 4%Z
  ∧ completeness_score res = 20%Z ∧ ats_score res = 49%Z.
Proof. vm_compute. done. Qed.

(** ** The skill score *)

Lemma skill_points_mono (m1 m2 r : Z) :
  (0 ≤ m1)%Z → (m1 ≤ m2)%Z → (0 < r)%Z →
  (skill_points m1 r ≤ skill_points m2 r)%Z.
Proof.
  intros H1 H12 Hr. unfold skill_points, Binary64.truediv.
  pose proof (Binary64Facts.round53_mant_nonneg m1 r H1 Hr).
  pose proof (Binary64Facts.round53_mant_nonneg m2 r ltac:(lia) Hr).
  apply Binary64Facts.to_int_mono;
    try (apply Binary64Facts.mul_int_mant_nonneg; lia).
  apply Binary64Facts.mul_int_mono; try lia.
  apply Binary64Facts.round53_mono; try lia. nia.
Qed.

Lemma triangle_check_spec f N :
  triangle_check f N = true →
  ∀ m r, 1 ≤ r → r ≤ N → m ≤ r → f m r = true.
Proof.
  unfold triangle_check. intros H m r H1 H2 H3.
  rewrite List.forallb_forall in H.
  specialize (H r ltac:(apply List.in_seq; lia)).
  rewrite List.forallb_forall in H.
  apply H, List.in_seq. lia.
Qed.

(** On every pair of list lengths up to 100 the binary64 model of
    [int((m / r) * 50)] agrees with the IEEE 754 operations of the standard
    library's specification. *)
Lemma skill_points_agrees_with_ieee (m r : nat) :
  1 ≤ r → r ≤ 100 → m ≤ r →
  skill_points (Z.of_nat m) (Z.of_nat r)
  = Binary64.sf_percent (Z.of_nat m) (Z.of_nat r) 50.
Proof.
  intros H1 H2 H3. apply Z.eqb_eq.
  revert m r H1 H2 H3.
  apply (triangle_check_spec
           (λ m r, (skill_points (Z.of_nat m) (Z.of_nat r)
                    =? Binary64.sf_percent (Z.of_nat m) (Z.of_nat r) 50)%Z)).
  vm_compute. reflexivity.
Qed.

(** With fewer than 50 required skills the skill score is the integer
    part of [50 * m / r]. *)
Lemma skill_points_floor_below_50 (m r : nat) :
  1 ≤ r → r < 50 → m ≤ r →
  skill_points (Z.of_nat m) (Z.of_nat r) = (50 * Z.of_nat m / Z.of_nat r)%Z.
Proof.
  intros H1 H2 H3. apply Z.eqb_eq.
  assert (H2' : r ≤ 49) by lia. clear H2.
  revert m r H1 H2' H3.
  apply (triangle_check_spec
           (λ m r, (skill_points (Z.of_nat m) (Z.of_nat r)
                    =? 50 * Z.of_nat m / Z.of_nat r)%Z)).
  vm_compute. reflexivity.
Qed.

Section ScoreOrder.

Variable job_roles : list (string * list string).
Variable set_list : gset string → list string.
Variable job_role : string.

Local Abbreviation score pd :=
  (calculate_ats_score job_roles set_list pd job_role).

Lemma skill_score_matched_mono (pd1 pd2 : ParsedData) :
  size (matched_set job_roles pd1 job_role)
  ≤ size (matched_set job_roles pd2 job_role) →
  (skill_score (score pd1) ≤ skill_score (score pd2))%Z.
Proof.
  intros Hm. rewrite !skill_score_unfold. cbv zeta.
  fold (matched_set job_roles pd1 job_role).
  fold (matched_set job_roles pd2 job_role).
  destruct (Nat.ltb_spec 0 (size (required_set job_roles job_role))); [|done].
  apply skill_points_mono; lia.
Qed.

Lemma resume_set_insert (l1 l2 : list string) (skill : string) :
  (list_to_set (lower <$> l1 ++ skill :: l2) : gset string)
  = {[lower skill]} ∪ list_to_set (lower <$> l1 ++ l2).
Proof.
  rewrite !fmap_app, fmap_cons, !list_to_set_app_L, list_to_set_cons.
  set_solver.
Qed.

(** C7. For a fixed role and catalog: inserting into the resume's skill
    list a skill that the role requires and the resume did not have raises
    the number of matched skills by one and never lowers the skill score;
    and between two resumes, more matched required skills never give a lower
    skill score, nor (with equal keyword and completeness scores) a lower
    total score. *)
Theorem skill_score_monotone :
  (∀ (pd pd' : ParsedData) (l1 l2 : list string) (skill : string),
     pd_skills pd = l1 ++ l2 →
     pd_skills pd' = l1 ++ skill :: l2 →
     lower skill ∈ required_set job_roles job_role →
     lower skill ∉ resume_set pd →
     size (matched_set job_roles pd' job_role)
     = S (size (matched_set job_roles pd job_role))
     ∧ (skill_score (score pd) ≤ skill_score (score pd'))%Z)
  ∧ (∀ pd1 pd2 : ParsedData,
       size (matched_set job_roles pd1 job_role)
       ≤ size (matched_set job_roles pd2 job_role) →
       (skill_score (score pd1) ≤ skill_score (score pd2))%Z
       ∧ (keyword_score (score pd1) = keyword_score (score pd2) →
          completeness_score (score pd1) = completeness_score (score pd2) →
          (ats_score (score pd1) ≤ ats_score (score pd2))%Z)).
Proof.
  split.
  - intros pd pd' l1 l2 skill E E' Hreq Hnew.
    assert (Hm : matched_set job_roles pd' job_role
                 = {[lower skill]} ∪ matched_set job_roles pd job_role).
    { unfold matched_set, resume_set in *. rewrite E', E in *.
      rewrite resume_set_insert. set_solver. }
    assert (Hs : size (matched_set job_roles pd' job_role)
                 = S (size (matched_set job_roles pd job_role))).
    { rewrite Hm, size_union, size_singleton; [done|].
      unfold matched_set. set_solver. }
    split; [exact Hs|]. apply skill_score_matched_mono. lia.
  - intros pd1 pd2 Hm.
    pose proof (skill_score_matched_mono pd1 pd2 Hm) as Hs.
    split; [exact Hs|]. intros Hk Hc.
    rewrite !ats_score_spec. cbv zeta. rewrite Hk, Hc. lia.
Qed.

End ScoreOrder.

Lemma skill_score_monotone_witness :
  let pd := mk_parsed "Ann" "ann@example.org" "555" ["python"; "sql"] "" in
  let pd' := mk_parsed "Ann" "ann@example.org" "555" ["python"; "Flask"; "sql"] "" in
  size (matched_set CRITICAL_SKILLS pd' "Backend Developer")
  = S (size (matched_set CRITICAL_SKILLS pd "Backend Developer"))
  ∧ (skill_score (calculate_ats_score CRITICAL_SKILLS elements pd "Backend Developer")
     ≤ skill_score (calculate_ats_score CRITICAL_SKILLS elements pd' "Backend Developer"))%Z.
Proof.
  intros pd pd'.
  apply (proj1 (skill_score_monotone CRITICAL_SKILLS elements "Backend Developer")
           pd pd' ["python"] ["sql"] "Flask").
  - reflexivity.
  - reflexivity.
  - vm_compute. reflexivity.
  - vm_compute. discriminate.
Defined.

(** The sub-scores as the specification words them, for a role with fewer
    than 50 distinct required skills. *)
Lemma calculate_ats_score_formula
    (job_roles : list (string * list string))
    (set_list : gset string → list string)
    (parsed_data : ParsedData) (job_role : string) :
  let res := calculate_ats_score job_roles set_list parsed_data job_role in
  let m := Z.of_nat (size (matched_set job_roles parsed_data job_role)) in
  let r := Z.of_nat (size (required_set job_roles job_role)) in
  (r < 50)%Z →
  skill_score res = (if (r =? 0)%Z then 0 else 50 * m / r)%Z
  ∧ keyword_score res
    = Z.min (2 * Z.of_nat (distinct_skill_count parsed_data)) 30
  ∧ completeness_score res = (5 * Z.of_nat (present_fields parsed_data))%Z
  ∧ ats_score res
    = Z.min (skill_score res + keyword_score res + completeness_score res) 100.
Proof.
  intros res m r Hr. subst res m r.
  split; [|split; [apply keyword_score_spec|split;
    [apply completeness_score_spec|apply ats_score_spec]]].
  rewrite skill_score_unfold. cbv zeta.
  fold (matched_set job_roles parsed_data job_role).
  destruct (Nat.ltb_spec 0 (size (required_set job_roles job_role))) as [Hp|Hz].
  - destruct (Z.eqb_spec (Z.of_nat (size (required_set job_roles job_role))) 0);
      [lia|].
    apply skill_points_floor_below_50; [lia|lia|].
    apply subseteq_size. unfold matched_set. set_solver.
  - replace (size (required_set job_roles job_role)) with 0 by lia. done.
Qed.

(** C1, at the input where the code leaves the formula: 29 of 50 required
    skills are matched, [floor(50 * 29 / 50)] is 29, and the scorer's
    [int((29 / 50) * 50)] is 28, because the binary64 product
    [0.58 * 50] is 28.999999999999996. The keyword, completeness and total
    scores follow their formulas (30, 20 and 78). *)
Theorem skill_score_29_of_50 :
  let res := calculate_ats_score wide_catalog elements resume_29_of_50 "Generalist" in
  size (required_set wide_catalog "Generalist") = 50
  ∧ size (matched_set wide_catalog resume_29_of_50 "Generalist") = 29
  ∧ (50 * 29 / 50 = 29)%Z
  ∧ skill_score res = 28%Z
  ∧ Binary64.sf_percent 29 50 50 = 28%Z
  ∧ keyword_score res = 30%Z
  ∧ completeness_score res = 20%Z
  ∧ ats_score res = 78%Z.
Proof. vm_compute. done. Qed.

(** ** The refinement stages only append *)

Lemma exp_extends_refl e : exp_extends e e.
Proof. by unfold exp_extends. Qed.

Lemma proj_extends_refl p : proj_extends p p.
Proof. by unfold proj_extends. Qed.

Lemma exp_extends_trans e0 e1 e2 :
  exp_extends e0 e1 → exp_extends e1 e2 → exp_extends e0 e2.
Proof.
  intros (A1 & A2 & A3 & A4) (B1 & B2 & B3 & B4).
  repeat split; try congruence. by etrans.
Qed.

Lemma proj_extends_trans p0 p1 p2 :
  proj_extends p0 p1 → proj_extends p1 p2 → proj_extends p0 p2.
Proof.
  intros (A1 & A2 & A3) (B1 & B2 & B3).
  repeat split; try congruence. by etrans.
Qed.

Lemma Forall2_exp_extends_refl l : Forall2 exp_extends l l.
Proof. apply Forall_Forall2_diag, Forall_forall. intros. apply exp_extends_refl. Qed.

Lemma Forall2_proj_extends_refl l : Forall2 proj_extends l l.
Proof. apply Forall_Forall2_diag, Forall_forall. intros. apply proj_extends_refl. Qed.

Lemma grows_by_refl r : grows_by 0 r r.
Proof.
  unfold grows_by. split; [done|]. split; [lia|]. split; [done|].
  split; [apply Forall2_exp_extends_refl|apply Forall2_proj_extends_refl].
Qed.

Lemma grows_by_trans a b r0 r1 r2 :
  grows_by a r0 r1 → grows_by b r1 r2 → grows_by (a + b) r0 r2.
Proof.
  intros (A1 & A2 & A3 & A4 & A5) (B1 & B2 & B3 & B4 & B5).
  unfold grows_by. split; [by etrans|]. split; [lia|].
  split; [congruence|]. split.
  - eapply Forall2_trans; [apply exp_extends_trans|exact A4|exact B4].
  - eapply Forall2_trans; [apply proj_extends_trans|exact A5|exact B5].
Qed.

Lemma grows_by_mono a b r0 r1 : a ≤ b → grows_by a r0 r1 → grows_by b r0 r1.
Proof.
  intros Hab (A1 & A2 & A3 & A4 & A5). unfold grows_by.
  split; [done|]. split; [lia|]. done.
Qed.

(** Appending skills, nothing else touched. *)
Lemma grows_by_skills r extra k :
  length extra ≤ k → grows_by k r (set_skills_list r (skills_list r ++ extra)).
Proof.
  intros Hk. unfold grows_by. simpl.
  split; [by apply prefix_app_r|]. split; [rewrite length_app; lia|].
  split; [done|].
  split; [apply Forall2_exp_extends_refl|apply Forall2_proj_extends_refl].
Qed.

Lemma grows_by_full_text r v : grows_by 0 r (set_full_text r v).
Proof.
  unfold grows_by. simpl. split; [done|]. split; [lia|]. split; [done|].
  split; [apply Forall2_exp_extends_refl|apply Forall2_proj_extends_refl].
Qed.

(** *** Diversity: at most one skill per category *)

Lemma diversity_step_appends role skills current cat :
  ∃ extra current',
    diversity_step role (skills, current) cat = (skills ++ extra, current')
    ∧ length extra ≤ 1.
Proof.
  assert (Hsame : ∃ extra current',
             (skills, current) = (skills ++ extra, current')
             ∧ length extra ≤ 1).
  { exists [], current. rewrite app_nil_r. split; [done|simpl; lia]. }
  unfold diversity_step.
  destruct (existsb _ _); [exact Hsame|].
  destruct (dict_get _ role) as [fallback|]; [|exact Hsame].
  destruct (truthy fallback && _); [|exact Hsame].
  by exists [fallback], (current ∪ {[lower fallback]}).
Qed.

Lemma diversity_fold role cats skills current :
  ∃ extra,
    (fold_left (diversity_step role) cats (skills, current)).1 = skills ++ extra
    ∧ length extra ≤ length cats.
Proof.
  revert skills current. induction cats as [|cat cats IH]; intros skills current.
  - exists []. simpl. by rewrite app_nil_r.
  - cbn [fold_left].
    destruct (diversity_step_appends role skills current cat)
      as (extra1 & current' & -> & H1).
    destruct (IH (skills ++ extra1) current') as (extra & -> & Hl).
    exists (extra1 ++ extra). rewrite <- app_assoc. split; [done|].
    rewrite length_app. simpl. lia.
Qed.

Lemma validate_resume_diversity_grows r role :
  grows_by 4 r (validate_resume_diversity r role).
Proof.
  unfold validate_resume_diversity.
  destruct (diversity_fold role _SKILL_CATEGORIES (skills_list r)
              (list_to_set (lower <$> skills_list r))) as (extra & -> & Hl).
  by apply grows_by_skills.
Qed.

(** *** Critical skill injection: at most two skills per call *)

Lemma offer_bullet_prefix cap bullets bullet :
  bullets `prefix_of` offer_bullet cap bullets bullet.
Proof.
  unfold offer_bullet. destruct bullets as [|b bs]; simpl.
  - apply prefix_nil.
  - destruct (_ <? cap); [by exists [bullet]|done].
Qed.

Lemma inject_step_grows r current idx skill :
  grows_by 1 r (inject_step (r, current, idx) skill).1.1.
Proof.
  unfold inject_step. case_bool_decide.
  { simpl. eapply grows_by_mono; [|apply grows_by_refl]. lia. }
  set (r1 := set_skills_list r (skills_list r ++ [skill])).
  assert (G1 : grows_by 1 r r1) by (by apply grows_by_skills).
  cbn [fst]. replace 1 with (1 + 0) by lia.
  eapply grows_by_trans; [exact G1|].
  destruct (truthy_list (experience r1)).
  - unfold grows_by. simpl. split; [done|]. split; [lia|]. split; [done|].
    split; [|apply Forall2_proj_extends_refl].
    apply Forall2_alter_r; [apply Forall2_exp_extends_refl|].
    intros x y _ _ (E1 & E2 & E3 & E4). unfold exp_extends. simpl.
    repeat split; try done. etrans; [exact E4|apply offer_bullet_prefix].
  - destruct (truthy_list (projects r1)); [|apply grows_by_refl].
    unfold grows_by. simpl. split; [done|]. split; [lia|]. split; [done|].
    split; [apply Forall2_exp_extends_refl|].
    apply Forall2_alter_r; [apply Forall2_proj_extends_refl|].
    intros x y _ _ (E1 & E2 & E3). unfold proj_extends. simpl.
    repeat split; try done. etrans; [exact E3|apply offer_bullet_prefix].
Qed.

Lemma inject_fold_grows cands r current idx :
  grows_by (length cands) r (fold_left inject_step cands (r, current, idx)).1.1.
Proof.
  revert r current idx. induction cands as [|skill cands IH]; intros r current idx.
  - apply grows_by_refl.
  - cbn [fold_left].
    pose proof (inject_step_grows r current idx skill) as G.
    destruct (inject_step (r, current, idx) skill) as [[r' current'] idx'].
    change (length (skill :: cands)) with (1 + length cands).
    eapply grows_by_trans; [exact G|apply IH].
Qed.

Lemma inject_missing_role_skills_grows r ats_result role :
  grows_by 2 r (inject_missing_role_skills r ats_result role).
Proof.
  unfold inject_missing_role_skills.
  destruct (negb _).
  - eapply grows_by_mono; [|apply grows_by_refl]. lia.
  - eapply grows_by_mono; [|apply inject_fold_grows].
    rewrite length_take. lia.
Qed.

(** *** Complementary skills: at most five *)

Lemma complementary_loop_appends cands skills current seen added :
  added < max_to_add →
  ∃ extra,
    complementary_loop cands skills current seen added = skills ++ extra
    ∧ length extra + added ≤ max_to_add.
Proof.
  revert skills current seen added.
  induction cands as [|skill cands IH]; intros skills current seen added Ha.
  - exists []. simpl. rewrite app_nil_r. split; [done|lia].
  - cbn [complementary_loop]. destruct (negb _ && negb _).
    + destruct (Nat.leb_spec max_to_add (S added)) as [Hfull|Hroom].
      * exists [skill]. split; [done|simpl; lia].
      * destruct (IH (skills ++ [skill]) (current ∪ {[lower skill]})
                    (seen ∪ {[lower skill]}) (S added) Hroom)
          as (extra & -> & Hl).
        exists (skill :: extra). rewrite <- app_assoc. split; [done|simpl; lia].
    + apply IH, Ha.
Qed.

Section StageFacts.

Variable job_roles : list (string * list string).

Lemma inject_complementary_skills_grows r role role_skills_map :
  grows_by 5 r (inject_complementary_skills job_roles r role role_skills_map).
Proof.
  unfold inject_complementary_skills.
  destruct (complementary_loop_appends
              (complementary_candidates job_roles role role_skills_map)
              (skills_list r) (list_to_set (lower <$> skills_list r)) ∅ 0)
    as (extra & -> & Hl); [unfold max_to_add; lia|].
  apply grows_by_skills. unfold max_to_add in Hl. lia.
Qed.

Lemma rebuild_and_score_grows r role fn :
  grows_by 0 r (_rebuild_and_score r role fn).1.
Proof. apply grows_by_full_text. Qed.

Lemma injection_loop_grows fn role n r ats_result :
  grows_by (2 * n) r (injection_loop fn role n r ats_result).1.2.
Proof.
  revert r ats_result. induction n as [|n IH]; intros r ats_result.
  - apply grows_by_refl.
  - cbn [injection_loop].
    pose proof (inject_missing_role_skills_grows r ats_result role) as G1.
    set (r1 := inject_missing_role_skills r ats_result role) in *.
    pose proof (rebuild_and_score_grows r1 role fn) as G2.
    destruct (_rebuild_and_score r1 role fn) as [r2 ats_result'].
    cbn [fst] in G2.
    pose proof (grows_by_trans _ _ _ _ _ G1 G2) as G.
    destruct (90 <=? ats_score ats_result')%Z.
    { eapply grows_by_mono; [|exact G]. lia. }
    destruct (negb _).
    { eapply grows_by_mono; [|exact G]. lia. }
    eapply grows_by_mono; [|exact (grows_by_trans _ _ _ _ _ G (IH r2 ats_result'))].
    lia.
Qed.

Lemma refine_after_normalize_grows fn role_skills_map role r max_attempts :
  grows_by (4 + 2 * max_attempts + 5) (enhance_language_quality r)
    (refine_after_normalize job_roles fn role_skills_map role r max_attempts).1.
Proof.
  unfold refine_after_normalize.
  set (p := enhance_language_quality r).
  pose proof (validate_resume_diversity_grows p role) as G1.
  set (r2 := validate_resume_diversity p role) in *.
  pose proof (rebuild_and_score_grows r2 role fn) as G2.
  destruct (_rebuild_and_score r2 role fn) as [r3 ats_result]. cbn [fst] in G2.
  pose proof (grows_by_trans _ _ _ _ _ G1 G2) as G3.
  destruct (90 <=? ats_score ats_result)%Z.
  { eapply grows_by_mono; [|exact G3]. lia. }
  pose proof (injection_loop_grows fn role max_attempts r3 ats_result) as G4.
  destruct (injection_loop fn role max_attempts r3 ats_result)
    as [[exit r4] ats_result'].
  cbn [fst snd] in G4.
  pose proof (grows_by_trans _ _ _ _ _ G3 G4) as G5.
  destruct exit.
  { eapply grows_by_mono; [|exact G5]. lia. }
  destruct (ats_score ats_result' <? 90)%Z.
  2:{ eapply grows_by_mono; [|exact G5]. lia. }
  pose proof (inject_complementary_skills_grows r4 role role_skills_map) as G6.
  pose proof (rebuild_and_score_grows
                (inject_complementary_skills job_roles r4 role role_skills_map)
                role fn) as G7.
  eapply grows_by_mono;
    [|exact (grows_by_trans _ _ _ _ _ G5 (grows_by_trans _ _ _ _ _ G6 G7))].
  lia.
Qed.

End StageFacts.

Lemma enhance_experience r :
  experience (enhance_language_quality r)
  = (λ entry, set_exp_bullets entry (_enhance_single_bullet <$> exp_bullets entry))
    <$> experience r.
Proof. reflexivity. Qed.

Lemma enhance_projects r :
  projects (enhance_language_quality r)
  = (λ entry, set_proj_bullets entry (_enhance_single_bullet <$> proj_bullets entry))
    <$> projects r.
Proof. reflexivity. Qed.

Lemma enhance_then_extends k r r' :
  grows_by k (enhance_language_quality r) r' →
  Forall2 exp_kept (experience r) (experience r')
  ∧ Forall2 proj_kept (projects r) (projects r').
Proof.
  intros (_ & _ & _ & He & Hp).
  rewrite enhance_experience in He. rewrite enhance_projects in Hp.
  rewrite Forall2_fmap_l in He. rewrite Forall2_fmap_l in Hp. split.
  - eapply Forall2_impl; [exact He|].
    intros e0 e1 (E1 & E2 & E3 & E4). by unfold exp_kept.
  - eapply Forall2_impl; [exact Hp|].
    intros p0 p1 (E1 & E2 & E3). by unfold proj_kept.
Qed.

(** ** The orchestrator *)

(** C3 fails as stated: with a role of twelve required skills, a resume of
    three skills leaves the run with sixteen, thirteen more than before
    (four from diversity, two from each of the two injection attempts, five
    complementary ones), and its bullet "worked on billing" has become
    "Engineered billing". *)
Lemma refine_for_ats_grows_by_13 :
  let final :=
    (refine_for_ats broad_catalog soft_resume "Software Engineer"
       (calculate_ats_score broad_catalog elements) ROLE_SKILLS
       default_max_attempts).1 in
  length (skills_list soft_resume) = 3
  ∧ length (skills_list final) = 16
  ∧ (9 <? length (skills_list final) - length (skills_list soft_resume)) = true
  ∧ exp_bullets <$> experience soft_resume = [["worked on billing"]]
  ∧ take 1 <$> (exp_bullets <$> experience final) = [["Engineered billing"]].
Proof. vm_compute. done. Qed.

(** C3, amended. After a full run with the default two attempts the skills
    list is the list of before followed by at most 13 new entries (4 from
    diversity, 2 per injection attempt, 5 complementary), the education
    entries are unchanged, and the experience entries and projects are the
    same ones in the same order, each with its former bullets, polished, at
    their places and possibly followed by injected bullets. *)
Theorem refine_for_ats_bounded
    (job_roles : list (string * list string)) (resume_data : Resume)
    (role : string) (calculate_ats_score_fn : ParsedData → string → AtsResult)
    (role_skills_map : list (string * list string)) :
  let final :=
    (refine_for_ats job_roles resume_data role calculate_ats_score_fn
       role_skills_map default_max_attempts).1 in
  skills_list resume_data `prefix_of` skills_list final
  ∧ length (skills_list final) ≤ length (skills_list resume_data) + 13
  ∧ education final = education resume_data
  ∧ Forall2 exp_kept (experience resume_data) (experience final)
  ∧ Forall2 proj_kept (projects resume_data) (projects final).
Proof.
  intros final. subst final. unfold refine_for_ats.
  pose proof (refine_after_normalize_grows job_roles calculate_ats_score_fn
                role_skills_map (_normalize_role job_roles role) resume_data
                default_max_attempts) as G.
  destruct (enhance_then_extends _ _ _ G) as [He Hp].
  destruct G as (G1 & G2 & G3 & _ & _).
  unfold default_max_attempts in *. simpl in G1, G2, G3.
  repeat split; try done.
Qed.

(** C9. If the score computed right after the polish and diversity stages
    is at least 90, the orchestrator returns that score and the resume as
    those two stages left it (with its text rebuilt): the skills list, the
    experience entries and the projects, hence all bullets, are theirs. *)
Theorem refine_for_ats_early_exit
    (job_roles : list (string * list string)) (resume_data : Resume)
    (role : string) (calculate_ats_score_fn : ParsedData → string → AtsResult)
    (role_skills_map : list (string * list string)) (max_attempts : nat) :
  let scoring_role := _normalize_role job_roles role in
  let prepared :=
    validate_resume_diversity (enhance_language_quality resume_data)
      scoring_role in
  let first := _rebuild_and_score prepared scoring_role calculate_ats_score_fn in
  (90 ≤ ats_score first.2)%Z →
  refine_for_ats job_roles resume_data role calculate_ats_score_fn
    role_skills_map max_attempts = first
  ∧ first.1 = set_full_text prepared (_build_full_text prepared)
  ∧ skills_list first.1 = skills_list prepared
  ∧ experience first.1 = experience prepared
  ∧ projects first.1 = projects prepared.
Proof.
  intros scoring_role prepared first Hscore.
  split; [|done].
  unfold refine_for_ats, refine_after_normalize.
  fold scoring_role. fold prepared. fold first.
  destruct first as [r3 ats_result] eqn:E. simpl in Hscore.
  by destruct (Z.leb_spec 90 (ats_score ats_result)); [|lia].
Qed.

Lemma refine_for_ats_early_exit_witness :
  let first :=
    _rebuild_and_score
      (validate_resume_diversity (enhance_language_quality strong_resume)
         (_normalize_role CRITICAL_SKILLS "Backend Developer"))
      (_normalize_role CRITICAL_SKILLS "Backend Developer")
      (calculate_ats_score CRITICAL_SKILLS elements) in
  (90 ≤ ats_score first.2)%Z
  ∧ refine_for_ats CRITICAL_SKILLS strong_resume "Backend Developer"
      (calculate_ats_score CRITICAL_SKILLS elements) ROLE_SKILLS
      default_max_attempts = first.
Proof.
  intros first.
  assert (H : (90 ≤ ats_score first.2)%Z) by (vm_compute; discriminate).
  split; [exact H|].
  exact (proj1 (refine_for_ats_early_exit CRITICAL_SKILLS strong_resume
                  "Backend Developer"
                  (calculate_ats_score CRITICAL_SKILLS elements) ROLE_SKILLS
                  default_max_attempts H)).
Defined.

(** ** The critical skill injector *)

Lemma inject_step_skills r current idx skill :
  let st := inject_step (r, current, idx) skill in
  skills_list st.1.1
  = skills_list r ++ (if bool_decide (lower skill ∈ current) then [] else [skill])
  ∧ st.1.2
    = if bool_decide (lower skill ∈ current) then current
      else current ∪ {[lower skill]}.
Proof.
  unfold inject_step. case_bool_decide; simpl.
  - by rewrite app_nil_r.
  - destruct (truthy_list (experience r)); [done|].
    by destruct (truthy_list (projects r)).
Qed.

Lemma inject_fold_skills cands r current idx :
  skills_list (fold_left inject_step cands (r, current, idx)).1.1
  = skills_list r ++ fresh_skills current cands.
Proof.
  revert r current idx. induction cands as [|skill cands IH]; intros r current idx.
  - simpl. by rewrite app_nil_r.
  - cbn [fold_left fresh_skills].
    destruct (inject_step_skills r current idx skill) as [Hs Hc].
    destruct (inject_step (r, current, idx) skill) as [[r' current'] idx'].
    cbn [fst snd] in Hs, Hc. rewrite IH, Hs, Hc.
    case_bool_decide; by rewrite <- app_assoc.
Qed.

Lemma fresh_skills_filter present cands :
  fresh_skills present cands
  = filter (λ s, lower s ∉ present) (dedup_ci cands).
Proof.
  revert present. induction cands as [|s cs IH]; intros present; [done|].
  cbn [fresh_skills dedup_ci]. rewrite filter_cons, list_filter_filter.
  case_bool_decide as Hs.
  - rewrite decide_False by tauto. rewrite IH.
    apply list_filter_iff. intros t. split; [|tauto].
    intros Ht. split; [done|]. congruence.
  - rewrite decide_True by done. f_equal. rewrite IH.
    apply list_filter_iff. intros t. set_solver.
Qed.

Lemma filter_Forall_id {A : Type} (P : A → Prop) `{!∀ x, Decision (P x)}
    (l : list A) :
  Forall P l → filter P l = l.
Proof.
  induction 1 as [|x l Hx _ IH]; [done|].
  rewrite filter_cons, decide_True by done. by rewrite IH.
Qed.

Lemma dedup_ci_NoDup l : NoDup (lower <$> l) → dedup_ci l = l.
Proof.
  induction l as [|s l IH]; [done|]. rewrite fmap_cons. intros Hnd.
  apply NoDup_cons in Hnd as [Hs Hnd]. cbn [dedup_ci]. rewrite IH by done.
  f_equal. apply filter_Forall_id, Forall_forall. intros t Ht Heq.
  apply Hs. rewrite <- Heq. by apply list_elem_of_fmap_2.
Qed.

Lemma ascii_lower_idemp c : ascii_lower (ascii_lower c) = ascii_lower c.
Proof. destruct c as [[] [] [] [] [] [] [] []]; reflexivity. Qed.

Lemma lower_idemp s : lower (lower s) = lower s.
Proof.
  induction s as [|c s IH]; [done|]. simpl. by rewrite ascii_lower_idemp, IH.
Qed.

(** The entries of a set of lower-cased strings are their own lower case. *)
Lemma lower_fixed_in_lower_set (l : list string) (x : string) :
  x ∈ (list_to_set (lower <$> l) : gset string) → lower x = x.
Proof.
  rewrite elem_of_list_to_set, list_elem_of_fmap. intros (y & -> & _).
  apply lower_idemp.
Qed.

(** C4 fails as stated: the injector looks at the first two missing entries
    only.  With "Python" listed and the missing entries python, flask, api,
    sql, the first two entries not yet present are flask and api, but the
    injector appends flask alone. *)
Lemma inject_missing_role_skills_skips_third :
  skills_list
    (inject_missing_role_skills python_resume stale_result "Backend Developer")
  = ["Python"; "flask"]
  ∧ skills_list python_resume
    ++ take 2 (filter (λ s, lower s ∉ lower <$> skills_list python_resume)
                 (critical (missing_classified stale_result)))
    = ["Python"; "flask"; "api"].
Proof. vm_compute. done. Qed.

(** C4, amended. One call appends to the skills list, in order, those of
    the first two entries of the score result's [missing_skills] whose
    lower-cased form is not in the lower-cased skills list, a repeat (up to
    case) of the first entry being skipped; later entries are not looked
    at.  When the first two entries are absent from the skills list and
    differ up to case, they are appended as they are; this is so for the
    result of scoring the resume itself, whose critical entries are its
    missing entries. *)
Theorem inject_missing_role_skills_appends
    (resume_data : Resume) (ats_result : AtsResult) (role : string) :
  let after := inject_missing_role_skills resume_data ats_result role in
  let to_inject := take 2 (missing_skills ats_result) in
  let absent s := lower s ∉ lower <$> skills_list resume_data in
  skills_list after
  = skills_list resume_data ++ filter absent (dedup_ci to_inject)
  ∧ (Forall absent to_inject → NoDup (lower <$> to_inject) →
     skills_list after = skills_list resume_data ++ to_inject)
  ∧ (∀ (job_roles : list (string * list string))
       (set_list : gset string → list string),
       (∀ X, NoDup (set_list X) ∧ ∀ x, x ∈ set_list X ↔ x ∈ X) →
       ats_result
       = calculate_ats_score job_roles set_list
           (build_parsed_data resume_data) role →
       critical (missing_classified ats_result) = missing_skills ats_result
       ∧ skills_list after = skills_list resume_data ++ to_inject).
Proof.
  intros after to_inject absent.
  assert (Hmain : skills_list after
                  = skills_list resume_data ++ filter absent (dedup_ci to_inject)).
  { subst after to_inject. unfold inject_missing_role_skills.
    destruct (missing_skills ats_result) as [|s0 rest] eqn:Hm.
    - simpl. by rewrite app_nil_r.
    - cbn [truthy_list negb]. rewrite inject_fold_skills, fresh_skills_filter.
      f_equal. apply list_filter_iff. intros s. subst absent. cbv beta.
      by rewrite elem_of_list_to_set. }
  assert (Hclean : Forall absent to_inject → NoDup (lower <$> to_inject) →
                   skills_list after = skills_list resume_data ++ to_inject).
  { intros Hfresh Hnd. rewrite Hmain, dedup_ci_NoDup by done.
    by rewrite filter_Forall_id. }
  split; [exact Hmain|]. split; [exact Hclean|].
  intros job_roles set_list Hlist Hres.
  set (R := required_set job_roles role).
  set (S := resume_set (build_parsed_data resume_data)).
  assert (Hmiss : missing_skills ats_result = set_list (R ∖ S))
    by (by rewrite Hres).
  assert (Hfix : ∀ x, x ∈ missing_skills ats_result →
                      lower x = x ∧ x ∈ R ∧ x ∉ S).
  { intros x Hx. rewrite Hmiss in Hx. apply (Hlist (R ∖ S)) in Hx.
    apply elem_of_difference in Hx as [HR HS].
    split; [|done]. by apply (lower_fixed_in_lower_set _ _ HR). }
  split.
  - assert (Hcl : missing_classified ats_result
                  = classify_missing_skills role (missing_skills ats_result)
                      (dict_get_list job_roles role))
      by (by rewrite Hres).
    rewrite Hcl, classify_missing_skills_filter. cbn [critical].
    apply filter_Forall_id, Forall_forall. intros x Hx.
    destruct (Hfix x Hx) as (Hl & HR & _).
    rewrite Hl. by apply elem_of_list_to_set in HR.
  - apply Hclean.
    + apply Forall_forall. intros x Hx. apply subseteq_take in Hx.
      destruct (Hfix x Hx) as (Hl & _ & HS). subst absent. cbv beta.
      rewrite Hl. intros Hin. apply HS. by apply elem_of_list_to_set.
    + assert (Hid : lower <$> to_inject = to_inject).
      { rewrite <- (list_fmap_id to_inject) at 2.
        apply Forall_fmap_ext_1, Forall_forall. intros x Hx.
        apply subseteq_take in Hx. by destruct (Hfix x Hx). }
      rewrite Hid. unfold to_inject.
      eapply sublist_NoDup; [|apply sublist_take].
      rewrite Hmiss. apply Hlist.
Qed.

Lemma inject_missing_role_skills_appends_witness :
  let ats_result :=
    calculate_ats_score CRITICAL_SKILLS elements
      (build_parsed_data python_resume) "Backend Developer" in
  critical (missing_classified ats_result) = missing_skills ats_result
  ∧ skills_list
      (inject_missing_role_skills python_resume ats_result "Backend Developer")
    = skills_list python_resume ++ take 2 (missing_skills ats_result).
Proof.
  intros ats_result.
  apply (proj2 (proj2 (inject_missing_role_skills_appends python_resume
                         ats_result "Backend Developer"))
           CRITICAL_SKILLS elements).
  - intros X. split; [apply NoDup_elements|]. intros x. apply elem_of_elements.
  - reflexivity.
Defined.

(** ** The language quality enhancer *)

Lemma weak_verb_fold_free (table : list (string * string)) (s : string) :
  Forall (λ phrase, re_search phrase s = None) table.*1 →
  fold_left weak_verb_step table s = s.
Proof.
  induction table as [|[weak strong] table IH]; [done|].
  rewrite fmap_cons. intros H. apply Forall_cons in H as [H1 H2].
  cbn [fold_left]. unfold weak_verb_step at 2. cbn [fst] in H1.
  rewrite H1. by apply IH.
Qed.

Lemma quantify_fold_free (table : list (string * string)) (s : string) :
  Forall (λ phrase, re_search phrase s = None) table.*1 →
  fold_left quantify_step table s = s.
Proof.
  induction table as [|[vague quantified] table IH]; [done|].
  rewrite fmap_cons. intros H. apply Forall_cons in H as [H1 H2].
  cbn [fold_left]. unfold quantify_step at 2. cbn [fst] in H1.
  rewrite H1. by apply IH.
Qed.

Lemma enhance_single_bullet_free bullet :
  phrase_free bullet → _enhance_single_bullet bullet = bullet.
Proof.
  unfold phrase_free, polish_phrases. intros H.
  apply Forall_app in H as [Hw Hq]. unfold _enhance_single_bullet.
  rewrite weak_verb_fold_free by done. by apply quantify_fold_free.
Qed.

Lemma enhance_bullets_free bullets :
  Forall phrase_free bullets → _enhance_single_bullet <$> bullets = bullets.
Proof.
  induction 1 as [|b bs Hb _ IH]; [done|].
  rewrite fmap_cons, IH. by rewrite enhance_single_bullet_free.
Qed.

Lemma enhance_language_quality_free r :
  Forall phrase_free (all_bullets r) → enhance_language_quality r = r.
Proof.
  unfold all_bullets. intros H. apply Forall_app in H as [He Hp].
  rewrite Forall_concat, Forall_fmap in He.
  rewrite Forall_concat, Forall_fmap in Hp.
  assert (Hexp : (λ entry, set_exp_bullets entry
                             (_enhance_single_bullet <$> exp_bullets entry))
                 <$> experience r = experience r).
  { rewrite <- (list_fmap_id (experience r)) at 2.
    apply Forall_fmap_ext_1. eapply Forall_impl; [exact He|].
    intros [t c d bs] Hbs. simpl in *. unfold set_exp_bullets. simpl.
    by rewrite enhance_bullets_free. }
  assert (Hproj : (λ entry, set_proj_bullets entry
                              (_enhance_single_bullet <$> proj_bullets entry))
                  <$> projects r = projects r).
  { rewrite <- (list_fmap_id (projects r)) at 2.
    apply Forall_fmap_ext_1. eapply Forall_impl; [exact Hp|].
    intros [n t bs] Hbs. simpl in *. unfold set_proj_bullets. simpl.
    by rewrite enhance_bullets_free. }
  unfold enhance_language_quality. cbn [projects set_experience].
  rewrite Hexp, Hproj. by destruct r.
Qed.

(** C2 fails as stated: the quantified variant of "improving efficiency"
    still contains the phrase, so every run appends " by 30%" again; and a
    second occurrence of a weak verb is replaced by the second run only. *)
Lemma enhance_language_quality_not_idempotent :
  let once := enhance_language_quality dashboard_resume in
  let twice := enhance_language_quality once in
  exp_bullets <$> experience once
  = [["Built dashboards improving efficiency by 30%"]]
  ∧ exp_bullets <$> experience twice
    = [["Built dashboards improving efficiency by 30% by 30%"]]
  ∧ proj_bullets <$> projects once = [["Developed charts and made tables"]]
  ∧ proj_bullets <$> projects twice
    = [["Developed charts and developed tables"]].
Proof. vm_compute. done. Qed.

(** C2, amended. The enhancer never adds or removes a bullet, and it leaves
    a resume unchanged when none of its bullets contains a phrase of the two
    tables; so running it twice gives the same bullets as running it once
    for every resume whose bullets, once polished, contain none of the
    phrases. *)
Theorem enhance_language_quality_idempotent_when_free (resume_data : Resume) :
  let once := enhance_language_quality resume_data in
  (length <$> (exp_bullets <$> experience once)
   = length <$> (exp_bullets <$> experience resume_data)
   ∧ length <$> (proj_bullets <$> projects once)
     = length <$> (proj_bullets <$> projects resume_data))
  ∧ (Forall phrase_free (all_bullets resume_data) → once = resume_data)
  ∧ (Forall phrase_free (all_bullets once) →
     enhance_language_quality once = once).
Proof.
  intros once. split; [|split].
  - subst once. rewrite enhance_experience, enhance_projects.
    rewrite <- !list_fmap_compose. split.
    + apply list_fmap_ext. intros i e _. simpl. apply length_fmap.
    + apply list_fmap_ext. intros i e _. simpl. apply length_fmap.
  - apply enhance_language_quality_free.
  - apply enhance_language_quality_free.
Qed.

Lemma enhance_language_quality_idempotent_witness :
  Forall phrase_free (all_bullets (enhance_language_quality soft_resume))
  ∧ enhance_language_quality (enhance_language_quality soft_resume)
    = enhance_language_quality soft_resume.
Proof.
  assert (H : Forall phrase_free
                (all_bullets (enhance_language_quality soft_resume))).
  { repeat constructor. }
  split; [exact H|].
  exact (proj2 (proj2 (enhance_language_quality_idempotent_when_free soft_resume))
           H).
Defined.

(** ** The score ranges *)

Lemma skill_points_percent m r : skill_points m r = percent_points 50 m r.
Proof. reflexivity. Qed.

Lemma percent_points_nonneg k m r :
  (0 ≤ k)%Z → (0 ≤ m)%Z → (0 < r)%Z → (0 ≤ percent_points k m r)%Z.
Proof.
  intros Hk Hm Hr. unfold percent_points, Binary64.truediv, Binary64.to_int.
  pose proof (Binary64Facts.round53_mant_nonneg m r Hm Hr) as H1.
  pose proof (Binary64Facts.mul_int_mant_nonneg _ k H1 Hk) as H2.
  destruct (Binary64Facts.to_frac_sign _ H2) as [Hn Hd].
  destruct (Binary64.to_frac _) as [n d]. cbn [fst snd] in *.
  apply Z.div_pos; lia.
Qed.

(** The quotient of equal lengths is the float 1.0. *)
Lemma percent_points_upper k m r :
  (0 ≤ k)%Z → (0 ≤ m)%Z → (m ≤ r)%Z → (0 < r)%Z →
  (percent_points k m r ≤ percent_points k 1 1)%Z.
Proof.
  intros Hk Hm Hmr Hr. unfold percent_points, Binary64.truediv.
  pose proof (Binary64Facts.round53_mant_nonneg m r Hm Hr).
  pose proof (Binary64Facts.round53_mant_nonneg 1 1 ltac:(lia) ltac:(lia)).
  apply Binary64Facts.to_int_mono;
    try (apply Binary64Facts.mul_int_mant_nonneg; lia).
  apply Binary64Facts.mul_int_mono; try lia.
  apply Binary64Facts.round53_mono; lia.
Qed.

Lemma percent_points_full k r :
  (0 ≤ k)%Z → (0 < r)%Z → percent_points k r r = percent_points k 1 1.
Proof.
  intros Hk Hr. apply Z.le_antisymm.
  - apply percent_points_upper; lia.
  - unfold percent_points, Binary64.truediv.
    pose proof (Binary64Facts.round53_mant_nonneg r r ltac:(lia) Hr).
    pose proof (Binary64Facts.round53_mant_nonneg 1 1 ltac:(lia) ltac:(lia)).
    apply Binary64Facts.to_int_mono;
      try (apply Binary64Facts.mul_int_mant_nonneg; lia).
    apply Binary64Facts.mul_int_mono; try lia.
    apply Binary64Facts.round53_mono; lia.
Qed.

Lemma percent_points_zero k r : percent_points k 0 r = 0%Z.
Proof. reflexivity. Qed.

Lemma skill_points_range m r :
  (0 ≤ m)%Z → (m ≤ r)%Z → (0 < r)%Z → (0 ≤ skill_points m r ≤ 50)%Z.
Proof.
  intros Hm Hmr Hr. rewrite skill_points_percent. split.
  - apply percent_points_nonneg; lia.
  - etrans; [apply percent_points_upper; lia|]. vm_compute. discriminate.
Qed.

Lemma matched_set_size job_roles pd role :
  size (matched_set job_roles pd role) ≤ size (required_set job_roles role).
Proof. apply subseteq_size. unfold matched_set. set_solver. Qed.

Lemma present_fields_le_4 pd : present_fields pd ≤ 4.
Proof. unfold present_fields. repeat case_bool_decide; lia. Qed.

(** X1. Every score result has a skill score in 0..50, a keyword score in
    0..30, a completeness score in 0..20 and a total in 0..100, the sum of
    the three; the cap at 100 never bites. *)
Theorem calculate_ats_score_ranges
    (job_roles : list (string * list string))
    (set_list : gset string → list string)
    (parsed_data : ParsedData) (job_role : string) :
  let res := calculate_ats_score job_roles set_list parsed_data job_role in
  (0 ≤ skill_score res ≤ 50)%Z
  ∧ (0 ≤ keyword_score res ≤ 30)%Z
  ∧ (0 ≤ completeness_score res ≤ 20)%Z
  ∧ (0 ≤ ats_score res ≤ 100)%Z
  ∧ ats_score res
    = (skill_score res + keyword_score res + completeness_score res)%Z.
Proof.
  intros res.
  assert (Hs : (0 ≤ skill_score res ≤ 50)%Z).
  { subst res. rewrite skill_score_unfold. cbv zeta.
    fold (matched_set job_roles parsed_data job_role).
    destruct (Nat.ltb_spec 0 (size (required_set job_roles job_role))); [|lia].
    pose proof (matched_set_size job_roles parsed_data job_role).
    apply skill_points_range; lia. }
  assert (Hk : (0 ≤ keyword_score res ≤ 30)%Z).
  { subst res. rewrite keyword_score_spec. lia. }
  assert (Hc : (0 ≤ completeness_score res ≤ 20)%Z).
  { subst res. rewrite completeness_score_spec.
    pose proof (present_fields_le_4 parsed_data). lia. }
  assert (Ht : ats_score res
               = Z.min (skill_score res + keyword_score res
                        + completeness_score res) 100)
    by apply ats_score_spec.
  repeat split; try lia.
Qed.

(** X2. When the role has required skills and the resume lists every one of
    them in some letter case, the skill score is 50; when it lists none of
    them, the skill score is 0. *)
Theorem skill_score_extremes
    (job_roles : list (string * list string))
    (set_list : gset string → list string)
    (parsed_data : ParsedData) (job_role : string) :
  let res := calculate_ats_score job_roles set_list parsed_data job_role in
  let required := dict_get_list job_roles job_role in
  (required ≠ [] →
   (∀ s, s ∈ required → lower s ∈ lower <$> pd_skills parsed_data) →
   skill_score res = 50%Z)
  ∧ ((∀ s, s ∈ required → lower s ∉ lower <$> pd_skills parsed_data) →
     skill_score res = 0%Z).
Proof.
  intros res required. subst res.
  rewrite skill_score_unfold. cbv zeta.
  fold (matched_set job_roles parsed_data job_role). split.
  - intros Hne Hall.
    assert (Hm : matched_set job_roles parsed_data job_role
                 = required_set job_roles job_role).
    { unfold matched_set, resume_set, required_set. fold required.
      apply set_eq. intros x. rewrite elem_of_intersection.
      rewrite !elem_of_list_to_set. split; [tauto|]. intros Hx.
      split; [|done]. apply list_elem_of_fmap in Hx as (s & -> & Hs).
      by apply Hall. }
    rewrite Hm.
    assert (Hpos : 0 < size (required_set job_roles job_role)).
    { unfold required_set. fold required. destruct required as [|s l]; [done|].
      rewrite fmap_cons, list_to_set_cons.
      assert (HH : size ({[lower s]} ∪ list_to_set (lower <$> l) : gset string) ≠ 0).
      { intros H0. apply size_empty_inv in H0. set_solver. }
      lia. }
    destruct (Nat.ltb_spec 0 (size (required_set job_roles job_role))); [|lia].
    rewrite skill_points_percent, percent_points_full by lia.
    reflexivity.
  - intros Hnone.
    assert (Hm : matched_set job_roles parsed_data job_role = ∅).
    { unfold matched_set, resume_set, required_set. fold required.
      apply set_eq. intros x. rewrite elem_of_intersection.
      rewrite !elem_of_list_to_set. split; [|set_solver].
      intros [Hx Hr]. apply list_elem_of_fmap in Hr as (s & -> & Hs).
      by destruct (Hnone s Hs). }
    rewrite Hm, size_empty.
    by destruct (0 <? size (required_set job_roles job_role)).
Qed.

Lemma skill_score_extremes_witness :
  let pd := mk_parsed "Ann" "" "" ["SQL"; "Python"; "API"; "Flask"; "Git"] "" in
  dict_get_list CRITICAL_SKILLS "Backend Developer" ≠ []
  ∧ skill_score
      (calculate_ats_score CRITICAL_SKILLS elements pd "Backend Developer")
    = 50%Z.
Proof.
  intros pd.
  assert (H1 : dict_get_list CRITICAL_SKILLS "Backend Developer" ≠ [])
    by (vm_compute; discriminate).
  split; [exact H1|].
  apply (proj1 (skill_score_extremes CRITICAL_SKILLS elements pd
                  "Backend Developer") H1).
  intros s Hs. change (s ∈ ["python"; "flask"; "api"; "sql"]) in Hs.
  repeat (apply elem_of_cons in Hs as [->|Hs]; [compute_done|]).
  by apply elem_of_nil in Hs.
Defined.



Lemma filter_Forall_nil {A : Type} (P : A → Prop) `{!∀ x, Decision (P x)}
    (l : list A) :
  Forall (λ x, ¬ P x) l → filter P l = [].
Proof.
  induction 1 as [|x l Hx _ IH]; [done|].
  by rewrite filter_cons, decide_False.
Qed.

(** X4. When [list(a_set)] lists a set without repetition, the matched and
    the missing skills of a score result together are exactly the role's
    lower-cased required skills, each once; the matched ones are lower-cased
    resume skills, the missing ones are not; and the classification of the
    missing skills is trivial: all critical, none optional. *)
Theorem calculate_ats_score_partition
    (job_roles : list (string * list string))
    (set_list : gset string → list string)
    (parsed_data : ParsedData) (job_role : string) :
  (∀ X, set_list X ≡ₚ elements X) →
  let res := calculate_ats_score job_roles set_list parsed_data job_role in
  matched_skills res ++ missing_skills res
  ≡ₚ remove_dups (lower <$> dict_get_list job_roles job_role)
  ∧ (∀ s, s ∈ matched_skills res → s ∈ lower <$> pd_skills parsed_data)
  ∧ (∀ s, s ∈ missing_skills res → s ∉ lower <$> pd_skills parsed_data)
  ∧ critical (missing_classified res) = missing_skills res
  ∧ optional (missing_classified res) = [].
Proof.
  intros Hlist res.
  set (R := required_set job_roles job_role).
  set (S := resume_set parsed_data).
  assert (Hmat : matched_skills res = set_list (S ∩ R)) by done.
  assert (Hmis : missing_skills res = set_list (R ∖ S)) by done.
  assert (Hcl : missing_classified res
                = classify_missing_skills job_role (missing_skills res)
                    (dict_get_list job_roles job_role)) by done.
  assert (Hin : ∀ s, s ∈ missing_skills res →
                     s ∈ R ∧ (s ∉ S) ∧ lower s = s).
  { intros s Hs. rewrite Hmis, Hlist in Hs. apply elem_of_elements in Hs.
    apply elem_of_difference in Hs as [HR HS]. split; [done|]. split; [done|].
    by apply (lower_fixed_in_lower_set _ _ HR). }
  split; [|split; [|split; [|split]]].
  - rewrite Hmat, Hmis, !Hlist.
    rewrite <- elements_disj_union by set_solver.
    assert (E : S ∩ R ∪ R ∖ S = R).
    { apply set_eq. intros x. destruct (decide (x ∈ S)); set_solver. }
    rewrite E. unfold R, required_set.
    apply NoDup_Permutation.
    + apply NoDup_elements.
    + apply NoDup_remove_dups.
    + intros x. by rewrite elem_of_elements, elem_of_list_to_set,
        elem_of_remove_dups.
  - intros s Hs. rewrite Hmat, Hlist in Hs. apply elem_of_elements in Hs.
    apply elem_of_intersection in Hs as [HS _].
    by apply elem_of_list_to_set in HS.
  - intros s Hs Hc. destruct (Hin s Hs) as (_ & HS & _). apply HS.
    by apply elem_of_list_to_set.
  - rewrite Hcl, classify_missing_skills_filter. cbn [critical].
    apply filter_Forall_id, Forall_forall. intros s Hs.
    destruct (Hin s Hs) as (HR & _ & Hl). rewrite Hl.
    by apply elem_of_list_to_set in HR.
  - rewrite Hcl, classify_missing_skills_filter. cbn [optional].
    apply filter_Forall_nil, Forall_forall. intros s Hs Hnot.
    destruct (Hin s Hs) as (HR & _ & Hl). apply Hnot. rewrite Hl.
    by apply elem_of_list_to_set in HR.
Qed.

Lemma calculate_ats_score_partition_witness :
  (∀ X : gset string, elements X ≡ₚ elements X)
  ∧ optional
      (missing_classified
         (calculate_ats_score CRITICAL_SKILLS elements
            (mk_parsed "Ann" "" "" ["Python"; "Git"] "") "Backend Developer"))
    = [].
Proof.
  assert (H : ∀ X : gset string, elements X ≡ₚ elements X) by done.
  split; [exact H|].
  apply (calculate_ats_score_partition CRITICAL_SKILLS elements
           (mk_parsed "Ann" "" "" ["Python"; "Git"] "") "Backend Developer" H).
Defined.

Lemma ats_scores_mono
    (job_roles : list (string * list string))
    (set_list : gset string → list string)
    (pd1 pd2 : ParsedData) (job_role : string) :
  pd_name pd1 = pd_name pd2 →
  pd_email pd1 = pd_email pd2 →
  pd_phone pd1 = pd_phone pd2 →
  resume_set pd1 ⊆ resume_set pd2 →
  (pd_skills pd1 ≠ [] → pd_skills pd2 ≠ []) →
  let res1 := calculate_ats_score job_roles set_list pd1 job_role in
  let res2 := calculate_ats_score job_roles set_list pd2 job_role in
  (skill_score res1 ≤ skill_score res2)%Z
  ∧ (keyword_score res1 ≤ keyword_score res2)%Z
  ∧ (completeness_score res1 ≤ completeness_score res2)%Z
  ∧ (ats_score res1 ≤ ats_score res2)%Z.
Proof.
  intros Hn He Hp Hset Hne res1 res2.
  assert (Hs : (skill_score res1 ≤ skill_score res2)%Z).
  { apply skill_score_matched_mono, subseteq_size. unfold matched_set.
    set_solver. }
  assert (Hk : (keyword_score res1 ≤ keyword_score res2)%Z).
  { subst res1 res2. rewrite !keyword_score_spec, <- !size_resume_set.
    apply subseteq_size in Hset. lia. }
  assert (Hc : (completeness_score res1 ≤ completeness_score res2)%Z).
  { subst res1 res2. unfold calculate_ats_score, completeness_points.
    cbn [completeness_score]. rewrite Hn, He, Hp.
    assert (truthy_list (pd_skills pd1) = true →
            truthy_list (pd_skills pd2) = true).
    { destruct (pd_skills pd1) as [|a l]; [done|]. intros _.
      destruct (pd_skills pd2) as [|b l2]; [|done]. by destruct Hne. }
    destruct (truthy_list (pd_skills pd1)), (truthy_list (pd_skills pd2));
      try lia. }
  split; [done|]. split; [done|]. split; [done|].
  subst res1 res2. rewrite !ats_score_spec. cbv zeta. lia.
Qed.

Lemma resume_set_mono pd1 pd2 :
  pd_skills pd1 ⊆ pd_skills pd2 → resume_set pd1 ⊆ resume_set pd2.
Proof.
  intros Hsub. unfold resume_set. intros x. rewrite !elem_of_list_to_set.
  rewrite !list_elem_of_fmap. intros (s & -> & Hs). exists s. split; [done|].
  by apply Hsub.
Qed.

(** X5. Listing more skills never lowers a score: when the second record
    has the same name, email and phone and lists every skill of the first
    (and maybe more), each of its sub-scores and its total are at least
    those of the first. *)
Theorem calculate_ats_score_more_skills
    (job_roles : list (string * list string))
    (set_list : gset string → list string)
    (pd1 pd2 : ParsedData) (job_role : string) :
  pd_name pd1 = pd_name pd2 →
  pd_email pd1 = pd_email pd2 →
  pd_phone pd1 = pd_phone pd2 →
  pd_skills pd1 ⊆ pd_skills pd2 →
  let res1 := calculate_ats_score job_roles set_list pd1 job_role in
  let res2 := calculate_ats_score job_roles set_list pd2 job_role in
  (skill_score res1 ≤ skill_score res2)%Z
  ∧ (keyword_score res1 ≤ keyword_score res2)%Z
  ∧ (completeness_score res1 ≤ completeness_score res2)%Z
  ∧ (ats_score res1 ≤ ats_score res2)%Z.
Proof.
  intros Hn He Hp Hsub.
  apply ats_scores_mono; [done|done|done| |].
  - by apply resume_set_mono.
  - destruct (pd_skills pd1) as [|skill skills]; [done|]. intros _ Hnil.
    specialize (Hsub skill (list_elem_of_here _ _)). rewrite Hnil in Hsub.
    by apply elem_of_nil in Hsub.
Qed.

Lemma calculate_ats_score_more_skills_witness :
  let pd1 := mk_parsed "Ann" "a@b.c" "5" ["python"] "" in
  let pd2 := mk_parsed "Ann" "a@b.c" "5" ["git"; "python"; "sql"] "" in
  pd_skills pd1 ⊆ pd_skills pd2
  ∧ (ats_score (calculate_ats_score CRITICAL_SKILLS elements pd1 "Backend Developer")
     ≤ ats_score (calculate_ats_score CRITICAL_SKILLS elements pd2 "Backend Developer"))%Z.
Proof.
  intros pd1 pd2.
  assert (H : pd_skills pd1 ⊆ pd_skills pd2).
  { intros s Hs. apply list_elem_of_singleton in Hs as ->. compute_done. }
  split; [exact H|].
  apply (calculate_ats_score_more_skills CRITICAL_SKILLS elements pd1 pd2
           "Backend Developer" eq_refl eq_refl eq_refl H).
Defined.

(** ** Skill diversity *)

Lemma category_settled_step role skills X cat :
  category_settled role X cat = true →
  diversity_step role (skills, X) cat = (skills, X).
Proof.
  unfold category_settled, diversity_step. intros H.
  destruct (existsb _ _); [done|]. simpl in H.
  destruct (dict_get _ role) as [fb|]; [|done].
  destruct (truthy fb); [|done]. simpl in *. by rewrite H.
Qed.

Lemma category_settled_mono role X Y cat :
  X ⊆ Y → category_settled role X cat = true → category_settled role Y cat = true.
Proof.
  unfold category_settled. intros HXY H.
  apply orb_true_iff in H as [H|H]; apply orb_true_iff.
  - left. apply existsb_exists in H as (kw & Hkw & Hx).
    apply existsb_exists. exists kw. split; [done|].
    apply bool_decide_eq_true in Hx. apply bool_decide_eq_true. set_solver.
  - right. destruct (dict_get _ role) as [fb|]; [|done].
    apply orb_true_iff in H as [H|H]; apply orb_true_iff; [by left|right].
    apply bool_decide_eq_true in H. apply bool_decide_eq_true. set_solver.
Qed.

(** One step: the set follows the list, grows, and settles the category. *)
Lemma diversity_step_inv role skills X cat :
  X = list_to_set (lower <$> skills) →
  let st := diversity_step role (skills, X) cat in
  st.2 = list_to_set (lower <$> st.1)
  ∧ (X ⊆ st.2)
  ∧ category_settled role st.2 cat = true
  ∧ (NoDup (lower <$> skills) → NoDup (lower <$> st.1)).
Proof.
  intros HX st.
  destruct (category_settled role X cat) eqn:Hs.
  - subst st. rewrite category_settled_step by done. cbn [fst snd].
    split; [done|]. split; [done|]. split; [done|]. done.
  - unfold category_settled in Hs. apply orb_false_iff in Hs as [Hk Hf].
    destruct (dict_get (fallbacks cat.2) role) as [fb|] eqn:Hfb; [|done].
    apply orb_false_iff in Hf as [Ht Hin]. apply negb_false_iff in Ht.
    apply bool_decide_eq_false in Hin.
    assert (Est : st = (skills ++ [fb], X ∪ {[lower fb]})).
    { subst st. unfold diversity_step. rewrite Hk, Hfb, Ht.
      by rewrite bool_decide_eq_false_2. }
    rewrite Est. cbn [fst snd]. split; [|split; [set_solver|split]].
    + rewrite fmap_app, list_to_set_app_L, HX. cbn. set_solver.
    + unfold category_settled. rewrite Hfb, Ht.
      rewrite (bool_decide_eq_true_2 (lower fb ∈ X ∪ {[lower fb]}))
        by set_solver.
      by rewrite !orb_true_r.
    + intros Hnd. rewrite fmap_app. apply NoDup_app. split; [done|].
      split; [|apply NoDup_singleton].
      intros x Hx Hx'. apply list_elem_of_singleton in Hx' as ->.
      apply Hin. rewrite HX. by apply elem_of_list_to_set.
Qed.

Lemma diversity_fold_inv role cats skills X :
  X = list_to_set (lower <$> skills) →
  let st := fold_left (diversity_step role) cats (skills, X) in
  st.2 = list_to_set (lower <$> st.1)
  ∧ (X ⊆ st.2)
  ∧ Forall (λ cat, category_settled role st.2 cat = true) cats
  ∧ (NoDup (lower <$> skills) → NoDup (lower <$> st.1)).
Proof.
  revert skills X. induction cats as [|cat cats IH]; intros skills X HX.
  - cbn. done.
  - cbn [fold_left].
    destruct (diversity_step_inv role skills X cat HX) as (H1 & H2 & H3 & H4).
    destruct (diversity_step role (skills, X) cat) as [skills1 X1].
    cbn [fst snd] in *.
    destruct (IH skills1 X1 H1) as (I1 & I2 & I3 & I4).
    split; [done|]. split; [set_solver|]. split; [|tauto].
    constructor; [|done]. by eapply category_settled_mono.
Qed.

Lemma diversity_fold_settled role cats skills X :
  Forall (λ cat, category_settled role X cat = true) cats →
  fold_left (diversity_step role) cats (skills, X) = (skills, X).
Proof.
  induction 1 as [|cat cats H _ IH]; [done|].
  cbn [fold_left]. by rewrite category_settled_step.
Qed.

Lemma set_skills_list_same r : set_skills_list r (skills_list r) = r.
Proof. by destruct r. Qed.

(** X6. Skill diversity validation is idempotent: a second call with the
    same role adds nothing. *)
Theorem validate_resume_diversity_idempotent (resume_data : Resume) (role : string) :
  validate_resume_diversity (validate_resume_diversity resume_data role) role
  = validate_resume_diversity resume_data role.
Proof.
  unfold validate_resume_diversity.
  destruct (diversity_fold_inv role _SKILL_CATEGORIES (skills_list resume_data)
              _ eq_refl) as (H1 & _ & H3 & _).
  set (st := fold_left (diversity_step role) _SKILL_CATEGORIES
               (skills_list resume_data,
                list_to_set (lower <$> skills_list resume_data))) in *.
  cbn [skills_list set_skills_list]. rewrite <- H1.
  by rewrite diversity_fold_settled.
Qed.

(** X7. After skill diversity validation every category of the taxonomy is
    represented: the skills list contains, in lower case, a keyword of the
    category or the fallback that the category has for the role (if it has
    one; the five supported roles have one in every category).  For a role
    without fallbacks the resume is unchanged. *)
Theorem validate_resume_diversity_covers (resume_data : Resume) (role : string) :
  let after := validate_resume_diversity resume_data role in
  let present := lower <$> skills_list after in
  Forall (λ cat : string * Category,
            (∃ kw, kw ∈ keywords cat.2 ∧ kw ∈ present)
            ∨ (∀ fallback, dict_get (fallbacks cat.2) role = Some fallback →
                           lower fallback ∈ present))
    _SKILL_CATEGORIES
  ∧ (role ∈ ["Web Developer"; "Backend Developer"; "Data Analyst";
              "ML Engineer"; "Software Engineer"] →
     Forall (λ cat : string * Category,
               is_Some (dict_get (fallbacks cat.2) role)) _SKILL_CATEGORIES)
  ∧ (Forall (λ cat : string * Category,
               dict_get (fallbacks cat.2) role = None) _SKILL_CATEGORIES →
     after = resume_data).
Proof.
  intros after present. split; [|split].
  - subst present after. unfold validate_resume_diversity.
    destruct (diversity_fold_inv role _SKILL_CATEGORIES (skills_list resume_data)
                _ eq_refl) as (H1 & _ & H3 & _).
    destruct (fold_left _ _ _) as [skills1 X1]. cbn [fst snd skills_list set_skills_list] in *.
    assert (Htruthy : Forall (λ cat : string * Category,
                        Forall (λ kv, truthy kv.2 = true) (fallbacks cat.2))
                        _SKILL_CATEGORIES)
      by (unfold _SKILL_CATEGORIES; repeat constructor).
    rewrite Forall_forall in H3. rewrite Forall_forall in Htruthy.
    apply Forall_forall. intros cat Hcat.
    specialize (H3 cat Hcat). specialize (Htruthy cat Hcat).
    unfold category_settled in H3. apply orb_true_iff in H3 as [H3|H3].
    + left. apply existsb_exists in H3 as (kw & Hkw & Hx).
      exists kw. split; [by apply list_elem_of_In|].
      apply bool_decide_eq_true in Hx. rewrite H1 in Hx.
      by apply elem_of_list_to_set in Hx.
    + right. intros fb Hfb. rewrite Hfb in H3.
      rewrite (dict_get_Forall (λ v, truthy v = true) _ _ _ Htruthy Hfb) in H3.
      cbn in H3. apply bool_decide_eq_true in H3. rewrite H1 in H3.
      by apply elem_of_list_to_set in H3.
  - intros Hrole.
    repeat (apply elem_of_cons in Hrole as [->|Hrole];
            [unfold _SKILL_CATEGORIES; repeat constructor; by eexists|]).
    by apply elem_of_nil in Hrole.
  - intros Hnone. subst after. unfold validate_resume_diversity.
    rewrite diversity_fold_settled; [apply set_skills_list_same|].
    eapply Forall_impl; [exact Hnone|]. intros cat Hc.
    unfold category_settled. rewrite Hc. apply orb_true_r.
Qed.

(** ** What the whole pipeline preserves *)

(** A property of resumes kept by each of the five mutating stages is kept
    by the orchestrator. *)
Lemma refine_for_ats_preserves (P : Resume → Prop)
    (job_roles : list (string * list string)) :
  (∀ r, P r → P (enhance_language_quality r)) →
  (∀ r role, P r → P (validate_resume_diversity r role)) →
  (∀ r res role, P r → P (inject_missing_role_skills r res role)) →
  (∀ r role m, P r → P (inject_complementary_skills job_roles r role m)) →
  (∀ r v, P r → P (set_full_text r v)) →
  ∀ r role fn m n, P r → P (refine_for_ats job_roles r role fn m n).1.
Proof.
  intros Hpol Hdiv Hinj Hcomp Htext r role fn m n Hr.
  unfold refine_for_ats, refine_after_normalize.
  set (srole := _normalize_role job_roles role).
  assert (Hloop : ∀ k r0 res, P r0 → P (injection_loop fn srole k r0 res).1.2).
  { induction k as [|k IH]; intros r0 res H0; [done|].
    cbn [injection_loop]. unfold _rebuild_and_score.
    destruct (90 <=? _)%Z; [cbn; by apply Htext, Hinj|].
    destruct (negb _); [cbn; by apply Htext, Hinj|].
    by apply IH, Htext, Hinj. }
  unfold _rebuild_and_score at 1.
  destruct (90 <=? _)%Z; [cbn; by apply Htext, Hdiv, Hpol|].
  match goal with |- context [injection_loop fn srole n ?r0 ?res] =>
    specialize (Hloop n r0 res ltac:(by apply Htext, Hdiv, Hpol));
    destruct (injection_loop fn srole n r0 res) as [[ex r4] res4] end.
  cbn [fst snd] in Hloop. destruct ex; [done|].
  destruct (_ <? 90)%Z; [|done].
  cbn. by apply Htext, Hcomp.
Qed.

Lemma inject_fold_preserves (P : Resume → Prop) :
  (∀ r cur idx skill, P r → P (inject_step (r, cur, idx) skill).1.1) →
  ∀ r res role, P r → P (inject_missing_role_skills r res role).
Proof.
  intros Hstep r res role Hr. unfold inject_missing_role_skills.
  destruct (negb _); [done|].
  generalize (take 2 (missing_skills res)) as cands.
  generalize (list_to_set (lower <$> skills_list r) : gset string) as cur.
  generalize 0 as idx. revert r Hr.
  intros r Hr idx cur cands. revert r Hr idx cur.
  induction cands as [|s cands IH]; intros r Hr idx cur; [done|].
  cbn [fold_left]. specialize (Hstep r cur idx s Hr).
  destruct (inject_step (r, cur, idx) s) as [[r' cur'] idx'].
  by apply IH.
Qed.

(** *** Bullet caps *)

Lemma offer_bullet_length cap bullets bullet :
  1 ≤ cap → length bullets ≤ cap →
  length (offer_bullet cap bullets bullet) ≤ cap.
Proof.
  intros Hc Hl. unfold offer_bullet. destruct bullets as [|b bs]; [done|].
  cbn [truthy_list]. destruct (Nat.ltb_spec (length (b :: bs)) cap); [|done].
  rewrite length_app. simpl in *. lia.
Qed.

Lemma inject_step_within_caps r cur idx skill :
  within_caps r → within_caps (inject_step (r, cur, idx) skill).1.1.
Proof.
  intros [He Hp]. unfold inject_step. case_bool_decide; [done|].
  cbn [fst]. cbn [experience projects set_skills_list].
  destruct (truthy_list (experience r)).
  - split; [|done]. cbn [experience set_experience].
    apply Forall_alter; [done|]. intros e _ Hl. cbn.
    apply offer_bullet_length; lia.
  - destruct (truthy_list (projects r)); [|done].
    split; [done|]. cbn [projects set_projects].
    apply Forall_alter; [done|]. intros p _ Hl. cbn.
    apply offer_bullet_length; lia.
Qed.

Lemma enhance_language_quality_within_caps r :
  within_caps r → within_caps (enhance_language_quality r).
Proof.
  intros [He Hp]. split.
  - rewrite enhance_experience. apply Forall_fmap.
    eapply Forall_impl; [exact He|]. intros e Hl. cbn. by rewrite length_fmap.
  - rewrite enhance_projects. apply Forall_fmap.
    eapply Forall_impl; [exact Hp|]. intros p Hl. cbn. by rewrite length_fmap.
Qed.

(** X8. A full run keeps the bullet caps: when every experience entry has
    at most 4 bullets and every project at most 3 before the run, the same
    holds after it, whatever the role, catalog and scoring function. *)
Theorem refine_for_ats_within_caps
    (job_roles : list (string * list string)) (resume_data : Resume)
    (role : string) (calculate_ats_score_fn : ParsedData → string → AtsResult)
    (role_skills_map : list (string * list string)) (max_attempts : nat) :
  within_caps resume_data →
  within_caps
    (refine_for_ats job_roles resume_data role calculate_ats_score_fn
       role_skills_map max_attempts).1.
Proof.
  apply (refine_for_ats_preserves within_caps).
  - apply enhance_language_quality_within_caps.
  - done.
  - apply inject_fold_preserves, inject_step_within_caps.
  - done.
  - done.
Qed.

Lemma refine_for_ats_within_caps_witness :
  within_caps soft_resume
  ∧ within_caps
      (refine_for_ats broad_catalog soft_resume "Software Engineer"
         (calculate_ats_score broad_catalog elements) ROLE_SKILLS
         default_max_attempts).1.
Proof.
  assert (H : within_caps soft_resume).
  { split; repeat constructor. }
  split; [exact H|].
  exact (refine_for_ats_within_caps broad_catalog soft_resume
           "Software Engineer" (calculate_ats_score broad_catalog elements)
           ROLE_SKILLS default_max_attempts H).
Defined.

(** *** Case-insensitive uniqueness of the skills *)

Lemma fresh_skills_NoDup cands l X :
  X = list_to_set (lower <$> l) →
  NoDup (lower <$> l) →
  NoDup (lower <$> (l ++ fresh_skills X cands)).
Proof.
  revert l X. induction cands as [|s cs IH]; intros l X HX Hnd.
  - cbn. by rewrite app_nil_r.
  - cbn [fresh_skills]. case_bool_decide as Hs; [by apply IH|].
    rewrite cons_middle, (assoc_L (++)). apply IH.
    + rewrite fmap_app, list_to_set_app_L, HX. cbn. set_solver.
    + rewrite fmap_app. apply NoDup_app. split; [done|].
      split; [|apply NoDup_singleton].
      intros x Hx Hx'. apply list_elem_of_singleton in Hx' as ->.
      apply Hs. rewrite HX. by apply elem_of_list_to_set.
Qed.

Lemma complementary_loop_take cands skills current seen added :
  seen ⊆ current → added < max_to_add →
  complementary_loop cands skills current seen added
  = skills ++ take (max_to_add - added) (fresh_skills current cands).
Proof.
  revert skills current seen added.
  induction cands as [|s cs IH]; intros skills current seen added Hsub Ha.
  - cbn. by rewrite take_nil, app_nil_r.
  - cbn [complementary_loop fresh_skills].
    destruct (decide (lower s ∈ current)) as [Hin|Hin].
    + rewrite (bool_decide_eq_true_2 _ Hin). cbn [negb andb]. by apply IH.
    + rewrite (bool_decide_eq_false_2 _ Hin).
      rewrite (bool_decide_eq_false_2 (lower s ∈ seen)) by set_solver.
      cbn [negb andb].
      destruct (Nat.leb_spec max_to_add (S added)) as [Hfull|Hroom].
      * replace (max_to_add - added) with 1 by lia. done.
      * rewrite IH by (set_solver || lia).
        replace (max_to_add - added) with (S (max_to_add - S added)) by lia.
        cbn [take]. by rewrite <- app_assoc.
Qed.

(** X9. The complementary stage appends to the skills list the first five
    candidates that are new up to letter case (new against the list and
    against the candidates before them), in candidate order, or all of them
    if there are fewer; it changes nothing else. *)
Theorem inject_complementary_skills_appends
    (job_roles : list (string * list string)) (resume_data : Resume)
    (role : string) (role_skills_map : list (string * list string)) :
  let after :=
    inject_complementary_skills job_roles resume_data role role_skills_map in
  let candidates := complementary_candidates job_roles role role_skills_map in
  let absent s := lower s ∉ lower <$> skills_list resume_data in
  skills_list after
  = skills_list resume_data ++ take 5 (filter absent (dedup_ci candidates))
  ∧ after = set_skills_list resume_data (skills_list after).
Proof.
  intros after candidates absent. subst after.
  unfold inject_complementary_skills. cbn [skills_list set_skills_list].
  split; [|done].
  rewrite complementary_loop_take by (set_solver || (unfold max_to_add; lia)).
  rewrite fresh_skills_filter. unfold max_to_add. cbn [Nat.sub].
  f_equal. f_equal. apply list_filter_iff. intros s. subst absent. cbv beta.
  by rewrite elem_of_list_to_set.
Qed.

(** X10. A full run keeps the skills list free of case-insensitive
    duplicates: if no two skills agree up to letter case before the run,
    none do after it. *)
Theorem refine_for_ats_skills_unique
    (job_roles : list (string * list string)) (resume_data : Resume)
    (role : string) (calculate_ats_score_fn : ParsedData → string → AtsResult)
    (role_skills_map : list (string * list string)) (max_attempts : nat) :
  skills_unique resume_data →
  skills_unique
    (refine_for_ats job_roles resume_data role calculate_ats_score_fn
       role_skills_map max_attempts).1.
Proof.
  apply (refine_for_ats_preserves skills_unique).
  - done.
  - intros r role0 Hr. unfold skills_unique, validate_resume_diversity.
    cbn [skills_list set_skills_list].
    by apply (diversity_fold_inv role0 _SKILL_CATEGORIES (skills_list r) _ eq_refl).
  - intros r res role0 Hr. unfold skills_unique, inject_missing_role_skills.
    destruct (negb _); [done|]. rewrite inject_fold_skills.
    by apply fresh_skills_NoDup.
  - intros r role0 m Hr. unfold skills_unique, inject_complementary_skills.
    cbn [skills_list set_skills_list].
    rewrite complementary_loop_take by (set_solver || (unfold max_to_add; lia)).
    eapply sublist_NoDup; [apply (fresh_skills_NoDup
      (complementary_candidates job_roles role0 m) (skills_list r) _ eq_refl Hr)|].
    apply fmap_sublist, sublist_app; [done|apply sublist_take].
  - done.
Qed.

Lemma refine_for_ats_skills_unique_witness :
  skills_unique soft_resume
  ∧ skills_unique
      (refine_for_ats broad_catalog soft_resume "Software Engineer"
         (calculate_ats_score broad_catalog elements) ROLE_SKILLS
         default_max_attempts).1.
Proof.
  assert (H : skills_unique soft_resume).
  { unfold skills_unique. apply (bool_decide_unpack _). vm_compute. exact I. }
  split; [exact H|].
  exact (refine_for_ats_skills_unique broad_catalog soft_resume
           "Software Engineer" (calculate_ats_score broad_catalog elements)
           ROLE_SKILLS default_max_attempts H).
Defined.

(** *** The returned score belongs to the returned resume *)

Lemma rebuild_and_score_up_to_date r role fn :
  up_to_date fn role (_rebuild_and_score r role fn).
Proof. by unfold up_to_date, _rebuild_and_score. Qed.

Lemma injection_loop_up_to_date fn role n r res :
  up_to_date fn role (r, res) →
  let out := injection_loop fn role n r res in
  up_to_date fn role (out.1.2, out.2).
Proof.
  revert r res. induction n as [|n IH]; intros r res H; [done|].
  cbn [injection_loop].
  pose proof (rebuild_and_score_up_to_date
                (inject_missing_role_skills r res role) role fn) as H1.
  destruct (_rebuild_and_score _ role fn) as [r2 res2].
  destruct (90 <=? _)%Z; [done|]. destruct (negb _); [done|]. by apply IH.
Qed.

Lemma refine_for_ats_result_fresh job_roles r role fn m n :
  up_to_date fn (_normalize_role job_roles role)
    (refine_for_ats job_roles r role fn m n).
Proof.
  unfold refine_for_ats, refine_after_normalize.
  set (srole := _normalize_role job_roles role).
  set (r2 := validate_resume_diversity _ srole).
  pose proof (rebuild_and_score_up_to_date r2 srole fn) as H1.
  destruct (_rebuild_and_score r2 srole fn) as [r3 res3].
  destruct (90 <=? _)%Z; [exact H1|].
  pose proof (injection_loop_up_to_date fn srole n r3 res3 H1) as H2.
  destruct (injection_loop fn srole n r3 res3) as [[ex r4] res4].
  cbn [fst snd] in H2. destruct ex; [exact H2|].
  destruct (_ <? 90)%Z; [|exact H2].
  apply rebuild_and_score_up_to_date.
Qed.

(** X11. Whatever path the orchestrator takes, the score it returns is the
    scoring function applied to the resume it returns, for the normalised
    role, and the text of the returned resume is the text rebuilt from its
    fields: no stale text and no stale score leave the pipeline. *)
Theorem refine_for_ats_up_to_date
    (job_roles : list (string * list string)) (resume_data : Resume)
    (role : string) (calculate_ats_score_fn : ParsedData → string → AtsResult)
    (role_skills_map : list (string * list string)) (max_attempts : nat) :
  let out :=
    refine_for_ats job_roles resume_data role calculate_ats_score_fn
      role_skills_map max_attempts in
  out.2
  = calculate_ats_score_fn (build_parsed_data out.1)
      (_normalize_role job_roles role)
  ∧ full_text out.1 = _build_full_text out.1.
Proof.
  intros out. subst out.
  apply (refine_for_ats_result_fresh job_roles resume_data role
           calculate_ats_score_fn role_skills_map max_attempts).
Qed.

(** *** The identity fields *)

Lemma inject_step_identity r0 r cur idx skill :
  same_identity r0 r → same_identity r0 (inject_step (r, cur, idx) skill).1.1.
Proof.
  intros H. unfold inject_step. case_bool_decide; [done|].
  cbn [fst]. cbn [experience projects set_skills_list].
  destruct (truthy_list (experience r)); [done|].
  by destruct (truthy_list (projects r)).
Qed.

Lemma refine_for_ats_identity job_roles r role fn m n :
  same_identity r (refine_for_ats job_roles r role fn m n).1.
Proof.
  apply (refine_for_ats_preserves (same_identity r)); try done.
  apply inject_fold_preserves. intros. by apply inject_step_identity.
Qed.

(** X12. With the scoring engine as scoring function, refinement never
    lowers a score: the skill, keyword and completeness scores and the total
    that the orchestrator returns are at least those of the resume it was
    given, scored for the same normalised role. *)
Theorem refine_for_ats_never_lowers
    (job_roles : list (string * list string))
    (set_list : gset string → list string) (resume_data : Resume)
    (role : string) (role_skills_map : list (string * list string))
    (max_attempts : nat) :
  let scoring_role := _normalize_role job_roles role in
  let before :=
    calculate_ats_score job_roles set_list (build_parsed_data resume_data)
      scoring_role in
  let after :=
    (refine_for_ats job_roles resume_data role
       (calculate_ats_score job_roles set_list) role_skills_map
       max_attempts).2 in
  (skill_score before ≤ skill_score after)%Z
  ∧ (keyword_score before ≤ keyword_score after)%Z
  ∧ (completeness_score before ≤ completeness_score after)%Z
  ∧ (ats_score before ≤ ats_score after)%Z.
Proof.
  intros scoring_role before after. subst before after.
  set (fn := calculate_ats_score job_roles set_list).
  destruct (refine_for_ats_result_fresh job_roles resume_data role fn
              role_skills_map max_attempts) as [Hres _].
  fold scoring_role in Hres. rewrite Hres.
  destruct (refine_for_ats_identity job_roles resume_data role fn
              role_skills_map max_attempts) as (Hn & He & Hp).
  pose proof (refine_after_normalize_grows job_roles fn role_skills_map
                scoring_role resume_data max_attempts) as (Hpre & _).
  destruct Hpre as [extra Hextra].
  unfold refine_for_ats in *. fold scoring_role in Hn, He, Hp |- *.
  apply ats_scores_mono; cbn [build_parsed_data pd_name pd_email pd_phone
    pd_skills]; try done.
  - apply resume_set_mono. cbn [build_parsed_data pd_skills].
    rewrite Hextra. intros s Hs. apply elem_of_app. by left.
  - rewrite Hextra.
    change (skills_list (enhance_language_quality resume_data))
      with (skills_list resume_data).
    by destruct (skills_list resume_data).
Qed.

(** ** Where the injected bullets go *)

Lemma concat_alter_length {A : Type} (g : A → list string) (f : A → A)
    (l : list A) (i : nat) :
  (∀ x, length (g (f x)) ≤ length (g x) + 1) →
  length (concat (g <$> alter f i l)) ≤ length (concat (g <$> l)) + 1.
Proof.
  intros Hf. revert i. induction l as [|x l IH]; intros i; [simpl; lia|].
  destruct i as [|i]; cbn [alter list_alter fmap list_fmap concat].
  - rewrite !length_app. specialize (Hf x). lia.
  - rewrite !length_app. specialize (IH i).
    change (list_fmap A (list string) g) with (fmap (M := list) g) in *.
    change (list_alter f i l) with (alter f i l). lia.
Qed.

Lemma offer_bullet_length_add cap bullets bullet :
  length (offer_bullet cap bullets bullet) ≤ length bullets + 1.
Proof.
  unfold offer_bullet. destruct bullets as [|b bs]; [simpl; lia|].
  cbn [truthy_list]. destruct (_ <? cap); [|lia].
  rewrite length_app. simpl. lia.
Qed.

Lemma inject_step_targets r cur idx skill :
  let r' := (inject_step (r, cur, idx) skill).1.1 in
  (experience r ≠ [] → projects r' = projects r)
  ∧ (experience r = [] → experience r' = [])
  ∧ length (experience r') = length (experience r)
  ∧ length (projects r') = length (projects r)
  ∧ bullet_count r' + length (skills_list r)
    ≤ bullet_count r + length (skills_list r').
Proof.
  unfold inject_step. case_bool_decide; [cbn; split_and!; (done || lia)|].
  cbn [fst]. cbn [experience projects set_skills_list].
  destruct (experience r) as [|e es] eqn:He; cbn [truthy_list].
  - destruct (projects r) as [|p ps] eqn:Hp; cbn [truthy_list].
    + unfold bullet_count, all_bullets.
      cbn [experience projects skills_list set_skills_list].
      rewrite He, Hp. cbn. rewrite length_app. cbn. split_and!; (done || lia).
    + unfold bullet_count, all_bullets.
      cbn [experience projects skills_list set_skills_list set_projects].
      rewrite He, Hp, length_alter, !length_app.
      pose proof (concat_alter_length proj_bullets
        (λ target_proj, set_proj_bullets target_proj
           (offer_bullet 3 (proj_bullets target_proj)
              (template_format
                 (default ("", "")
                    (_PROJ_INJECTION_TEMPLATES
                       !! (idx mod length _PROJ_INJECTION_TEMPLATES)))
                 skill)))
        (p :: ps) (idx mod length (p :: ps))
        ltac:(intros x; cbn; apply offer_bullet_length_add)).
      cbn [length] in *. split_and!; (done || lia).
  - unfold bullet_count, all_bullets.
    cbn [experience projects skills_list set_skills_list set_experience].
    rewrite He, length_alter, !length_app.
    pose proof (concat_alter_length exp_bullets
      (λ target_exp, set_exp_bullets target_exp
         (offer_bullet 4 (exp_bullets target_exp)
            (template_format
               (default ("", "")
                  (_EXP_INJECTION_TEMPLATES
                     !! (idx mod length _EXP_INJECTION_TEMPLATES)))
               skill)))
      (e :: es) (idx mod length (e :: es))
      ltac:(intros x; cbn; apply offer_bullet_length_add)).
    cbn [length] in *. split_and!; (done || lia).
Qed.

Lemma inject_fold_targets cands r cur idx :
  let r' := (fold_left inject_step cands (r, cur, idx)).1.1 in
  (experience r ≠ [] → projects r' = projects r)
  ∧ (experience r = [] → experience r' = [])
  ∧ length (experience r') = length (experience r)
  ∧ length (projects r') = length (projects r)
  ∧ bullet_count r' + length (skills_list r)
    ≤ bullet_count r + length (skills_list r').
Proof.
  revert r cur idx. induction cands as [|s cands IH]; intros r cur idx.
  - cbn. split_and!; (done || lia).
  - cbn [fold_left].
    pose proof (inject_step_targets r cur idx s) as (A1 & A2 & A3 & A4 & A5).
    destruct (inject_step (r, cur, idx) s) as [[r1 cur1] idx1].
    cbn [fst snd] in *.
    pose proof (IH r1 cur1 idx1) as (B1 & B2 & B3 & B4 & B5).
    cbv zeta. split_and!.
    + intros Hne. rewrite B1, A1; [done|done|].
      intros H0. rewrite H0 in A3. destruct (experience r); [done|]. done.
    + intros H0. apply B2, A2, H0.
    + lia.
    + lia.
    + lia.
Qed.

(** X13. One call of the critical skill injector adds at most one bullet
    per skill it appends and never adds or removes an entry; when the resume
    has experience entries the projects are left as they are, and only when
    it has none do the bullets go to the projects. *)
Theorem inject_missing_role_skills_targets
    (resume_data : Resume) (ats_result : AtsResult) (role : string) :
  let after := inject_missing_role_skills resume_data ats_result role in
  (experience resume_data ≠ [] → projects after = projects resume_data)
  ∧ (experience resume_data = [] → experience after = [])
  ∧ length (experience after) = length (experience resume_data)
  ∧ length (projects after) = length (projects resume_data)
  ∧ bullet_count after + length (skills_list resume_data)
    ≤ bullet_count resume_data + length (skills_list after).
Proof.
  unfold inject_missing_role_skills. destruct (negb _).
  - cbv zeta. split_and!; (done || lia).
  - apply inject_fold_targets.
Qed.

(** ** Role normalisation *)

Lemma normalize_role_supported job_roles role :
  "Software Engineer" ∈ dict_keys job_roles →
  _normalize_role job_roles role ∈ dict_keys job_roles.
Proof.
  intros Hd. unfold _normalize_role.
  destruct (dict_mem job_roles role) eqn:Hr; [by apply dict_mem_keys|].
  destruct (dict_get _ROLE_ALIASES (lower role)) as [alias|]; [|done].
  destruct (truthy alias && dict_mem job_roles alias) eqn:Ha; [|done].
  apply andb_true_iff in Ha as [_ Ha]. by apply dict_mem_keys.
Qed.

(** X14. Role normalisation is idempotent when the default role is in the
    catalog, and for names the catalog does not have it looks only at the
    lower-cased name: two such names that agree up to letter case normalise
    to the same role. *)
Theorem normalize_role_idempotent
    (job_roles : list (string * list string)) (role role' : string) :
  "Software Engineer" ∈ dict_keys job_roles →
  _normalize_role job_roles (_normalize_role job_roles role)
  = _normalize_role job_roles role
  ∧ (role ∉ dict_keys job_roles → role' ∉ dict_keys job_roles →
     lower role = lower role' →
     _normalize_role job_roles role = _normalize_role job_roles role').
Proof.
  intros Hd. split.
  - pose proof (normalize_role_supported job_roles role Hd) as Hin.
    apply dict_mem_keys in Hin.
    unfold _normalize_role at 1. by rewrite Hin.
  - intros H1 H2 Hl. apply dict_mem_false_keys in H1, H2.
    unfold _normalize_role. by rewrite H1, H2, Hl.
Qed.

Lemma normalize_role_idempotent_witness :
  "Software Engineer" ∈ dict_keys CRITICAL_SKILLS
  ∧ _normalize_role CRITICAL_SKILLS "FRONTEND developer"
    = _normalize_role CRITICAL_SKILLS "Frontend Developer".
Proof.
  assert (Hd : "Software Engineer" ∈ dict_keys CRITICAL_SKILLS)
    by (apply dict_mem_keys; reflexivity).
  split; [exact Hd|].
  apply (proj2 (normalize_role_idempotent CRITICAL_SKILLS
                  "FRONTEND developer" "Frontend Developer" Hd)).
  - apply dict_mem_false_keys. reflexivity.
  - apply dict_mem_false_keys. reflexivity.
  - reflexivity.
Defined.

(** ** More of Python's strings *)

Lemma string_app_cons (x : ascii) (a b : string) :
  String x a +:+ b = String x (a +:+ b).
Proof. reflexivity. Qed.

Lemma string_app_assoc (a b c : string) : (a +:+ b) +:+ c = a +:+ b +:+ c.
Proof.
  induction a as [|x a IH]; [done|]. rewrite !string_app_cons. by f_equal.
Qed.

Lemma string_app_nil_r (a : string) : a +:+ "" = a.
Proof.
  induction a as [|x a IH]; [done|]. rewrite string_app_cons. by f_equal.
Qed.

Lemma string_app_length (a b : string) :
  String.length (a +:+ b) = String.length a + String.length b.
Proof.
  induction a as [|x a IH]; [done|]. rewrite string_app_cons. cbn.
  by rewrite IH.
Qed.

Lemma truthy_true s : truthy s = true ↔ s ≠ "".
Proof. by destruct s. Qed.

Lemma join_app sep (a b : list string) :
  a ≠ [] → b ≠ [] → join sep (a ++ b) = join sep a +:+ sep +:+ join sep b.
Proof.
  intros Ha Hb. induction a as [|x a IH]; [done|].
  destruct a as [|y a].
  - cbn. by destruct b.
  - change (join sep ((x :: y :: a) ++ b))
      with (x +:+ sep +:+ join sep ((y :: a) ++ b)).
    rewrite IH by done.
    change (join sep (x :: y :: a)) with (x +:+ sep +:+ join sep (y :: a)).
    by rewrite !string_app_assoc.
Qed.

Lemma cons_head_nonempty c l : Forall (λ w, w ≠ "") l → Forall (λ w, w ≠ "") (cons_head c l).
Proof. intros H. destruct l as [|w ws]; cbn; [by repeat constructor|].
  apply Forall_cons in H as [_ H]. by constructor. Qed.

Lemma split_ws_nonempty s : Forall (λ w, w ≠ "") (split_ws s).
Proof.
  induction s as [|c s IH]; [constructor|]. cbn [split_ws].
  destruct (py_isspace c); [done|]. destruct (starts_word s).
  - by apply cons_head_nonempty.
  - by constructor.
Qed.

(** ** [_wrap_text] *)

Lemma wrap_text_lines text max_chars :
  _wrap_text text max_chars
  = lines_of (fold_left (wrap_step max_chars) (split_ws text) ([], "")).
Proof.
  unfold _wrap_text, lines_of.
  destruct (fold_left _ _ _) as [lines current]. cbn [fst snd].
  destruct (truthy current); [done|by rewrite app_nil_r].
Qed.

Lemma wrap_step_join max_chars st word :
  word ≠ "" →
  lines_of (wrap_step max_chars st word) ≠ []
  ∧ join " " (lines_of (wrap_step max_chars st word))
    = join " " (lines_of st ++ [word]).
Proof.
  intros Hw. destruct st as [lines current]. unfold wrap_step, lines_of.
  assert (Htw : truthy word = true) by (apply truthy_true; exact Hw).
  destruct (_ <=? max_chars)%Z; cbn [fst snd];
    destruct (truthy current) eqn:Hc; rewrite ?Htw.
  - assert (Ht : truthy (current +:+ " " +:+ word) = true)
      by (by destruct current).
    rewrite Ht. split; [by destruct lines|].
    rewrite <- (assoc_L (++) lines [current] [word]).
    destruct lines as [|l ls].
    + done.
    + rewrite !(join_app " " (l :: ls)) by done. done.
  - rewrite app_nil_r. split; [by destruct lines|done].
  - rewrite <- !(assoc_L (++)). split; [by destruct lines|done].
  - rewrite app_nil_r. split; [by destruct lines|done].
Qed.

Lemma wrap_fold_join max_chars ws st :
  Forall (λ w, w ≠ "") ws →
  join " " (lines_of (fold_left (wrap_step max_chars) ws st))
  = join " " (lines_of st ++ ws).
Proof.
  revert st. induction ws as [|w ws IH]; intros st Hne.
  - cbn. by rewrite app_nil_r.
  - apply Forall_cons in Hne as [Hw Hne]. cbn [fold_left].
    rewrite IH by done.
    destruct (wrap_step_join max_chars st w Hw) as [Hn Hj].
    rewrite (cons_middle w (lines_of st) ws), (assoc_L (++)).
    destruct ws as [|w' ws'].
    + by rewrite !app_nil_r.
    + rewrite !(join_app " " _ (w' :: ws')); try done.
      * by rewrite Hj.
      * by destruct (lines_of st).
Qed.

Lemma wrap_fold_fits max_chars (W ws : list string) st :
  Forall (λ w, w ∈ W) ws →
  Forall (line_fits max_chars W) st.1 →
  (st.2 = "" ∨ line_fits max_chars W st.2) →
  let st' := fold_left (wrap_step max_chars) ws st in
  Forall (line_fits max_chars W) st'.1
  ∧ (st'.2 = "" ∨ line_fits max_chars W st'.2).
Proof.
  revert st. induction ws as [|w ws IH]; intros st Hws Hl Hc; [done|].
  apply Forall_cons in Hws as [Hw Hws]. cbn [fold_left]. apply IH; [done|..].
  - destruct st as [lines current]. unfold wrap_step. cbn [fst snd] in *.
    destruct (_ <=? max_chars)%Z; [done|]. cbn [fst].
    destruct (truthy current) eqn:Ht; [|done].
    apply Forall_app. split; [done|]. constructor; [|constructor].
    destruct Hc as [->|Hc]; done.
  - destruct st as [lines current]. unfold wrap_step. cbn [fst snd] in *.
    destruct (Z.leb_spec (Z.of_nat (String.length current + String.length w + 1))
                max_chars) as [Hfit|Hno]; cbn [snd].
    + right. destruct (truthy current).
      * left. rewrite !string_app_length. cbn. lia.
      * by right.
    + right. by right.
Qed.

Lemma wrap_fold_nonempty max_chars ws st :
  Forall (λ l, l ≠ "") st.1 →
  Forall (λ l, l ≠ "") (fold_left (wrap_step max_chars) ws st).1.
Proof.
  revert st. induction ws as [|w ws IH]; intros st Hl; [done|].
  cbn [fold_left]. apply IH. destruct st as [lines current].
  unfold wrap_step. cbn [fst snd] in *.
  destruct (_ <=? max_chars)%Z; [done|]. cbn [fst].
  destruct (truthy current) eqn:Ht; [|done].
  apply Forall_app. split; [done|]. constructor; [|constructor].
  by apply truthy_true.
Qed.

(** X15. Word wrapping loses and invents nothing: the lines joined by
    single spaces are the words of the text joined by single spaces.  No line
    is empty, and every line is at most [max_chars] long unless it is a
    single word of the text (a word longer than the limit gets a line of
    its own). *)
Theorem wrap_text_round_trip (text : string) (max_chars : Z) :
  let lines := _wrap_text text max_chars in
  join " " lines = join " " (split_ws text)
  ∧ Forall (λ line, line ≠ "") lines
  ∧ Forall (λ line, (Z.of_nat (String.length line) ≤ max_chars)%Z
                    ∨ line ∈ split_ws text) lines.
Proof.
  intros lines. subst lines. rewrite wrap_text_lines. split; [|split].
  - rewrite wrap_fold_join by apply split_ws_nonempty. done.
  - unfold lines_of. apply Forall_app. split.
    + by apply wrap_fold_nonempty.
    + destruct (truthy _) eqn:Ht; [|constructor].
      constructor; [by apply truthy_true|constructor].
  - destruct (wrap_fold_fits max_chars (split_ws text) (split_ws text) ([], ""))
      as [H1 H2]; [by apply Forall_forall|done|by left|].
    unfold lines_of. apply Forall_app. split; [exact H1|].
    destruct (truthy _) eqn:Ht; [|constructor].
    constructor; [|constructor].
    destruct H2 as [H2|H2]; [|exact H2]. rewrite H2 in Ht. done.
Qed.

(** ** Stripping *)

Lemma rstrip_cons_nonspace c s :
  py_isspace c = false → rstrip (String c s) = String c (rstrip s).
Proof. intros Hc. cbn [rstrip]. rewrite Hc. by destruct (rstrip s). Qed.

Lemma rstrip_idemp s : rstrip (rstrip s) = rstrip s.
Proof.
  induction s as [|c s IH]; [done|]. cbn [rstrip].
  destruct (rstrip s) as [|d t] eqn:Hr.
  - destruct (py_isspace c) eqn:Hc; [done|]. cbn [rstrip]. by rewrite Hc.
  - change (rstrip (String c (String d t)))
      with (match rstrip (String d t) with
            | EmptyString =>
                if py_isspace c then EmptyString else String c EmptyString
            | t0 => String c t0
            end).
    by rewrite IH.
Qed.

Lemma lstrip_starts s : lstrip s = "" ∨ starts_word (lstrip s) = true.
Proof.
  induction s as [|c s IH]; [by left|]. cbn [lstrip].
  destruct (py_isspace c) eqn:Hc; [done|]. right. cbn. by rewrite Hc.
Qed.

Lemma lstrip_id s : starts_word s = true → lstrip s = s.
Proof.
  destruct s as [|c s]; [done|]. cbn. intros Hc.
  apply negb_true_iff in Hc. by rewrite Hc.
Qed.

Lemma rstrip_starts s : starts_word s = true → starts_word (rstrip s) = true.
Proof.
  destruct s as [|c s]; [done|]. cbn [starts_word]. intros Hc.
  apply negb_true_iff in Hc. rewrite rstrip_cons_nonspace by done.
  cbn. by rewrite Hc.
Qed.

Lemma strip_cases s : strip s = "" ∨ starts_word (strip s) = true.
Proof.
  unfold strip. destruct (lstrip_starts s) as [->|H]; [by left|].
  right. by apply rstrip_starts.
Qed.

Lemma strip_fixed s : rstrip s = s → (s = "" ∨ starts_word s = true) → strip s = s.
Proof.
  intros Hr [->|Hs]; [done|]. unfold strip. by rewrite lstrip_id.
Qed.

Lemma rstrip_strip s : rstrip (strip s) = strip s.
Proof. unfold strip. apply rstrip_idemp. Qed.

Lemma strip_idemp s : strip (strip s) = strip s.
Proof. apply strip_fixed; [apply rstrip_strip|apply strip_cases]. Qed.

Lemma rstrip_app a b : rstrip b = b → b ≠ "" → rstrip (a +:+ b) = a +:+ b.
Proof.
  intros Hb Hne. induction a as [|c a IH]; [done|].
  rewrite string_app_cons. cbn [rstrip]. rewrite IH.
  destruct (a +:+ b) eqn:E; [|done]. by destruct a, b.
Qed.

(** ** [sanitize_input] *)

Lemma find_close_remove_tags s :
  find_close s = None → find_close (remove_tags_from false s) = None.
Proof.
  induction s as [|c s IH]; [done|]. cbn [find_close remove_tags_from].
  destruct (Ascii.eqb_spec c ">") as [->|Hgt]; [done|].
  destruct (Ascii.eqb_spec c "010") as [->|Hnl].
  - intros _. cbn. done.
  - intros Hs. destruct (Ascii.eqb_spec c "<") as [->|Hlt].
    + rewrite bool_decide_eq_false_2 by (rewrite Hs; by intros [? ?]).
      cbn. by apply IH.
    + cbn [andb find_close].
      destruct (Ascii.eqb_spec c ">"); [done|].
      destruct (Ascii.eqb_spec c "010"); [done|]. by apply IH.
Qed.

Lemma remove_tags_from_tag_free inside s : tag_free (remove_tags_from inside s).
Proof.
  revert inside. induction s as [|c s IH]; intros inside; [done|].
  cbn [remove_tags_from]. destruct inside.
  - destruct (Ascii.eqb c ">"); apply IH.
  - destruct (Ascii.eqb_spec c "<") as [->|Hlt].
    + case_bool_decide as Hclose; cbn [andb]; [apply IH|].
      cbn [tag_free]. split; [|apply IH]. intros _.
      apply find_close_remove_tags.
      destruct (find_close s); [|done]. by destruct Hclose.
    + cbn [andb tag_free]. split; [done|apply IH].
Qed.

Lemma remove_tags_tag_free_id s : tag_free s → remove_tags s = s.
Proof.
  unfold remove_tags. induction s as [|c s IH]; [done|].
  cbn [tag_free remove_tags_from]. intros [Hc Hs].
  destruct (Ascii.eqb_spec c "<") as [->|Hlt].
  - rewrite (Hc eq_refl). rewrite bool_decide_eq_false_2 by (by intros [? ?]).
    cbn. by rewrite IH.
  - cbn. by rewrite IH.
Qed.

Lemma tag_free_lstrip s : tag_free s → tag_free (lstrip s).
Proof.
  induction s as [|c s IH]; [done|]. cbn [lstrip]. intros H.
  destruct (py_isspace c); [|done]. apply IH, H.
Qed.

Lemma find_close_rstrip s : find_close s = None → find_close (rstrip s) = None.
Proof.
  induction s as [|c s IH]; [done|]. cbn [find_close rstrip].
  destruct (Ascii.eqb_spec c ">") as [->|Hgt]; [done|].
  destruct (Ascii.eqb_spec c "010") as [->|Hnl].
  - intros _. by destruct (rstrip s).
  - intros Hs. specialize (IH Hs). destruct (rstrip s) as [|d t].
    + destruct (py_isspace c); [done|]. cbn.
      destruct (Ascii.eqb_spec c ">"); [done|].
      by destruct (Ascii.eqb_spec c "010").
    + cbn [find_close]. destruct (Ascii.eqb_spec c ">"); [done|].
      by destruct (Ascii.eqb_spec c "010").
Qed.

Lemma tag_free_rstrip s : tag_free s → tag_free (rstrip s).
Proof.
  induction s as [|c s IH]; [done|]. cbn [tag_free rstrip]. intros [Hc Hs].
  specialize (IH Hs). destruct (rstrip s) as [|d t] eqn:Hr.
  - destruct (py_isspace c); [done|]. cbn. done.
  - cbn [tag_free]. split; [|exact IH]. intros E.
    rewrite <- Hr. by apply find_close_rstrip, Hc.
Qed.

Lemma sanitize_input_tag_free text : tag_free (sanitize_input text).
Proof.
  unfold sanitize_input. destruct (negb (truthy text)); [done|].
  unfold strip. apply tag_free_rstrip, tag_free_lstrip.
  apply remove_tags_from_tag_free.
Qed.

Lemma sanitize_input_fixed s :
  tag_free s → strip s = s → sanitize_input s = s.
Proof.
  intros Ht Hs. unfold sanitize_input. destruct s as [|c s]; [done|].
  cbn [truthy negb]. by rewrite remove_tags_tag_free_id.
Qed.

Lemma sanitize_input_stripped text : strip (sanitize_input text) = sanitize_input text.
Proof.
  unfold sanitize_input. destruct (negb (truthy text)); [done|].
  apply strip_idemp.
Qed.

(** X16. Sanitising is idempotent; what it returns contains no tag (no
    ["<"] that a [">"] closes on the same line), so that removing tags again
    changes nothing, and has no white space at either end. *)
Theorem sanitize_input_idempotent (text : string) :
  sanitize_input (sanitize_input text) = sanitize_input text
  ∧ remove_tags (sanitize_input text) = sanitize_input text
  ∧ strip (sanitize_input text) = sanitize_input text
  ∧ sanitize_input "" = "".
Proof.
  pose proof (sanitize_input_tag_free text) as Ht.
  pose proof (sanitize_input_stripped text) as Hs.
  split; [by apply sanitize_input_fixed|].
  split; [by apply remove_tags_tag_free_id|]. done.
Qed.

(** ** [_enhance_bullet] *)

Lemma starts_word_app w x :
  w ≠ "" → no_space w = true → starts_word (w +:+ x) = true.
Proof.
  destruct w as [|c w]; [done|]. intros _ H. cbn in H.
  apply andb_true_iff in H as [Hc _]. by rewrite string_app_cons.
Qed.

Lemma split_ws_word_space w x :
  w ≠ "" → no_space w = true →
  split_ws (w +:+ " " +:+ x) = w :: split_ws x.
Proof.
  induction w as [|c w IH]; [done|]. intros _ H. cbn [no_space] in H.
  apply andb_true_iff in H as [Hc Hw]. apply negb_true_iff in Hc.
  rewrite string_app_cons. cbn [split_ws]. rewrite Hc.
  destruct w as [|d w].
  - reflexivity.
  - rewrite starts_word_app by done. by rewrite IH.
Qed.

Lemma split_ws_starts s :
  starts_word s = true → ∃ w rest, split_ws s = w :: rest.
Proof.
  destruct s as [|c s]; [done|]. cbn [starts_word split_ws]. intros Hc.
  apply negb_true_iff in Hc. rewrite Hc. destruct (starts_word s).
  - destruct (split_ws s) as [|w ws]; cbn; eauto.
  - eauto.
Qed.

Lemma action_verbs_words :
  Forall (λ verb, verb ≠ "" ∧ no_space verb = true) ACTION_VERBS.
Proof. unfold ACTION_VERBS. repeat constructor; done. Qed.

Lemma action_verb_check (w : string) :
  existsb (λ verb, String.eqb (lower w) (lower verb)) ACTION_VERBS = true
  ↔ ∃ verb, verb ∈ ACTION_VERBS ∧ lower w = lower verb.
Proof.
  rewrite existsb_exists. split.
  - intros (verb & Hin & Heq). exists verb. split; [by apply list_elem_of_In|].
    by apply String.eqb_eq.
  - intros (verb & Hin & Heq). exists verb. split; [by apply list_elem_of_In|].
    by apply String.eqb_eq.
Qed.

Lemma enhance_bullet_fixed s j :
  strip s = s → s ≠ "" → starts_with_action_verb s → _enhance_bullet s j = s.
Proof.
  intros Hs Hne (w & rest & verb & Hsplit & Hin & Heq).
  unfold _enhance_bullet. rewrite Hs.
  destruct s as [|c s']; [done|]. cbn [truthy negb]. rewrite Hsplit.
  assert (Hc : existsb (λ verb, String.eqb (lower w) (lower verb)) ACTION_VERBS
               = true) by (apply action_verb_check; eauto).
  by rewrite Hc.
Qed.

Lemma enhance_bullet_cases (text : string) (index : nat) :
  let out := _enhance_bullet text index in
  (strip text = "" ∧ out = "")
  ∨ (strip text ≠ "" ∧ out ≠ "" ∧ strip out = out
     ∧ starts_with_action_verb out).
Proof.
  intros out. subst out. unfold _enhance_bullet.
  destruct (strip text) as [|c t'] eqn:Ht; [by left|]. right.
  split; [done|]. cbn [truthy negb].
  pose proof (rstrip_strip text) as Hr. pose proof (strip_cases text) as Hc.
  pose proof (strip_idemp text) as Hi. rewrite Ht in Hr, Hc, Hi.
  destruct Hc as [Hc|Hc]; [done|].
  destruct (existsb _ ACTION_VERBS) eqn:Hverb.
  - split; [done|]. split; [done|].
    destruct (split_ws_starts _ Hc) as (w & rest & Hsplit).
    rewrite Hsplit in Hverb. apply action_verb_check in Hverb as (verb & ? & ?).
    by exists w, rest, verb.
  - assert (Hlt : index mod length ACTION_VERBS < length ACTION_VERBS)
      by (apply Nat.mod_upper_bound; done).
    destruct (lookup_lt_is_Some_2 ACTION_VERBS _ Hlt) as [verb Hverb_at].
    rewrite Hverb_at. unfold default, from_option, id.
    assert (Hin : verb ∈ ACTION_VERBS) by (by eapply list_elem_of_lookup_2).
    pose proof action_verbs_words as Hword. rewrite Forall_forall in Hword.
    destruct (Hword verb Hin) as [Hvne Hvns].
    set (body := match t' with
                 | EmptyString => String c t'
                 | String _ _ => String (ascii_lower c) t'
                 end).
    assert (Hout : match t' with
                   | EmptyString => verb +:+ " " +:+ String c t'
                   | String _ _ => verb +:+ " " +:+ String (ascii_lower c) t'
                   end = verb +:+ " " +:+ body) by (by destruct t').
    rewrite Hout.
    assert (Hbody : body ≠ "" ∧ rstrip body = body).
    { subst body. destruct t' as [|d t'']; [done|]. split; [done|].
      cbn [rstrip] in Hr. cbn [rstrip].
      destruct (match rstrip t'' with
                | EmptyString =>
                    if py_isspace d then EmptyString else String d EmptyString
                | String a s0 => String d (String a s0)
                end) eqn:E.
      - destruct (py_isspace c); done.
      - by simplify_eq. }
    destruct Hbody as [Hbne Hbr].
    assert (Hstrip : strip (verb +:+ " " +:+ body) = verb +:+ " " +:+ body).
    { apply strip_fixed.
      - apply rstrip_app; [|by destruct body].
        apply (rstrip_app " "); done.
      - right. by apply starts_word_app. }
    split; [by destruct verb|]. split; [done|].
    exists verb, (split_ws body), verb. split; [|done].
    by apply split_ws_word_space.
Qed.

(** X17. A blank bullet stays empty; any other bullet comes back stripped
    and beginning with an action verb of the list (in any letter case); and
    enhancing an enhanced bullet again, with any index, changes nothing. *)
Theorem enhance_bullet_action_verb (text : string) (index : nat) :
  let out := _enhance_bullet text index in
  (strip text = "" → out = "")
  ∧ (strip text ≠ "" →
     out ≠ "" ∧ strip out = out ∧ starts_with_action_verb out)
  ∧ (∀ j, _enhance_bullet out j = out).
Proof.
  intros out.
  destruct (enhance_bullet_cases text index) as [[H1 H2]|(H1 & H2 & H3 & H4)];
    fold out in H2 |- *.
  - split; [done|]. split; [done|]. intros j. by rewrite H2.
  - split; [done|]. split; [done|]. intros j. by apply enhance_bullet_fixed.
Qed.

(** ** [format_resume_data] *)

Lemma stripped_parts_spec sep s :
  Forall (λ x, x ≠ "" ∧ strip x = x) (stripped_parts sep s).
Proof.
  apply Forall_forall. intros x Hx. unfold stripped_parts in Hx.
  apply list_elem_of_omap in Hx as (y & _ & Hy).
  destruct (truthy (strip y)) eqn:Ht; [|done]. injection Hy as <-.
  split; [by apply truthy_true|]. apply strip_idemp.
Qed.

Lemma description_bullets_good desc :
  Forall good_bullet (description_bullets desc).
Proof.
  unfold description_bullets.
  set (bullets := if truthy desc then stripped_parts "010" desc else []).
  assert (Hb : Forall (λ x, x ≠ "" ∧ strip x = x) bullets).
  { subst bullets. destruct (truthy desc); [apply stripped_parts_spec|done]. }
  apply Forall_lookup. intros i b Hi. rewrite list_lookup_imap in Hi.
  destruct (bullets !! i) as [x|] eqn:Hx; [|done]. injection Hi as <-.
  rewrite Forall_lookup in Hb. destruct (Hb i x Hx) as [Hne Hs].
  destruct (enhance_bullet_cases x i) as [[H1 _]|(_ & H2 & H3 & H4)].
  - congruence.
  - done.
Qed.

Lemma build_full_text_ignores_full_text data v :
  _build_full_text (set_full_text data v) = _build_full_text data.
Proof. by destruct data. Qed.

Lemma format_experience form :
  Forall (λ e, exp_title e ≠ "" ∧ length (exp_bullets e) ≤ 4
               ∧ Forall good_bullet (exp_bullets e))
    (experience (format_resume_data form)).
Proof.
  apply Forall_forall. intros e He. cbn in He.
  apply list_elem_of_omap in He as (i & _ & Hi).
  destruct (truthy (sanitized_at _ i)) eqn:Ht; [|done]. injection Hi as <-.
  cbn. split; [by apply truthy_true|]. split.
  - rewrite length_take. lia.
  - apply Forall_take, description_bullets_good.
Qed.

Lemma format_projects form :
  length (projects (format_resume_data form)) ≤ 3
  ∧ Forall (λ p, proj_name p ≠ "" ∧ length (proj_bullets p) ≤ 3
                 ∧ Forall good_bullet (proj_bullets p))
      (projects (format_resume_data form)).
Proof.
  cbn. split; [rewrite length_take; lia|].
  apply Forall_take, Forall_forall. intros p Hp.
  apply list_elem_of_omap in Hp as (i & _ & Hi).
  destruct (truthy (sanitized_at _ i)) eqn:Ht; [|done]. injection Hi as <-.
  cbn. split; [by apply truthy_true|]. split.
  - rewrite length_take. lia.
  - apply Forall_take, description_bullets_good.
Qed.

(** X18. Whatever the form holds, the formatted resume keeps only education
    entries with a degree, experience entries with a title and at most four
    bullets, at most three projects, each with a name and at most three
    bullets; its skills are non-empty and stripped; it lists at most three
    certifications and three achievements; and its full text is the one
    built from the record itself. *)
Theorem format_resume_data_shape (form : Form) :
  let r := format_resume_data form in
  Forall (λ edu, edu_degree edu ≠ "") (education r)
  ∧ Forall (λ e, exp_title e ≠ "" ∧ length (exp_bullets e) ≤ 4) (experience r)
  ∧ length (projects r) ≤ 3
  ∧ Forall (λ p, proj_name p ≠ "" ∧ length (proj_bullets p) ≤ 3) (projects r)
  ∧ Forall (λ s, s ≠ "" ∧ strip s = s) (skills_list r)
  ∧ length (certifications_list r) ≤ 3
  ∧ length (achievements_list r) ≤ 3
  ∧ full_text r = _build_full_text r.
Proof.
  intros r. split_and!.
  - apply Forall_forall. intros edu He. subst r. cbn in He.
    apply list_elem_of_omap in He as (i & _ & Hi).
    destruct (truthy (sanitized_at _ i)) eqn:Ht; [|done]. injection Hi as <-.
    cbn. by apply truthy_true.
  - eapply Forall_impl; [apply format_experience|]. cbn. tauto.
  - apply format_projects.
  - eapply Forall_impl; [apply format_projects|]. cbn. tauto.
  - apply stripped_parts_spec.
  - subst r. cbn. rewrite length_take. lia.
  - subst r. cbn. rewrite length_take. lia.
  - subst r. unfold format_resume_data. cbv zeta.
    by rewrite build_full_text_ignores_full_text.
Qed.

(** X19. Every bullet of a formatted resume is non-empty, stripped, and
    begins with an action verb of the list. *)
Theorem format_resume_data_bullets (form : Form) :
  Forall good_bullet (all_bullets (format_resume_data form)).
Proof.
  unfold all_bullets. apply Forall_app. split.
  - apply Forall_concat, Forall_fmap.
    eapply Forall_impl; [apply format_experience|]. cbn. tauto.
  - apply Forall_concat, Forall_fmap.
    eapply Forall_impl; [apply format_projects|]. cbn. tauto.
Qed.

(** ** The skill matcher *)

Lemma size_list_to_set_le (l : list string) :
  size (list_to_set l : gset string) ≤ length l.
Proof.
  assert (H : (list_to_set l : gset string) = list_to_set (remove_dups l)).
  { apply set_eq. intros x.
    by rewrite !elem_of_list_to_set, elem_of_remove_dups. }
  rewrite H.
  rewrite (size_list_to_set (C := gset string)) by apply NoDup_remove_dups.
  clear H. induction l as [|x l IH]; [done|]. cbn [remove_dups].
  destruct (decide_rel elem_of x l); cbn; lia.
Qed.

Lemma percent_100_range m r :
  (0 ≤ m)%Z → (m ≤ r)%Z → (0 < r)%Z → (0 ≤ percent_points 100 m r ≤ 100)%Z.
Proof.
  intros Hm Hmr Hr. split.
  - apply percent_points_nonneg; lia.
  - etrans; [apply percent_points_upper; lia|]. vm_compute. discriminate.
Qed.

(** X20. The skill matcher returns the empty dict for a role the catalog
    does not have and raises ZeroDivisionError for a role whose required
    list is empty, where the scoring engine returns skill score 0; for a
    role with required skills it returns a percentage in 0..100, which is
    100 when the resume lists every required skill and 0 when it lists
    none, with the matched and missing lists of the scoring engine. *)
Theorem match_skills_outcomes
    (job_roles : list (string * list string))
    (set_list : gset string → list string)
    (parsed_data : ParsedData) (job_role : string) :
  let out := match_skills job_roles set_list (pd_skills parsed_data) job_role in
  let res := calculate_ats_score job_roles set_list parsed_data job_role in
  (dict_get job_roles job_role = None → out = Result None)
  ∧ (dict_get job_roles job_role = Some [] →
     out = ZeroDivisionError ∧ skill_score res = 0%Z)
  ∧ (∀ skill skills, dict_get job_roles job_role = Some (skill :: skills) →
     ∃ m, out = Result (Some m)
          ∧ sm_job_role m = job_role
          ∧ (0 ≤ sm_match_percentage m ≤ 100)%Z
          ∧ (required_set job_roles job_role ⊆ resume_set parsed_data →
             sm_match_percentage m = 100%Z)
          ∧ (matched_set job_roles parsed_data job_role = ∅ →
             sm_match_percentage m = 0%Z)
          ∧ sm_matched_skills m = matched_skills res
          ∧ sm_missing_skills m = missing_skills res).
Proof.
  intros out res. subst out res. unfold match_skills, dict_mem.
  split; [|split].
  - by intros ->.
  - intros H. unfold calculate_ats_score, dict_get_list. by rewrite H.
  - intros skill skills H.
    unfold calculate_ats_score, matched_set, required_set, resume_set,
      dict_get_list.
    rewrite H. cbn [negb].
    set (resume := list_to_set (lower <$> pd_skills parsed_data) : gset string).
    set (required := list_to_set (lower <$> skill :: skills) : gset string).
    assert (Hpos : size required ≠ 0).
    { apply size_non_empty_iff. intros Hempty.
      assert (Hin : lower skill ∈ required)
        by (subst required; rewrite fmap_cons; set_solver).
      rewrite Hempty in Hin. set_solver. }
    destruct (Nat.eqb_spec (size required) 0) as [|_]; [done|].
    eexists. split; [reflexivity|].
    cbn [sm_job_role sm_match_percentage sm_matched_skills sm_missing_skills
         matched_skills missing_skills].
    assert (Hle : size (resume ∩ required) ≤ size required)
      by (apply subseteq_size; set_solver).
    split_and!; try done.
    + apply percent_100_range; lia.
    + apply percent_100_range; lia.
    + intros Hsub.
      assert (Heq : resume ∩ required = required) by set_solver.
      rewrite Heq, percent_points_full by lia. reflexivity.
    + intros ->. rewrite size_empty. apply percent_points_zero.
Qed.

(** ** The role predictor *)

Lemma insert_by_score_perm x l : insert_by_score x l ≡ₚ x :: l.
Proof.
  induction l as [|y l IH]; [done|]. cbn [insert_by_score].
  destruct (rs_score y <? rs_score x)%Z; [done|].
  rewrite IH. apply Permutation_swap.
Qed.

Lemma insert_by_score_sorted x l :
  StronglySorted score_ge l → StronglySorted score_ge (insert_by_score x l).
Proof.
  induction 1 as [|y l Hl IH Hy]; [repeat constructor|].
  cbn [insert_by_score]. destruct (Z.ltb_spec (rs_score y) (rs_score x)).
  - constructor; [by constructor|]. constructor; [unfold score_ge; lia|].
    eapply Forall_impl; [exact Hy|]. unfold score_ge. intros; lia.
  - constructor; [done|]. rewrite insert_by_score_perm.
    constructor; [unfold score_ge; lia|done].
Qed.

Lemma sort_fold_spec l acc :
  StronglySorted score_ge acc →
  let out := fold_left (λ sorted x, insert_by_score x sorted) l acc in
  out ≡ₚ acc ++ l ∧ StronglySorted score_ge out.
Proof.
  revert acc. induction l as [|x l IH]; intros acc Hacc.
  - cbn. by rewrite app_nil_r.
  - cbn [fold_left]. destruct (IH (insert_by_score x acc)) as [Hp Hs];
      [by apply insert_by_score_sorted|].
    split; [|done]. rewrite Hp, insert_by_score_perm.
    apply Permutation_middle.
Qed.

Lemma sort_by_score_spec l :
  sort_by_score l ≡ₚ l ∧ StronglySorted score_ge (sort_by_score l).
Proof. apply (sort_fold_spec l []). constructor. Qed.

Lemma role_score_role set_list low entry :
  rs_role (role_score set_list low entry) = entry.1.
Proof. by destruct entry. Qed.

Lemma role_score_range set_list low entry :
  entry.2 ≠ [] →
  (0 ≤ rs_score (role_score set_list low entry) ≤ 100)%Z.
Proof.
  destruct entry as [role skills]. cbn. intros Hne.
  assert (Hlen : size (list_to_set low ∩ list_to_set (lower <$> skills)
                       : gset string) ≤ length skills).
  { etrans; [apply subseteq_size|].
    - apply intersection_subseteq_r.
    - etrans; [apply size_list_to_set_le|]. by rewrite length_fmap. }
  apply percent_100_range; [lia|lia|]. destruct skills; [done|]. cbn. lia.
Qed.

(** X21. The role predictor always returns three entries, for three
    different roles of the table, with scores in 0..100 in descending
    order; together with the two roles left out they are the five role
    entries, and no role left out scores higher than a returned one. *)
Theorem predict_multiple_roles_top_three
    (set_list : gset string → list string) (resume_skills : list string) :
  let out := predict_multiple_roles set_list resume_skills in
  length out = 3
  ∧ NoDup (rs_role <$> out)
  ∧ (rs_role <$> out) ⊆ ROLE_SKILLS.*1
  ∧ Forall (λ e, (0 ≤ rs_score e ≤ 100)%Z) out
  ∧ StronglySorted score_ge out
  ∧ ∃ rest,
      out ++ rest ≡ₚ role_score set_list (lower <$> resume_skills) <$> ROLE_SKILLS
      ∧ Forall (λ e, Forall (λ o, (rs_score e ≤ rs_score o)%Z) out) rest.
Proof.
  intros out. subst out. unfold predict_multiple_roles.
  set (low := lower <$> resume_skills).
  set (scores := role_score set_list low <$> ROLE_SKILLS).
  destruct (sort_by_score_spec scores) as [Hperm Hsorted].
  set (sorted := sort_by_score scores) in *.
  assert (Hlen : length sorted = 5) by (by rewrite Hperm).
  assert (Hsplit : take 3 sorted ++ drop 3 sorted = sorted)
    by apply take_drop.
  assert (Hroles : rs_role <$> scores = ROLE_SKILLS.*1).
  { subst scores. rewrite <- list_fmap_compose. apply list_fmap_ext.
    intros _ entry _. apply role_score_role. }
  assert (Hnd : NoDup (rs_role <$> sorted)).
  { rewrite Hperm, Hroles. apply (bool_decide_unpack _). by vm_compute. }
  assert (Hrange : Forall (λ e, (0 ≤ rs_score e ≤ 100)%Z) sorted).
  { rewrite Hperm. subst scores. apply Forall_fmap, Forall_forall.
    intros entry Hin. apply role_score_range.
    revert entry Hin. apply Forall_forall. unfold ROLE_SKILLS.
    repeat constructor; done. }
  rewrite <- Hsplit in Hsorted, Hnd, Hrange.
  split_and!.
  - rewrite length_take. lia.
  - rewrite fmap_app in Hnd. by apply NoDup_app in Hnd as [? _].
  - intros role Hin. rewrite <- Hroles, <- Hperm, <- Hsplit, fmap_app.
    apply elem_of_app. by left.
  - by apply Forall_app in Hrange as [? _].
  - by apply StronglySorted_app_1_l in Hsorted.
  - exists (drop 3 sorted). split; [by rewrite Hsplit|].
    apply Forall_forall. intros e He. apply Forall_forall. intros o Ho.
    exact (StronglySorted_app_1_elem_of _ _ _ o e Hsorted Ho He).
Qed.

Lemma role_score_disjoint set_list low role skills :
  Forall (λ x, x ∉ lower <$> skills) low →
  role_score set_list low (role, skills)
  = mk_role_score role 0 (set_list ∅) (set_list (list_to_set skills ∖ ∅))
      (get_confidence_reason role (set_list ∅)).
Proof.
  intros H. unfold role_score.
  assert (Hempty : (list_to_set low ∩ list_to_set (lower <$> skills)
                    : gset string) = ∅).
  { apply set_eq. intros x. rewrite Forall_forall in H.
    rewrite elem_of_intersection, !elem_of_list_to_set. split.
    - intros [H1 H2]. by destruct (H x H1).
    - set_solver. }
  rewrite Hempty, size_empty. by rewrite percent_points_zero.
Qed.

(** X22. When no skill of the resume is, up to letter case, a skill of the
    role table, every role scores 0 and the predictor returns the first
    three roles of the table in table order: the sort keeps ties in
    place. *)
Theorem predict_multiple_roles_no_overlap
    (set_list : gset string → list string) (resume_skills : list string) :
  Forall (λ s, lower s ∉ lower <$> concat (ROLE_SKILLS.*2)) resume_skills →
  let out := predict_multiple_roles set_list resume_skills in
  rs_role <$> out = ["Web Developer"; "Backend Developer"; "Data Analyst"]
  ∧ Forall (λ e, rs_score e = 0%Z ∧ rs_matched_skills e = set_list ∅) out.
Proof.
  intros H out. subst out. unfold predict_multiple_roles.
  set (low := lower <$> resume_skills).
  assert (Hlow : Forall (λ entry, Forall (λ x, x ∉ lower <$> entry.2) low)
                   ROLE_SKILLS).
  { apply Forall_forall. intros [role skills] Hin. subst low.
    apply Forall_fmap. eapply Forall_impl; [exact H|]. intros s Hs Hc.
    apply Hs. apply list_elem_of_fmap in Hc as (y & -> & Hy).
    apply list_elem_of_fmap_2, list_elem_of_In, in_concat.
    exists skills. split; apply list_elem_of_In; [|done].
    by apply (list_elem_of_fmap_2 snd) in Hin. }
  unfold ROLE_SKILLS in *. cbn [fmap list_fmap].
  repeat (apply Forall_cons in Hlow as [? Hlow]).
  rewrite !role_score_disjoint by assumption.
  split; [reflexivity|]. repeat constructor.
Qed.

Lemma predict_multiple_roles_no_overlap_witness :
  Forall (λ s, lower s ∉ lower <$> concat (ROLE_SKILLS.*2)) ["Cooking"; "Rust"]
  ∧ rs_role <$> predict_multiple_roles elements ["Cooking"; "Rust"]
    = ["Web Developer"; "Backend Developer"; "Data Analyst"]
  ∧ Forall (λ e, rs_score e = 0%Z ∧ rs_matched_skills e = elements (∅ : gset string))
      (predict_multiple_roles elements ["Cooking"; "Rust"]).
Proof.
  assert (H : Forall (λ s, lower s ∉ lower <$> concat (ROLE_SKILLS.*2))
                ["Cooking"; "Rust"]).
  { apply (bool_decide_unpack _). by vm_compute. }
  split; [exact H|].
  exact (predict_multiple_roles_no_overlap elements ["Cooking"; "Rust"] H).
Defined.

(** ** The keyword groups *)

Lemma filter_ext_elem {A : Type} (P Q : A → Prop)
    `{!∀ x, Decision (P x)} `{!∀ x, Decision (Q x)} (l : list A) :
  (∀ x, x ∈ l → (P x ↔ Q x)) → filter P l = filter Q l.
Proof.
  induction l as [|x l IH]; intros Hext; [done|].
  rewrite !filter_cons.
  assert (Hx : P x ↔ Q x) by (apply Hext; left).
  rewrite IH by (intros y Hy; apply Hext; by right).
  destruct (decide (P x)), (decide (Q x)); tauto.
Qed.

Lemma dict_set_fresh {V : Type} (d : list (string * V)) k v :
  k ∉ d.*1 → dict_set d k v = d ++ [(k, v)].
Proof.
  induction d as [|[k' v'] d IH]; [done|]. cbn. intros Hk.
  apply not_elem_of_cons in Hk as [Hne Hk].
  destruct (String.eqb_spec k' k); [congruence|]. by rewrite IH.
Qed.

Lemma group_fold mk groups grouped used :
  NoDup (grouped.*1 ++ groups.*1) →
  fold_left (group_step mk) groups (grouped, used)
  = (grouped ++ omap (group_entry mk) groups,
     used ∪ list_to_set (concat (group_matches mk <$> groups))).
Proof.
  revert grouped used. induction groups as [|[g kws] groups IH];
    intros grouped used Hnd.
  - cbn. rewrite app_nil_r. f_equal. set_solver.
  - cbn [fold_left group_step]. unfold group_entry at 1.
    cbn [omap list_omap fmap list_fmap concat].
    change (filter (λ kw, kw ∈ kws) mk) with (group_matches mk (g, kws)).
    cbn [fmap list_fmap] in Hnd.
    destruct (truthy_list (group_matches mk (g, kws))) eqn:Ht.
    + rewrite dict_set_fresh.
      2:{ apply NoDup_app in Hnd as (_ & Hd & _). intros Hin.
          apply (Hd g Hin). left. }
      rewrite IH.
      2:{ rewrite fmap_app, <- app_assoc. exact Hnd. }
      cbn [fst]. rewrite <- app_assoc. f_equal.
      rewrite list_to_set_app_L. set_solver.
    + rewrite IH.
      2:{ apply NoDup_app in Hnd as (H1 & H2 & H3). apply NoDup_app.
          split; [done|]. split.
          - intros x Hx Hin. apply (H2 x Hx). by right.
          - by apply NoDup_cons in H3 as [_ ?]. }
      f_equal. rewrite list_to_set_app_L.
      destruct (group_matches mk (g, kws)); [|done]. set_solver.
Qed.

Lemma concat_group_entries mk groups :
  concat (omap (group_entry mk) groups).*2
  = concat (group_matches mk <$> groups).
Proof.
  induction groups as [|e groups IH]; [done|].
  cbn [omap list_omap fmap list_fmap concat]. unfold group_entry at 1.
  destruct (group_matches mk e) eqn:Hm; cbn; [done|]. by rewrite IH.
Qed.

Lemma group_partition groups mk :
  NoDup (concat groups.*2) →
  concat (group_matches mk <$> groups)
  ++ filter (λ kw, kw ∉ concat groups.*2) mk ≡ₚ mk.
Proof.
  revert mk. induction groups as [|[g kws] groups IH]; intros mk Hnd.
  - cbn. rewrite (list_filter_iff _ (λ _, True)) by set_solver.
    induction mk as [|x mk IHmk]; [done|].
    rewrite filter_cons. destruct (decide True); [|done]. by constructor.
  - cbn [fmap list_fmap concat snd] in *.
    apply NoDup_app in Hnd as (Hk & Hdisj & Hrest).
    set (mk' := filter (λ kw, kw ∉ kws) mk).
    assert (H1 : group_matches mk <$> groups = group_matches mk' <$> groups).
    { apply list_fmap_ext. intros _ e He%list_elem_of_lookup_2.
      unfold group_matches. subst mk'. rewrite list_filter_filter.
      apply list_filter_iff. intros kw. split; [|tauto].
      intros Hin. split; [done|]. intros Hkw. apply (Hdisj kw Hkw).
      apply list_elem_of_In, in_concat. exists e.2.
      split; apply list_elem_of_In; [|done]. by apply list_elem_of_fmap_2. }
    assert (H2 : filter (λ kw, kw ∉ kws ++ concat groups.*2) mk
                 = filter (λ kw, kw ∉ concat groups.*2) mk').
    { subst mk'. rewrite list_filter_filter. apply list_filter_iff.
      intros kw. rewrite not_elem_of_app. tauto. }
    rewrite H1, H2, <- app_assoc, (IH mk' Hrest).
    unfold group_matches. cbn [snd]. subst mk'.
    apply filter_app_complement.
Qed.

Lemma semantic_groups_NoDup :
  NoDup (SEMANTIC_GROUPS.*1 ++ ["Other"])
  ∧ NoDup (concat SEMANTIC_GROUPS.*2).
Proof. split; apply (bool_decide_unpack _); by vm_compute. Qed.

(** The result of [group_missing_keywords], group by group. *)
Lemma group_missing_keywords_unfold mk :
  let remaining := filter (λ kw, kw ∉ concat SEMANTIC_GROUPS.*2) mk in
  group_missing_keywords mk
  = omap (group_entry mk) SEMANTIC_GROUPS
    ++ (if truthy_list remaining then [("Other", remaining)] else []).
Proof.
  intros remaining. unfold group_missing_keywords.
  destruct semantic_groups_NoDup as [Hkeys _].
  rewrite group_fold
    by (cbn [fmap list_fmap app]; by apply NoDup_app in Hkeys as [? _]).
  cbn [app].
  assert (Hrem : filter (λ kw, kw ∉ (∅ ∪ list_to_set
                   (concat (group_matches mk <$> SEMANTIC_GROUPS))
                   : gset string)) mk = remaining).
  { subst remaining. apply filter_ext_elem. intros kw Hkw.
    rewrite union_empty_l_L, elem_of_list_to_set.
    assert (Hiff : kw ∈ concat (group_matches mk <$> SEMANTIC_GROUPS)
                   ↔ kw ∈ concat SEMANTIC_GROUPS.*2).
    { generalize SEMANTIC_GROUPS as groups. intros groups.
      induction groups as [|e groups IH]; [done|].
      cbn [fmap list_fmap concat]. rewrite !elem_of_app, IH.
      unfold group_matches. rewrite list_elem_of_filter. tauto. }
    by rewrite Hiff. }
  rewrite Hrem. destruct (truthy_list remaining) eqn:Ht; [|by rewrite app_nil_r].
  apply dict_set_fresh. intros Hin.
  apply NoDup_app in Hkeys as (_ & Hd & _).
  assert (Hsub : (omap (group_entry mk) SEMANTIC_GROUPS).*1
                 ⊆ SEMANTIC_GROUPS.*1).
  { intros k Hk. apply list_elem_of_fmap in Hk as ([k' v] & -> & Hkv).
    apply list_elem_of_omap in Hkv as (e & He & Hge).
    unfold group_entry in Hge.
    destruct (truthy_list (group_matches mk e)); [|done].
    injection Hge as <- <-. cbn [fst]. by apply list_elem_of_fmap_2. }
  apply (Hd "Other" (Hsub _ Hin)). left.
Qed.

Lemma group_missing_keywords_concat mk :
  concat (group_missing_keywords mk).*2 ≡ₚ mk.
Proof.
  rewrite group_missing_keywords_unfold.
  set (remaining := filter (λ kw, kw ∉ concat SEMANTIC_GROUPS.*2) mk).
  rewrite fmap_app, concat_app, concat_group_entries.
  assert (Hother : concat (if truthy_list remaining
                           then [("Other", remaining)] else []).*2
                   = remaining).
  { destruct remaining; [done|]. cbn. by rewrite app_nil_r. }
  rewrite Hother. apply group_partition, semantic_groups_NoDup.
Qed.

(** X23. Grouping sorts every keyword into exactly one group: the lists of
    the groups together are a rearrangement of the keywords given; no group
    is listed empty; the groups come in table order with Other last; a
    semantic group holds the keywords of its table list and Other the
    keywords of no table list, both in the order given. *)
Theorem group_missing_keywords_partition (missing_keywords : list string) :
  let grouped := group_missing_keywords missing_keywords in
  concat grouped.*2 ≡ₚ missing_keywords
  ∧ Forall (λ entry, entry.2 ≠ []) grouped
  ∧ grouped.*1 `sublist_of` SEMANTIC_GROUPS.*1 ++ ["Other"]
  ∧ Forall (λ entry,
              entry.2 = filter (λ kw, kw ∈ dict_get_list SEMANTIC_GROUPS entry.1)
                          missing_keywords
              ∨ (entry.1 = "Other"
                 ∧ entry.2 = filter (λ kw, kw ∉ concat SEMANTIC_GROUPS.*2)
                               missing_keywords))
      grouped.
Proof.
  intros grouped. subst grouped.
  split; [apply group_missing_keywords_concat|].
  rewrite group_missing_keywords_unfold.
  set (mk := missing_keywords).
  set (remaining := filter (λ kw, kw ∉ concat SEMANTIC_GROUPS.*2) mk).
  set (other := if truthy_list remaining then [("Other", remaining)] else []).
  split_and!.
  - apply Forall_app. split.
    + apply Forall_forall. intros [g kws] Hin.
      apply list_elem_of_omap in Hin as (e & _ & He). unfold group_entry in He.
      destruct (group_matches mk e) eqn:Hm; [done|]. by injection He as <- <-.
    + subst other. destruct remaining eqn:Hr; [done|]. by repeat constructor.
  - rewrite fmap_app. apply sublist_app.
    + generalize SEMANTIC_GROUPS as groups. intros groups.
      induction groups as [|e groups IH]; [done|].
      cbn [omap list_omap fmap list_fmap]. unfold group_entry at 1.
      destruct (truthy_list (group_matches mk e)); cbn [fmap list_fmap fst].
      * by apply sublist_skip.
      * by apply sublist_cons.
    + subst other. destruct (truthy_list remaining); [done|].
      by apply sublist_cons.
  - apply Forall_app. split.
    + apply Forall_forall. intros [g kws] Hin. left.
      apply list_elem_of_omap in Hin as (e & He & Hge).
      unfold group_entry in Hge.
      destruct (truthy_list (group_matches mk e)); [|done].
      injection Hge as <- <-. cbn [fst snd]. unfold group_matches.
      revert e He. apply Forall_forall. unfold SEMANTIC_GROUPS.
      repeat constructor.
    + subst other. destruct (truthy_list remaining); [|done].
      apply Forall_cons. split; [by right|constructor].
Qed.

(** ** The description matcher *)


(** X25. When [list(a_set)] lists a set without repetition, the description
    matcher reports at most ten missing keywords, all different; each is a
    word of the lower-cased description made of letters only that is no
    stop word and no resume skill; and the groups hold exactly these
    keywords. *)
Theorem match_jd_missing_keywords
    (set_list : gset string → list string)
    (resume_skills : list string) (job_description : string) :
  (∀ X, set_list X ≡ₚ elements X) →
  let res := match_jd set_list resume_skills job_description in
  length (jd_missing_keywords res) ≤ 10
  ∧ NoDup (jd_missing_keywords res)
  ∧ Forall (λ word, word ∈ split_ws (lower job_description)
                    ∧ isalpha word = true
                    ∧ (word ∉ stopwords)
                    ∧ (word ∉ lower <$> resume_skills))
      (jd_missing_keywords res)
  ∧ concat (jd_grouped_missing res).*2 ≡ₚ jd_missing_keywords res.
Proof.
  intros Hlist res. subst res. unfold match_jd.
  cbn [jd_missing_keywords jd_grouped_missing].
  match goal with |- context [set_list ?X] => set (jd_words := X) end.
  split_and!.
  - rewrite length_take. lia.
  - eapply sublist_NoDup; [|apply sublist_take].
    rewrite Hlist. apply NoDup_elements.
  - apply Forall_take, Forall_forall. intros word Hin.
    rewrite Hlist in Hin. apply elem_of_elements in Hin. subst jd_words.
    apply elem_of_list_to_set, list_elem_of_filter in Hin. tauto.
  - apply group_missing_keywords_concat.
Qed.

Lemma match_jd_missing_keywords_witness :
  let res :=
    match_jd elements ["Python"; "Flask"]
      "We need Python and Django experience with REST APIs" in
  (∀ X : gset string, elements X ≡ₚ elements X)
  ∧ length (jd_missing_keywords res) ≤ 10
  ∧ NoDup (jd_missing_keywords res).
Proof.
  assert (H : ∀ X : gset string, elements X ≡ₚ elements X) by done.
  split; [exact H|].
  pose proof (match_jd_missing_keywords elements ["Python"; "Flask"]
                "We need Python and Django experience with REST APIs" H)
    as (H1 & H2 & _).
  split; [exact H1|exact H2].
Defined.

(** ** From the form to the refined resume *)

Lemma Forall2_transfer {A B : Type} (R : A → B → Prop) (P : A → Prop)
    (Q : B → Prop) l k :
  (∀ x y, R x y → P x → Q y) → Forall2 R l k → Forall P l → Forall Q k.
Proof.
  intros HR H. induction H as [|x y l k Hxy _ IH]; [done|].
  intros [Hx Hl]%Forall_cons. constructor; [by eapply HR|by apply IH].
Qed.

(** X26. The limits the formatter sets survive refinement: whatever the
    form, role, catalog and scoring function, the refined resume has the
    education entries of the formatted one, experience entries with a title
    and at most four bullets, and at most three projects, each with a name
    and at most three bullets. *)
Theorem refine_for_ats_formatted_within_limits
    (job_roles : list (string * list string)) (form : Form) (role : string)
    (calculate_ats_score_fn : ParsedData → string → AtsResult)
    (role_skills_map : list (string * list string)) (max_attempts : nat) :
  let formatted := format_resume_data form in
  let final :=
    (refine_for_ats job_roles formatted role calculate_ats_score_fn
       role_skills_map max_attempts).1 in
  education final = education formatted
  ∧ Forall (λ e, exp_title e ≠ "" ∧ length (exp_bullets e) ≤ 4)
      (experience final)
  ∧ length (projects final) ≤ 3
  ∧ Forall (λ p, proj_name p ≠ "" ∧ length (proj_bullets p) ≤ 3)
      (projects final).
Proof.
  intros formatted final.
  pose proof (format_experience form) as Hexp.
  pose proof (format_projects form) as [Hcount Hproj].
  fold formatted in Hexp, Hcount, Hproj.
  assert (Hcaps : within_caps formatted).
  { split; (eapply Forall_impl; [eassumption|]); cbn; tauto. }
  assert (Hfinal : within_caps final).
  { revert Hcaps. apply (refine_for_ats_preserves within_caps); try done.
    - apply enhance_language_quality_within_caps.
    - apply inject_fold_preserves, inject_step_within_caps. }
  destruct Hfinal as [Hc1 Hc2].
  pose proof (refine_after_normalize_grows job_roles calculate_ats_score_fn
                role_skills_map (_normalize_role job_roles role) formatted
                max_attempts) as G.
  destruct (enhance_then_extends _ _ _ G) as [He Hp].
  destruct G as (_ & _ & Hedu & _ & _).
  change (refine_after_normalize job_roles calculate_ats_score_fn
            role_skills_map (_normalize_role job_roles role) formatted
            max_attempts).1 with final in He, Hp, Hedu.
  split_and!.
  - exact Hedu.
  - apply Forall_and. split; [|done].
    eapply Forall2_transfer; [|exact He|exact Hexp].
    intros e0 e1 (Ht & _) (Hne & _). cbn beta. congruence.
  - apply Forall2_length in Hp. lia.
  - apply Forall_and. split; [|done].
    eapply Forall2_transfer; [|exact Hp|exact Hproj].
    intros p0 p1 (Ht & _) (Hne & _). cbn beta. congruence.
Qed.
